(** * Verification of the agent runtime core

    A shallow embedding of the streaming message parser, the event bus,
    the file operation manager, the token based memory compactor and the
    orchestrator's result processing, with the properties stated about
    them in the specification. *)

From Stdlib Require Import String Ascii List Bool Arith ZArith QArith Lia.
From Stdlib Require SpecFloat.
From stdpp Require Import gmap strings list fin_maps.

Import ListNotations.
Local Open Scope string_scope.
Local Open Scope list_scope.

(** * Python string helpers

    The subset of [str] methods the modelled code calls. *)
Module PyStr.

(** [s += c] *)
Definition snoc (s : string) (c : ascii) : string := s +:+ String c "".

(** truthiness of a string: [bool(s)] *)
Definition truthy (s : string) : bool :=
  match s with "" => false | _ => true end.

(** truthiness of an [Optional[str]] *)
Definition truthy_opt (o : option string) : bool :=
  match o with Some s => truthy s | None => false end.

(** [s.lstrip(c)] for a one character set *)
Fixpoint lstrip (c : ascii) (s : string) : string :=
  match s with
  | String a r => if Ascii.eqb a c then lstrip c r else s
  | "" => ""
  end.

(** [s.rstrip(c)] for a one character set *)
Fixpoint rstrip (c : ascii) (s : string) : string :=
  match s with
  | String a r =>
      match rstrip c r with
      | "" => if Ascii.eqb a c then "" else String a ""
      | r' => String a r'
      end
  | "" => ""
  end.

(** [s.startswith(p)] *)
Definition startswith (s p : string) : bool := String.prefix p s.

(** [s.endswith(c)] for a one character suffix *)
Fixpoint endswith_char (s : string) (c : ascii) : bool :=
  match s with
  | "" => false
  | String a "" => Ascii.eqb a c
  | String _ r => endswith_char r c
  end.

(** [s[1:]] *)
Definition tail (s : string) : string :=
  match s with String _ r => r | "" => "" end.

(** [\[c for c in s\]] *)
Definition chars (s : string) : list ascii := list_ascii_of_string s.

End PyStr.

(** * Streaming message parser
    [app/agentic/types/assistant_message.py] and [types/events.py] *)
Module Parser.

(** [ToolUseName], in declaration order (the order [for tool in
    ToolUseName] visits). *)
Definition ToolUseName : list string :=
  [ "read-file"; "write-to-file"; "apply-diff"; "search-files";
    "list-files"; "ask-followup-question"; "delete-file"; "rename-file";
    "add-dependency"; "kb-search" ].

(** [ToolParamName], in declaration order. *)
Definition ToolParamName : list string :=
  [ "path"; "content"; "diff"; "recursive"; "regex"; "file-pattern";
    "source"; "destination"; "name"; "query"; "question" ].

(** A [dict[str, str]]: insertion ordered, assignment to an existing key
    keeps its position. *)
Definition dict := list (string * string).

Fixpoint dict_set (d : dict) (k v : string) : dict :=
  match d with
  | [] => [(k, v)]
  | (k', v') :: r =>
      if String.eqb k' k then (k, v) :: r else (k', v') :: dict_set r k v
  end.

Fixpoint dict_get (d : dict) (k : string) : option string :=
  match d with
  | [] => None
  | (k', v') :: r => if String.eqb k' k then Some v' else dict_get r k
  end.

Inductive ToolStatus := started | partial | executing | completed | failed.

(** [types/events.py]; the parser never builds a [UsageEvent]. *)
Inductive StreamEvent :=
| TextEvent (text : string)
| ThinkingEvent (text : string)
| ToolEvent (tool_name tool_id : string) (status : ToolStatus)
            (params : option dict) (result error : option string)
            (extra : option (list (string * option string))).

(** A [ToolEvent] built with the keyword defaults, as the parser does. *)
Definition tool_event (tool_name tool_id : string) (status : ToolStatus)
    (params : option dict) : StreamEvent :=
  ToolEvent tool_name tool_id status params None None None.

(** The attributes [reset_state] initialises.  [uuid_calls] is not an
    attribute of the parser: it counts the calls of [uuid.uuid4] made so
    far, so that the [n]-th identifier is [uuid4 n]. *)
Record State := mkState {
  in_thinking_block : bool;
  in_tool_block : bool;
  current_tool : option string;
  current_param_name : option string;
  partial_tag : string;
  partial_param : string;
  current_params : dict;
  current_tool_id : option string;
  thinking_buffer : string;
  text_buffer : string;
  accumulating_tag : bool;
  accumulated_tag : string;
  uuid_calls : nat
}.

Definition reset_state (n : nat) : State :=
  {| in_thinking_block := false; in_tool_block := false;
     current_tool := None; current_param_name := None;
     partial_tag := ""; partial_param := ""; current_params := [];
     current_tool_id := None; thinking_buffer := ""; text_buffer := "";
     accumulating_tag := false; accumulated_tag := "";
     uuid_calls := n |}.

Definition set_in_thinking_block (b : bool) (s : State) : State :=
  mkState b (in_tool_block s) (current_tool s) (current_param_name s)
    (partial_tag s) (partial_param s) (current_params s)
    (current_tool_id s) (thinking_buffer s) (text_buffer s)
    (accumulating_tag s) (accumulated_tag s) (uuid_calls s).

Definition set_partial_tag (v : string) (s : State) : State :=
  mkState (in_thinking_block s) (in_tool_block s) (current_tool s)
    (current_param_name s) v (partial_param s) (current_params s)
    (current_tool_id s) (thinking_buffer s) (text_buffer s)
    (accumulating_tag s) (accumulated_tag s) (uuid_calls s).

Definition set_current_param_name (v : option string) (s : State) : State :=
  mkState (in_thinking_block s) (in_tool_block s) (current_tool s) v
    (partial_tag s) (partial_param s) (current_params s)
    (current_tool_id s) (thinking_buffer s) (text_buffer s)
    (accumulating_tag s) (accumulated_tag s) (uuid_calls s).

Definition set_partial_param (v : string) (s : State) : State :=
  mkState (in_thinking_block s) (in_tool_block s) (current_tool s)
    (current_param_name s) (partial_tag s) v (current_params s)
    (current_tool_id s) (thinking_buffer s) (text_buffer s)
    (accumulating_tag s) (accumulated_tag s) (uuid_calls s).

Definition set_current_params (v : dict) (s : State) : State :=
  mkState (in_thinking_block s) (in_tool_block s) (current_tool s)
    (current_param_name s) (partial_tag s) (partial_param s) v
    (current_tool_id s) (thinking_buffer s) (text_buffer s)
    (accumulating_tag s) (accumulated_tag s) (uuid_calls s).

Definition set_thinking_buffer (v : string) (s : State) : State :=
  mkState (in_thinking_block s) (in_tool_block s) (current_tool s)
    (current_param_name s) (partial_tag s) (partial_param s)
    (current_params s) (current_tool_id s) v (text_buffer s)
    (accumulating_tag s) (accumulated_tag s) (uuid_calls s).

Definition set_text_buffer (v : string) (s : State) : State :=
  mkState (in_thinking_block s) (in_tool_block s) (current_tool s)
    (current_param_name s) (partial_tag s) (partial_param s)
    (current_params s) (current_tool_id s) (thinking_buffer s) v
    (accumulating_tag s) (accumulated_tag s) (uuid_calls s).

(** [self.accumulating_tag = b; self.accumulated_tag = v] *)
Definition set_accumulating (b : bool) (v : string) (s : State) : State :=
  mkState (in_thinking_block s) (in_tool_block s) (current_tool s)
    (current_param_name s) (partial_tag s) (partial_param s)
    (current_params s) (current_tool_id s) (thinking_buffer s)
    (text_buffer s) b v (uuid_calls s).

(** The three assignments that open a tool block, and the call of
    [uuid.uuid4]. *)
Definition open_tool (name id : string) (s : State) : State :=
  mkState (in_thinking_block s) true (Some name) (current_param_name s)
    (partial_tag s) (partial_param s) (current_params s) (Some id)
    (thinking_buffer s) (text_buffer s) (accumulating_tag s)
    (accumulated_tag s) (S (uuid_calls s)).

(** The three assignments that close a tool block. *)
Definition close_tool (s : State) : State :=
  mkState (in_thinking_block s) false None (current_param_name s)
    (partial_tag s) (partial_param s) [] (current_tool_id s)
    (thinking_buffer s) (text_buffer s) (accumulating_tag s)
    (accumulated_tag s) (uuid_calls s).

(** [_flush_buffers] *)
Definition _flush_buffers (s : State) : list StreamEvent * State :=
  if PyStr.truthy (thinking_buffer s) && in_thinking_block s then
    ([ThinkingEvent (thinking_buffer s)], set_thinking_buffer "" s)
  else if PyStr.truthy (text_buffer s) && negb (in_tool_block s)
          && negb (in_thinking_block s) then
    ([TextEvent (text_buffer s)], set_text_buffer "" s)
  else ([], s).

(** One of the two [for] loops of [_detect_possible_tag]: the first name
    equal to [tag] ([Some (Some name)]) or having it as a prefix
    ([Some None]), whichever the loop meets first. *)
Fixpoint scan_names (names : list string) (tag : string)
  : option (option string) :=
  match names with
  | [] => None
  | n :: r =>
      if String.eqb n tag then Some (Some n)
      else if PyStr.startswith n tag then Some None
      else scan_names r tag
  end.

(** [_detect_possible_tag]: [(tool_name, param_name, is_closing_tag)] *)
Definition _detect_possible_tag (tag : string)
  : option string * option string * option bool :=
  let tag := PyStr.rstrip ">" (PyStr.lstrip "<" tag) in
  let is_closing := PyStr.startswith tag "/" in
  let tag := if is_closing then PyStr.tail tag else tag in
  match scan_names ToolUseName tag with
  | Some (Some tool) => (Some tool, None, Some is_closing)
  | Some None => (None, None, Some is_closing)
  | None =>
      match scan_names ToolParamName tag with
      | Some (Some param) => (None, Some param, Some is_closing)
      | Some None => (None, None, Some is_closing)
      | None =>
          if String.eqb tag "thinking" then
            (Some "thinking", None, Some is_closing)
          else if PyStr.startswith "thinking" tag then
            (None, None, Some is_closing)
          else (None, None, None)
      end
  end.

Definition opt_is (o : option string) (v : string) : bool :=
  match o with Some s => String.eqb s v | None => false end.

Section WithUuid.

(** [uuid4 n] is [str(uuid.uuid4())] at the [n]-th call, given as its
    first character and the rest: the text of a UUID is 36 characters
    long, never empty. *)
Variable uuid4 : nat -> ascii * string.

Definition uuid_str (n : nat) : string :=
  String (fst (uuid4 n)) (snd (uuid4 n)).

(** The body of [if self.accumulated_tag.endswith(">")] after the
    unrecognised case, up to (not including) the two assignments that
    leave tag accumulation. *)
Definition handle_tag (tool_name param_name : option string)
    (is_closing : bool) (s : State) : list StreamEvent * State :=
  if opt_is tool_name "thinking" then
    let '(ev, s1) := _flush_buffers s in
    (ev, set_in_thinking_block (negb is_closing) s1)
  else if PyStr.truthy_opt tool_name then
    if negb is_closing then
      let '(ev, s1) := _flush_buffers s in
      let name := default "" tool_name in
      let id := uuid_str (uuid_calls s1) in
      (ev ++ [tool_event name id started None], open_tool name id s1)
    else
      match in_tool_block s, current_tool s, current_tool_id s with
      | true, Some name, Some id =>
          if PyStr.truthy id then
            ([tool_event name id executing (Some (current_params s))],
             close_tool s)
          else ([], s)
      | _, _, _ => ([], s)
      end
  else if PyStr.truthy_opt param_name && in_tool_block s then
    if negb is_closing then
      ([], set_partial_param "" (set_current_param_name param_name s))
    else
      match current_param_name s with
      | Some cur =>
          if PyStr.truthy cur then
            let s1 :=
              set_current_params
                (dict_set (current_params s) cur (partial_param s)) s in
            let ev :=
              match current_tool s1, current_tool_id s1 with
              | Some name, Some id =>
                  if PyStr.truthy id then
                    [tool_event name id partial (Some (current_params s1))]
                  else []
              | _, _ => []
              end in
            (ev, set_current_param_name None s1)
          else ([], s)
      | None => ([], s)
      end
  else ([], s).

(** An unrecognised tag is put back as literal text. *)
Definition flush_literal (s : State) : State :=
  if PyStr.truthy_opt (current_param_name s) then
    set_partial_param (partial_param s +:+ accumulated_tag s) s
  else if in_thinking_block s then
    set_thinking_buffer (thinking_buffer s +:+ accumulated_tag s) s
  else if negb (in_tool_block s) then
    set_text_buffer (text_buffer s +:+ accumulated_tag s) s
  else s.

(** One iteration of [while content:] on the character [c =
    content[0]]; every path through the loop body drops exactly that
    character. *)
Definition step_char (s : State) (c : ascii) : list StreamEvent * State :=
  if accumulating_tag s then
    let s1 := set_accumulating true (PyStr.snoc (accumulated_tag s) c) s in
    let '(tool_name, param_name, is_closing) :=
      _detect_possible_tag (accumulated_tag s1) in
    if PyStr.endswith_char (accumulated_tag s1) ">" then
      match tool_name, param_name with
      | None, None => ([], set_accumulating false "" (flush_literal s1))
      | _, _ =>
          let '(ev, s2) :=
            handle_tag tool_name param_name (default false is_closing) s1 in
          (ev, set_accumulating false "" s2)
      end
    else ([], s1)
  else if Ascii.eqb c "<" then ([], set_accumulating true "<" s)
  else if PyStr.truthy_opt (current_param_name s) then
    ([], set_partial_param (PyStr.snoc (partial_param s) c) s)
  else if in_thinking_block s then
    ([], set_thinking_buffer (PyStr.snoc (thinking_buffer s) c) s)
  else if negb (in_tool_block s) then
    ([], set_text_buffer (PyStr.snoc (text_buffer s) c) s)
  else ([], s).

(** The whole [while content:] loop. *)
Fixpoint feed_chars (s : State) (cs : list ascii)
  : list StreamEvent * State :=
  match cs with
  | [] => ([], s)
  | c :: r =>
      let '(ev, s1) := step_char s c in
      let '(ev', s2) := feed_chars s1 r in
      (ev ++ ev', s2)
  end.

(** [__call__]: [None] is the end of stream signal. *)
Definition call (s : State) (chunk : option string)
  : list StreamEvent * State :=
  match chunk with
  | None =>
      let '(ev, s1) := _flush_buffers s in
      (ev, reset_state (uuid_calls s1))
  | Some chunk =>
      let content := partial_tag s +:+ chunk in
      let '(ev, s1) :=
        feed_chars (set_partial_tag "" s) (PyStr.chars content) in
      let '(ev', s2) := _flush_buffers s1 in
      (ev ++ ev', s2)
  end.

(** Successive calls on one parser object. *)
Fixpoint calls (s : State) (chunks : list (option string))
  : list StreamEvent * State :=
  match chunks with
  | [] => ([], s)
  | c :: r =>
      let '(ev, s1) := call s c in
      let '(ev', s2) := calls s1 r in
      (ev ++ ev', s2)
  end.

(** A fresh parser fed [chunks] and then the end of stream signal. *)
Definition parse_stream (chunks : list string) : list StreamEvent :=
  fst (calls (reset_state 0) (map Some chunks ++ [None])).

End WithUuid.

(** Concatenation of the contents of the [TextEvent]s. *)
Fixpoint text_of (evs : list StreamEvent) : string :=
  match evs with
  | [] => ""
  | TextEvent t :: r => t +:+ text_of r
  | _ :: r => text_of r
  end.

(** Concatenation of the contents of the [ThinkingEvent]s. *)
Fixpoint thinking_of (evs : list StreamEvent) : string :=
  match evs with
  | [] => ""
  | ThinkingEvent t :: r => t +:+ thinking_of r
  | _ :: r => thinking_of r
  end.

(** the concatenation of the chunks: the stream as one string. *)
Definition join (chunks : list string) : string :=
  fold_right String.append "" chunks.

Definition is_executing (e : StreamEvent) : bool :=
  match e with ToolEvent _ _ executing _ _ _ _ => true | _ => false end.

(** ** Notions used to state the parser's invariants *)

(** The state with both output buffers emptied: what decides the control
    flow of the parser. *)
Definition strip (s : State) : State :=
  set_text_buffer "" (set_thinking_buffer "" s).

(** Free text is only buffered outside thinking and tool blocks, thinking
    text only inside a thinking block, and [partial_tag] stays empty. *)
Definition Inv (s : State) : Prop :=
  partial_tag s = ""
  /\ (text_buffer s <> "" ->
      in_thinking_block s = false /\ in_tool_block s = false)
  /\ (thinking_buffer s <> "" -> in_thinking_block s = true).

(** [f] followed by [g], events concatenated. *)
Definition seq_op (f g : State -> list StreamEvent * State) (s : State)
  : list StreamEvent * State :=
  let '(ev, s1) := f s in
  let '(ev', s2) := g s1 in
  (ev ++ ev', s2).

(** An operation is coherent when running it on a state differs from
    running it on the stripped state only by the buffered text being
    carried along: nothing buffered is lost and nothing else depends on
    the buffers. *)
Definition coherent (op : State -> list StreamEvent * State) : Prop :=
  forall s, Inv s ->
    Inv (snd (op s))
    /\ strip (snd (op s)) = strip (snd (op (strip s)))
    /\ text_of (fst (op s)) +:+ text_buffer (snd (op s))
       = text_buffer s
         +:+ (text_of (fst (op (strip s)))
              +:+ text_buffer (snd (op (strip s))))
    /\ thinking_of (fst (op s)) +:+ thinking_buffer (snd (op s))
       = thinking_buffer s
         +:+ (thinking_of (fst (op (strip s)))
              +:+ thinking_buffer (snd (op (strip s)))).

(** Two partial runs that agree on the control state and on the text
    delivered or still buffered. *)
Definition obs_eq (r1 r2 : list StreamEvent * State) : Prop :=
  Inv (snd r1) /\ Inv (snd r2)
  /\ strip (snd r1) = strip (snd r2)
  /\ text_of (fst r1) +:+ text_buffer (snd r1)
     = text_of (fst r2) +:+ text_buffer (snd r2)
  /\ thinking_of (fst r1) +:+ thinking_buffer (snd r1)
     = thinking_of (fst r2) +:+ thinking_buffer (snd r2).

End Parser.

(** * Event bus
    [app/agentic/agents/coder/event_bus.py] *)
Module EventBus.

(** [EventType]; [auto()] numbers the members from 1 in this order. *)
Inductive EventType :=
| TASK_STARTED | TASK_COMPLETED | TASK_FAILED | TASK_ABORTED | TASK_TIMEOUT
| TOOL_REQUESTED | TOOL_EXECUTING | TOOL_COMPLETED | TOOL_FAILED
| TURN_STARTED | TURN_COMPLETED | TURN_DISCARDED
| FILE_READ | FILE_WRITTEN | FILE_DELETED | FILE_RENAMED | FILE_DIFF_APPLIED
| DEPENDENCY_ADDED
| STREAM_STARTED | STREAM_ENDED | THINKING_STARTED | THINKING_ENDED
| MEMORY_COMPACT_REQUESTED
| HOOK_FAILED | USAGE_UPDATED | MIGRATION_FAILED.

Definition all_event_types : list EventType :=
  [ TASK_STARTED; TASK_COMPLETED; TASK_FAILED; TASK_ABORTED; TASK_TIMEOUT;
    TOOL_REQUESTED; TOOL_EXECUTING; TOOL_COMPLETED; TOOL_FAILED;
    TURN_STARTED; TURN_COMPLETED; TURN_DISCARDED;
    FILE_READ; FILE_WRITTEN; FILE_DELETED; FILE_RENAMED; FILE_DIFF_APPLIED;
    DEPENDENCY_ADDED;
    STREAM_STARTED; STREAM_ENDED; THINKING_STARTED; THINKING_ENDED;
    MEMORY_COMPACT_REQUESTED;
    HOOK_FAILED; USAGE_UPDATED; MIGRATION_FAILED ].

(** The value [auto()] gives a member, less one. *)
Definition event_index (e : EventType) : nat :=
  match e with
  | TASK_STARTED => 0 | TASK_COMPLETED => 1 | TASK_FAILED => 2
  | TASK_ABORTED => 3 | TASK_TIMEOUT => 4
  | TOOL_REQUESTED => 5 | TOOL_EXECUTING => 6 | TOOL_COMPLETED => 7
  | TOOL_FAILED => 8
  | TURN_STARTED => 9 | TURN_COMPLETED => 10 | TURN_DISCARDED => 11
  | FILE_READ => 12 | FILE_WRITTEN => 13 | FILE_DELETED => 14
  | FILE_RENAMED => 15 | FILE_DIFF_APPLIED => 16
  | DEPENDENCY_ADDED => 17
  | STREAM_STARTED => 18 | STREAM_ENDED => 19 | THINKING_STARTED => 20
  | THINKING_ENDED => 21
  | MEMORY_COMPACT_REQUESTED => 22
  | HOOK_FAILED => 23 | USAGE_UPDATED => 24 | MIGRATION_FAILED => 25
  end.

#[global] Instance EventType_eq_dec : EqDecision EventType.
Proof. solve_decision. Defined.

#[global] Instance EventType_countable : Countable EventType.
Proof.
  refine (inj_countable' event_index
            (fun n => nth n all_event_types TASK_STARTED) _).
  intros []; reflexivity.
Defined.

(** A Python [set] of callbacks.  The language says what a set holds
    and that iterating over it gives each of its elements once; it
    leaves the order of the iteration to the implementation, where it
    may depend on the hashes of the elements and on the [add] and
    [discard] calls made so far.  A [PySet] is any implementation
    within these bounds: [set_t] is the state of a set object and
    [set_iter] the order in which [for x in s] goes through it. *)
Class PySet (Callback : Type) := {
  set_t : Type;
  (** [set()] *)
  set_new : set_t;
  (** [s.add(x)] *)
  set_add : set_t -> Callback -> set_t;
  (** [s.discard(x)] *)
  set_discard : set_t -> Callback -> set_t;
  (** [for x in s] *)
  set_iter : set_t -> list Callback;
  set_iter_new : set_iter set_new = [];
  set_iter_NoDup : forall s, NoDup (set_iter s);
  set_iter_add : forall s x y,
    y ∈ set_iter (set_add s x) <-> y = x \/ y ∈ set_iter s;
  (** adding an element the set holds leaves the set as it is *)
  set_add_present : forall s x,
    x ∈ set_iter s -> set_iter (set_add s x) = set_iter s;
  set_iter_discard : forall s x y,
    y ∈ set_iter (set_discard s x) <-> y <> x /\ y ∈ set_iter s;
  (** discarding an element the set does not hold leaves the set as it
      is *)
  set_discard_absent : forall s x,
    x ∉ set_iter s -> set_iter (set_discard s x) = set_iter s
}.

Section Bus.

(** Callbacks are Python callables: hashable, compared by identity.
    [Callback] is the type of those identities. *)
Context {Callback : Type} `{PySet Callback}.

(** What a callback does is left to the environment: [run cb data w]
    is the world after the call and whether the call raised. *)
Context {Data World : Type}.
Variable run : Callback -> Data -> World -> World * bool.

(** The two attributes of [EventBus]: for each event type a Python
    [set] of callbacks. *)
Record Bus := mkBus {
  _sync_subscribers : gmap EventType set_t;
  _async_subscribers : gmap EventType set_t
}.

(** [EventBus()] *)
Definition new_bus : Bus := mkBus ∅ ∅.

(** [subscribe] *)
Definition subscribe (b : Bus) (event_type : EventType) (callback : Callback)
  : Bus :=
  let subs :=
    match _sync_subscribers b !! event_type with
    | Some s => _sync_subscribers b
    | None => <[event_type := set_new]> (_sync_subscribers b)
    end in
  mkBus (<[event_type :=
             set_add (default set_new (subs !! event_type)) callback]> subs)
        (_async_subscribers b).

(** [unsubscribe] *)
Definition unsubscribe (b : Bus) (event_type : EventType)
    (callback : Callback) : Bus :=
  match _sync_subscribers b !! event_type with
  | Some s =>
      mkBus (<[event_type := set_discard s callback]> (_sync_subscribers b))
            (_async_subscribers b)
  | None => b
  end.

(** The [for callback in ...] loop of [publish]: every call is wrapped
    in [try/except Exception], so a callback that raises is logged and
    the loop goes on.  The result is the callbacks invoked, in order,
    and the world they leave. *)
Fixpoint invoke_all (cbs : list Callback) (data : Data) (w : World)
  : list Callback * World :=
  match cbs with
  | [] => ([], w)
  | cb :: r =>
      let '(w1, _) := run cb data w in
      let '(tr, w2) := invoke_all r data w1 in
      (cb :: tr, w2)
  end.

(** [publish] *)
Definition publish (b : Bus) (event_type : EventType) (data : Data)
    (w : World) : list Callback * World :=
  match _sync_subscribers b !! event_type with
  | Some s => invoke_all (set_iter s) data w
  | None => ([], w)
  end.

(** A sequence of [subscribe] calls on a new bus. *)
Definition subscribe_all (calls : list (EventType * Callback)) : Bus :=
  fold_left (fun b c => subscribe b (fst c) (snd c)) calls new_bus.

(** The callbacks subscribed to [et], as the set holds them. *)
Definition subscribers (b : Bus) (et : EventType) : list Callback :=
  match _sync_subscribers b !! et with
  | Some s => set_iter s
  | None => []
  end.

End Bus.

(** Callbacks that do nothing. *)
Definition idle {Callback : Type} (cb : Callback) (data : unit) (w : unit)
  : unit * bool :=
  (w, false).

(** ** CPython's table of eight slots

    CPython keeps a set of up to four elements in a table of eight
    slots: an element whose hash is [h] goes to slot [h mod 8] when that
    slot is free, and the iteration goes through the slots in order.
    [by_slot] is a set of callbacks, each given by its hash, that does
    this; two elements in the same slot, which CPython resolves by
    probing, are kept in the order of their arrival. *)
Definition slot (h : nat) : nat := h mod 8.

(** The element [x] put in the list [s], which is ordered by slot. *)
Fixpoint place (x : nat) (s : list nat) : list nat :=
  match s with
  | [] => [x]
  | y :: r => if Nat.ltb (slot x) (slot y) then x :: s else y :: place x r
  end.

Definition slot_add (s : list nat) (x : nat) : list nat :=
  if bool_decide (x ∈ s) then s else place x s.

Definition slot_discard (s : list nat) (x : nat) : list nat :=
  filter (fun y => y <> x) s.

(** The state of the set: its elements in the order of the iteration. *)
Definition slots : Type := { s : list nat | NoDup s }.

Definition by_slot_new : slots := [] ↾ NoDup_nil_2.

Definition by_slot_add (s : slots) (x : nat) : slots.
Proof.
  refine (slot_add (`s) x ↾ _).
  destruct s as [s Hs]. cbn [proj1_sig]. unfold slot_add.
  case_bool_decide as Hx; [exact Hs|].
  induction s as [|z r IH]; cbn [place]; [apply NoDup_singleton|].
  destruct (Nat.ltb (slot x) (slot z)); [now apply NoDup_cons|].
  apply NoDup_cons in Hs as (Hz & Hr).
  apply not_elem_of_cons in Hx as (Hxz & Hxr).
  apply NoDup_cons. split; [|now apply IH].
  clear -Hz Hxz. intros Hin. apply Hz. clear Hz.
  induction r as [|y r IH]; cbn [place] in Hin.
  - apply list_elem_of_singleton in Hin. congruence.
  - destruct (Nat.ltb (slot x) (slot y)).
    + apply elem_of_cons in Hin as [?|?]; [congruence|assumption].
    + apply elem_of_cons in Hin as [->|?]; [left|right; auto].
Defined.

Definition by_slot_discard (s : slots) (x : nat) : slots :=
  slot_discard (`s) x ↾ NoDup_filter _ (`s) (proj2_sig s).

#[export] Instance by_slot : PySet nat.
Proof.
  assert (Hplace : forall x y s, y ∈ place x s <-> y = x \/ y ∈ s).
  { intros x y s. induction s as [|z r IH]; cbn [place].
    - rewrite list_elem_of_singleton, elem_of_nil. tauto.
    - destruct (Nat.ltb (slot x) (slot z)).
      + apply elem_of_cons.
      + rewrite !elem_of_cons, IH. tauto. }
  refine {| set_t := slots;
            set_new := by_slot_new;
            set_add := by_slot_add;
            set_discard := by_slot_discard;
            set_iter := proj1_sig;
            set_iter_new := eq_refl;
            set_iter_NoDup := @proj2_sig _ _ |}.
  - intros [s Hs] x y. cbn [by_slot_add proj1_sig]. unfold slot_add.
    case_bool_decide as Hx; [|apply Hplace].
    split; [auto|]. now intros [->|?].
  - intros [s Hs] x Hx. cbn [by_slot_add proj1_sig] in *. unfold slot_add.
    now rewrite bool_decide_eq_true_2.
  - intros [s Hs] x y. cbn [by_slot_discard proj1_sig].
    unfold slot_discard. rewrite list_elem_of_filter. tauto.
  - intros [s Hs] x Hx. cbn [by_slot_discard proj1_sig] in *.
    unfold slot_discard. clear Hs.
    induction s as [|z r IH]; [reflexivity|].
    apply not_elem_of_cons in Hx as (Hxz & Hxr).
    rewrite filter_cons_True by congruence. now rewrite IH.
Defined.

End EventBus.

(** * Python path helpers
    The functions of [os.path] (POSIX flavour) the file operation manager
    calls. *)
Module PyPath.

(** [s.split("/")]: never empty, [""] for the empty string. *)
Fixpoint split_sep (s : string) : list string :=
  match s with
  | "" => [""]
  | String c r =>
      if Ascii.eqb c "/" then "" :: split_sep r
      else match split_sep r with
           | h :: t => String c h :: t
           | [] => [String c ""]
           end
  end.

(** ["/".join(l)] *)
Definition join_sep (l : list string) : string :=
  match l with
  | [] => ""
  | h :: t => fold_left (fun acc x => acc +:+ "/" +:+ x) t h
  end.

(** [os.path.isabs] *)
Definition isabs (p : string) : bool := PyStr.startswith p "/".

(** [os.path.join(a, b)] *)
Definition join (a b : string) : string :=
  if PyStr.startswith b "/" then b
  else if negb (PyStr.truthy a) || PyStr.endswith_char a "/" then a +:+ b
  else a +:+ "/" +:+ b.

(** The loop of [os.path.normpath] over the components; [new_comps] is
    kept in reverse, its last element first. *)
Fixpoint norm_comps (initial_slashes : nat) (comps new_comps : list string)
  : list string :=
  match comps with
  | [] => rev new_comps
  | comp :: r =>
      if String.eqb comp "" || String.eqb comp "." then
        norm_comps initial_slashes r new_comps
      else if negb (String.eqb comp "..")
              || (Nat.eqb initial_slashes 0
                  && match new_comps with [] => true | _ => false end)
              || match new_comps with
                 | last :: _ => String.eqb last ".."
                 | [] => false
                 end then
        norm_comps initial_slashes r (comp :: new_comps)
      else
        norm_comps initial_slashes r (List.tail new_comps)
  end.

(** [os.path.normpath] *)
Definition normpath (path : string) : string :=
  if negb (PyStr.truthy path) then "."
  else
    let initial_slashes :=
      if PyStr.startswith path "/" then
        if PyStr.startswith path "//" && negb (PyStr.startswith path "///")
        then 2 else 1
      else 0 in
    let comps := norm_comps initial_slashes (split_sep path) [] in
    let path := join_sep comps in
    let path :=
      match initial_slashes with
      | 0 => path
      | 1 => "/" +:+ path
      | _ => "//" +:+ path
      end in
    if PyStr.truthy path then path else ".".

End PyPath.

(** * File operation manager
    [app/agentic/storage/file_operation_manager.py] *)
Module FileOps.

Definition PROTECTED_PATHS : list string := [".lovable"].
Definition PROTECTED_FILES : list string := ["src/tsconfig.json"].

(** [x in s] for a set of strings *)
Definition mem (x : string) (s : list string) : bool :=
  existsb (String.eqb x) s.

Inductive HookStatus := PENDING | SUCCESS | FAILED | ABORTED.

Inductive ChangeType := WRITE | DELETE | RENAME | ADD_DEPENDENCY.

(** The exceptions the manager raises or lets through; [OtherError]
    stands for any other [Exception]. *)
Inductive Exn :=
| RuntimeError (msg : string)
| FileNotFoundError (msg : string)
| FileExistsError (msg : string)
| ValueError (msg : string)
| OtherError (msg : string).

Inductive outcome := Returned | Raised (e : Exn).

Record FileChange := mkFileChange {
  path : string;
  change_type : ChangeType;
  content : option string;
  metadata : Parser.dict
}.

(** The file system under the manager: the calls the manager makes, each
    giving the file system afterwards and the exception raised, if any. *)
Class FileSystem (FS : Type) := {
  (** [os.path.exists] *)
  fs_exists : FS -> string -> bool;
  (** [Path(path).parent.mkdir(parents=True, exist_ok=True)] *)
  fs_mkdir_parents : FS -> string -> FS * option Exn;
  (** [open(path, "w")], [write], [flush], [os.fsync] *)
  fs_write : FS -> string -> string -> FS * option Exn;
  (** [os.remove] *)
  fs_remove : FS -> string -> FS * option Exn;
  (** [shutil.move] *)
  fs_move : FS -> string -> string -> FS * option Exn
}.

Section Manager.

(** [T], the type of hook results. *)
Context {T : Type}.
Context {FS : Type} `{FileSystem FS}.

Record HookContext := mkHookContext {
  hook_name : string;
  status : HookStatus;
  result : option T;
  error : option string
}.

Record WriteTurn := mkWriteTurn {
  turn_id : string;
  cwd : string;
  changes : list FileChange;
  hook_results : gmap string HookContext
}.

(** [WriteTurn.set_hook_result] *)
Definition set_hook_result (t : WriteTurn) (name : string)
    (st : HookStatus) (res : option T) (err : option string) : WriteTurn :=
  mkWriteTurn (turn_id t) (cwd t) (changes t)
    (<[name := mkHookContext name st res err]> (hook_results t)).

(** A hook.  [func] reads the turn it is given and the file system as
    it is when the hook runs, and either returns a result or raises an
    exception with the given text; [callback], on a context, either
    returns ([None]) or raises. *)
Record Hook := mkHook {
  name : string;
  func : FS -> WriteTurn -> T + string;
  callback : option (HookContext -> option string);
  blocking : bool
}.

Record Manager := mkManager {
  _cwd : string;
  _current_turn : option WriteTurn;
  _write_hooks : list Hook;
  _post_commit_hooks : list Hook;
  (** whether an event bus was given *)
  _event_bus : bool
}.

Definition set_current_turn (m : Manager) (t : option WriteTurn) : Manager :=
  mkManager (_cwd m) t (_write_hooks m) (_post_commit_hooks m)
    (_event_bus m).

(** [self._current_turn.changes.append(c)] *)
Definition record_change (m : Manager) (t : WriteTurn) (c : FileChange)
  : Manager :=
  set_current_turn m
    (Some (mkWriteTurn (turn_id t) (cwd t) (changes t ++ [c])
             (hook_results t))).

(** [resolve_path] *)
Definition resolve_path (m : Manager) (p : string) : string :=
  if PyPath.isabs p then p
  else PyPath.normpath (PyPath.join (_cwd m) p).

(** [begin_turn] *)
Definition begin_turn (m : Manager) (id : string) : Manager * outcome :=
  match _current_turn m with
  | Some t =>
      (m, Raised (RuntimeError
                    ("Turn " +:+ turn_id t +:+ " is still active")))
  | None => (set_current_turn m (Some (mkWriteTurn id (_cwd m) [] ∅)),
             Returned)
  end.

(** [_is_protected_path] *)
Definition _is_protected_path (relative_path : string) : bool :=
  let norm_path := PyPath.normpath relative_path in
  if mem norm_path PROTECTED_FILES then true
  else
    existsb
      (fun part =>
         if negb (PyStr.truthy part) || String.eqb part "." then false
         else mem part PROTECTED_PATHS)
      (PyPath.split_sep norm_path).

(** [metadata or default] *)
Definition metadata_or (md : option Parser.dict) (default : Parser.dict)
  : Parser.dict :=
  match md with
  | Some (x :: r) => x :: r
  | _ => default
  end.

(** [write_file] *)
Definition write_file (m : Manager) (p content : string)
    (md : option Parser.dict) : Manager * outcome :=
  match _current_turn m with
  | None => (m, Raised (RuntimeError "No active turn"))
  | Some t =>
      if _is_protected_path p then
        (m, Raised (RuntimeError
                      ("Cannot write to protected file/path: " +:+ p)))
      else
        let abs_path := resolve_path m p in
        (record_change m t
           (mkFileChange abs_path WRITE (Some content) (metadata_or md [])),
         Returned)
  end.

(** [delete_file] *)
Definition delete_file (m : Manager) (fs : FS) (p : string)
    (md : option Parser.dict) : Manager * outcome :=
  match _current_turn m with
  | None => (m, Raised (RuntimeError "No active turn"))
  | Some t =>
      if _is_protected_path p then
        (m, Raised (RuntimeError
                      ("Cannot delete protected file/path: " +:+ p)))
      else
        let abs_path := resolve_path m p in
        if negb (fs_exists fs abs_path) then
          (m, Raised (FileNotFoundError ("File not found: " +:+ abs_path)))
        else
          (record_change m t
             (mkFileChange abs_path DELETE None (metadata_or md [])),
           Returned)
  end.

(** [rename_file] *)
Definition rename_file (m : Manager) (fs : FS)
    (source_path destination_path : string) (md : option Parser.dict)
  : Manager * outcome :=
  match _current_turn m with
  | None => (m, Raised (RuntimeError "No active turn"))
  | Some t =>
      if _is_protected_path source_path then
        (m, Raised (RuntimeError
                      ("Cannot rename protected source file/path: "
                       +:+ source_path)))
      else if _is_protected_path destination_path then
        (m, Raised (RuntimeError
                      ("Cannot rename to protected destination file/path: "
                       +:+ destination_path)))
      else
        let abs_source_path := resolve_path m source_path in
        let abs_destination_path := resolve_path m destination_path in
        if negb (fs_exists fs abs_source_path) then
          (m, Raised (FileNotFoundError
                        ("Source file not found: " +:+ abs_source_path)))
        else if fs_exists fs abs_destination_path then
          (m, Raised (FileExistsError
                        ("Destination file already exists: "
                         +:+ abs_destination_path)))
        else
          (record_change m t
             (mkFileChange abs_source_path RENAME
                (Some abs_destination_path)
                (metadata_or md
                   [("destination", abs_destination_path)])),
           Returned)
  end.

(** [add_dependency] *)
Definition add_dependency (m : Manager) (dep : string)
    (md : option Parser.dict) : Manager * outcome :=
  match _current_turn m with
  | None => (m, Raised (RuntimeError "No active turn"))
  | Some t =>
      (record_change m t
         (mkFileChange "" ADD_DEPENDENCY (Some dep)
            (metadata_or md [("dependency_name", dep)])),
       Returned)
  end.

(** [add_write_hook] *)
Definition add_write_hook (m : Manager) (n : string)
    (f : FS -> WriteTurn -> T + string)
    (cb : option (HookContext -> option string)) : Manager :=
  mkManager (_cwd m) (_current_turn m)
    (_write_hooks m ++ [mkHook n f cb true]) (_post_commit_hooks m)
    (_event_bus m).

(** [add_post_commit_hook] *)
Definition add_post_commit_hook (m : Manager) (n : string)
    (f : FS -> WriteTurn -> T + string)
    (cb : option (HookContext -> option string)) (b : bool) : Manager :=
  mkManager (_cwd m) (_current_turn m) (_write_hooks m)
    (_post_commit_hooks m ++ [mkHook n f cb b]) (_event_bus m).

(** [discard_turn] *)
Definition discard_turn (m : Manager) : Manager := set_current_turn m None.

(** [get_pending_changes] *)
Definition get_pending_changes (m : Manager) : list FileChange :=
  match _current_turn m with
  | None => []
  | Some t => changes t
  end.

(** ** [commit_turn] *)

Inductive Phase := PreCommit | PostBlocking | PostConcurrent.

(** What [commit_turn] does, in the order it does it. *)
Inductive Action :=
| HookRun (ph : Phase) (h : string) (seen : FS) (given : WriteTurn)
| CallbackRun (ph : Phase) (ctx : HookContext)
| ChangeApplied (c : FileChange)
| ChangeSkipped (c : FileChange)
| ChangeFailed (c : FileChange) (e : Exn)
| Published (et : EventBus.EventType) (c : FileChange).

(** [if hook.callback: await hook.callback(ctx)] *)
Definition call_callback (ph : Phase) (h : Hook) (ctx : HookContext)
  : list Action * option string :=
  match callback h with
  | None => ([], None)
  | Some cb => ([CallbackRun ph ctx], cb ctx)
  end.

(** The [except Exception as e] branch of the sequential hook loops:
    an exception of the callback is not caught there. *)
Definition hook_failed (ph : Phase) (h : Hook) (tr : list Action)
    (t : WriteTurn) (e : string) : list Action * WriteTurn * option Exn :=
  let ctx := mkHookContext (name h) FAILED None (Some e) in
  let t1 := set_hook_result t (name h) FAILED None (Some e) in
  let '(tr', r) := call_callback ph h ctx in
  (tr ++ tr', t1, option_map OtherError r).

(** The [try] statement around one hook of the sequential loops. *)
Definition run_hook (ph : Phase) (h : Hook) (fs : FS) (t : WriteTurn)
  : list Action * WriteTurn * option Exn :=
  match func h fs t with
  | inl res =>
      let ctx := mkHookContext (name h) SUCCESS (Some res) None in
      let t1 := set_hook_result t (name h) SUCCESS (Some res) None in
      let '(tr, r) := call_callback ph h ctx in
      match r with
      | None => (HookRun ph (name h) fs t :: tr, t1, None)
      | Some e => hook_failed ph h (HookRun ph (name h) fs t :: tr) t1 e
      end
  | inr e => hook_failed ph h [HookRun ph (name h) fs t] t e
  end.

(** A sequential hook loop, over the hooks [select] keeps; an
    exception leaves the loop. *)
Fixpoint run_hooks (ph : Phase) (select : Hook -> bool) (hooks : list Hook)
    (fs : FS) (t : WriteTurn) : list Action * WriteTurn * option Exn :=
  match hooks with
  | [] => ([], t, None)
  | h :: r =>
      if select h then
        let '(tr, t1, e) := run_hook ph h fs t in
        match e with
        | Some x => (tr, t1, Some x)
        | None =>
            let '(tr', t2, e') := run_hooks ph select r fs t1 in
            (tr ++ tr', t2, e')
        end
      else run_hooks ph select r fs t
  end.

(** The inner [run_hook] coroutine of the non-blocking hooks, on its
    copy of the turn; nothing it raises gets out. *)
Definition run_concurrent_hook (h : Hook) (fs : FS) (turn_copy : WriteTurn)
  : list Action :=
  let start := HookRun PostConcurrent (name h) fs turn_copy in
  match func h fs turn_copy with
  | inl res =>
      let ctx := mkHookContext (name h) SUCCESS (Some res) None in
      let '(tr, r) := call_callback PostConcurrent h ctx in
      match r with
      | None => start :: tr
      | Some e =>
          let ctx' := mkHookContext (name h) FAILED None (Some e) in
          start :: tr ++ fst (call_callback PostConcurrent h ctx')
      end
  | inr e =>
      let ctx := mkHookContext (name h) FAILED None (Some e) in
      start :: fst (call_callback PostConcurrent h ctx)
  end.

(** [asyncio.gather] over the non-blocking hooks, taken one after the
    other in list order. *)
Definition run_concurrent_hooks (hooks : list Hook) (fs : FS)
    (t : WriteTurn) : list Action :=
  concat (map (fun h => run_concurrent_hook h fs t) hooks).

(** [if self._event_bus: self._event_bus.publish(...)] *)
Definition publish_if (m : Manager) (et : EventBus.EventType)
    (c : FileChange) : list Action :=
  if _event_bus m then [Published et c] else [].

(** [_ensure_parent_dirs] *)
Definition _ensure_parent_dirs (fs : FS) (p : string) : FS * option Exn :=
  fs_mkdir_parents fs p.

(** [_write_and_flush_file] *)
Definition _write_and_flush_file (fs : FS) (p text : string)
  : FS * option Exn :=
  let '(fs1, e) := _ensure_parent_dirs fs p in
  match e with
  | Some x => (fs1, Some x)
  | None => fs_write fs1 p text
  end.

(** One iteration of [for change in self._current_turn.changes]. *)
Definition apply_change (m : Manager) (fs : FS) (c : FileChange)
  : list Action * FS * option Exn :=
  match change_type c with
  | WRITE =>
      match content c with
      | Some text =>
          let '(fs1, e) := _write_and_flush_file fs (path c) text in
          match e with
          | Some x => ([ChangeFailed c x], fs1, Some x)
          | None =>
              (ChangeApplied c :: publish_if m EventBus.FILE_WRITTEN c,
               fs1, None)
          end
      | None => ([ChangeSkipped c], fs, None)
      end
  | DELETE =>
      if fs_exists fs (path c) then
        let '(fs1, e) := fs_remove fs (path c) in
        match e with
        | Some x => ([ChangeFailed c x], fs1, Some x)
        | None =>
            (ChangeApplied c :: publish_if m EventBus.FILE_DELETED c,
             fs1, None)
        end
      else ([ChangeSkipped c], fs, None)
  | RENAME =>
      if PyStr.truthy_opt (content c) then
        let destination_path := default "" (content c) in
        if fs_exists fs (path c) then
          let '(fs1, e) := _ensure_parent_dirs fs destination_path in
          match e with
          | Some x => ([ChangeFailed c x], fs1, Some x)
          | None =>
              let '(fs2, e') := fs_move fs1 (path c) destination_path in
              match e' with
              | Some x => ([ChangeFailed c x], fs2, Some x)
              | None =>
                  (ChangeApplied c
                     :: publish_if m EventBus.FILE_RENAMED c,
                   fs2, None)
              end
          end
        else ([ChangeSkipped c], fs, None)
      else
        let x := ValueError "Destination path is required for rename" in
        ([ChangeFailed c x], fs, Some x)
  | ADD_DEPENDENCY =>
      (ChangeApplied c :: publish_if m EventBus.DEPENDENCY_ADDED c,
       fs, None)
  end.

(** The whole [for change in ...] loop; an exception leaves it. *)
Fixpoint apply_changes (m : Manager) (fs : FS) (cs : list FileChange)
  : list Action * FS * option Exn :=
  match cs with
  | [] => ([], fs, None)
  | c :: r =>
      let '(tr, fs1, e) := apply_change m fs c in
      match e with
      | Some x => (tr, fs1, Some x)
      | None =>
          let '(tr', fs2, e') := apply_changes m fs1 r in
          (tr ++ tr', fs2, e')
      end
  end.

Record CommitResult := mkCommitResult {
  trace : list Action;
  fs_after : FS;
  manager_after : Manager;
  raised : option Exn
}.

(** The body of the [try] statement of [commit_turn]. *)
Definition commit_body (m : Manager) (fs : FS) (t : WriteTurn)
  : list Action * FS * option Exn :=
  let '(tr1, t1, e1) := run_hooks PreCommit (fun _ => true)
                          (_write_hooks m) fs t in
  match e1 with
  | Some x => (tr1, fs, Some x)
  | None =>
      let has_changes := negb (Nat.eqb (length (changes t1)) 0) in
      let '(tr2, fs2, e2) :=
        if has_changes then apply_changes m fs (changes t1)
        else ([], fs, None) in
      match e2 with
      | Some x => (tr1 ++ tr2, fs2, Some x)
      | None =>
          if has_changes then
            let '(tr3, t3, e3) :=
              run_hooks PostBlocking blocking (_post_commit_hooks m)
                fs2 t1 in
            match e3 with
            | Some x => (tr1 ++ tr2 ++ tr3, fs2, Some x)
            | None =>
                let non_blocking_hooks :=
                  filter (fun h => negb (blocking h))
                    (_post_commit_hooks m) in
                (tr1 ++ tr2 ++ tr3
                   ++ run_concurrent_hooks non_blocking_hooks fs2 t3,
                 fs2, None)
            end
          else (tr1 ++ tr2, fs2, None)
      end
  end.

(** [commit_turn]; the [finally] clause clears the turn whatever
    happened. *)
Definition commit_turn (m : Manager) (fs : FS) : CommitResult :=
  match _current_turn m with
  | None => mkCommitResult [] fs m None
  | Some t =>
      let '(tr, fs1, e) := commit_body m fs t in
      mkCommitResult tr fs1 (set_current_turn m None) e
  end.

(** ** Reading a trace *)

Definition is_post (ph : Phase) : bool :=
  match ph with PreCommit => false | _ => true end.

(** The pre-commit hooks run, in order. *)
Fixpoint pre_hooks_run (tr : list Action) : list string :=
  match tr with
  | [] => []
  | HookRun PreCommit h _ _ :: r => h :: pre_hooks_run r
  | _ :: r => pre_hooks_run r
  end.

(** The post-commit hooks run, in order. *)
Fixpoint post_hooks_run (tr : list Action) : list string :=
  match tr with
  | [] => []
  | HookRun ph h _ _ :: r =>
      if is_post ph then h :: post_hooks_run r else post_hooks_run r
  | _ :: r => post_hooks_run r
  end.

(** The changes the loop went through without an exception, in order:
    carried out, or logged and passed over. *)
Fixpoint changes_done (tr : list Action) : list FileChange :=
  match tr with
  | [] => []
  | ChangeApplied c :: r => c :: changes_done r
  | ChangeSkipped c :: r => c :: changes_done r
  | _ :: r => changes_done r
  end.

(** The file systems the post-commit hooks were run on. *)
Fixpoint post_hooks_saw (tr : list Action) : list FS :=
  match tr with
  | [] => []
  | HookRun ph _ seen _ :: r =>
      if is_post ph then seen :: post_hooks_saw r else post_hooks_saw r
  | _ :: r => post_hooks_saw r
  end.

(** No action of the trace touches a change. *)
Definition no_change_action (a : Action) : bool :=
  match a with
  | ChangeApplied _ | ChangeSkipped _ | ChangeFailed _ _ | Published _ _ =>
      false
  | _ => true
  end.

(** No action of the trace is a post-commit hook or its callback. *)
Definition no_post_action (a : Action) : bool :=
  match a with
  | HookRun ph _ _ _ | CallbackRun ph _ => negb (is_post ph)
  | _ => true
  end.




(** ** What applying the log means *)

(** The change [c] is carried out on [fs] and leaves [fs']: the file
    is written, with the directories above it, or removed, or moved,
    and none of these calls raises; a dependency leaves the file
    system as it is. *)
Inductive carried_out (fs : FS) (c : FileChange) (fs' : FS) : Prop :=
| file_written (text : string) :
    change_type c = WRITE ->
    content c = Some text ->
    _write_and_flush_file fs (path c) text = (fs', None) ->
    carried_out fs c fs'
| file_removed :
    change_type c = DELETE ->
    fs_exists fs (path c) = true ->
    fs_remove fs (path c) = (fs', None) ->
    carried_out fs c fs'
| file_moved (destination_path : string) (fs1 : FS) :
    change_type c = RENAME ->
    content c = Some destination_path ->
    fs_exists fs (path c) = true ->
    _ensure_parent_dirs fs destination_path = (fs1, None) ->
    fs_move fs1 (path c) destination_path = (fs', None) ->
    carried_out fs c fs'
| dependency_noted :
    change_type c = ADD_DEPENDENCY ->
    fs' = fs ->
    carried_out fs c fs'.

(** The change [c] is logged and passed over on [fs]: a delete or a
    rename whose target is not there, or a write that has no
    content. *)
Inductive passed_over (fs : FS) (c : FileChange) : Prop :=
| write_without_content :
    change_type c = WRITE -> content c = None -> passed_over fs c
| delete_target_gone :
    change_type c = DELETE ->
    fs_exists fs (path c) = false ->
    passed_over fs c
| rename_source_gone :
    change_type c = RENAME ->
    PyStr.truthy_opt (content c) = true ->
    fs_exists fs (path c) = false ->
    passed_over fs c.

(** [log_applied fs cs tr fs']: going through the changes [cs] in
    order from the file system [fs] leaves [fs'], and [tr] says of each
    change, in order, whether it was carried out or passed over. *)
Inductive log_applied : FS -> list FileChange -> list Action -> FS -> Prop :=
| log_done (fs : FS) : log_applied fs [] [] fs
| log_carried_out (fs fs1 fs2 : FS) (c : FileChange) (cs : list FileChange)
    (tr : list Action) :
    carried_out fs c fs1 ->
    log_applied fs1 cs tr fs2 ->
    log_applied fs (c :: cs) (ChangeApplied c :: tr) fs2
| log_passed_over (fs fs2 : FS) (c : FileChange) (cs : list FileChange)
    (tr : list Action) :
    passed_over fs c ->
    log_applied fs cs tr fs2 ->
    log_applied fs (c :: cs) (ChangeSkipped c :: tr) fs2.


End Manager.

(** A path is protected when its normal form is a protected file or has
    a protected directory name among its components. *)
Definition protected (p : string) : Prop :=
  In (PyPath.normpath p) PROTECTED_FILES
  \/ exists part, In part (PyPath.split_sep (PyPath.normpath p))
                  /\ In part PROTECTED_PATHS.

End FileOps.

(** * A directory tree, for the examples

    A file system as a finite map from absolute, normalised paths to what
    is there.  The root directory is always present and is not stored. *)
Module TreeFS.
Import FileOps.

Inductive Node := File (text : string) | Dir.

(** [Path(p).parent], as a string *)
Definition parent (p : string) : string :=
  match PyPath.join_sep (removelast (PyPath.split_sep p)) with
  | "" => if PyPath.isabs p then "/" else "."
  | d => d
  end.

(** The directories above [p], outermost first, the root left out. *)
Fixpoint ancestors (fuel : nat) (p : string) : list string :=
  match fuel with
  | 0 => []
  | S n =>
      let d := parent p in
      if String.eqb d "/" || String.eqb d "." then []
      else ancestors n d ++ [d]
  end.

Definition is_dir (fs : gmap string Node) (p : string) : bool :=
  String.eqb p "/" || match fs !! p with Some Dir => true | _ => false end.

(** [os.path.exists] *)
Definition exists_ (fs : gmap string Node) (p : string) : bool :=
  String.eqb p "/" || match fs !! p with Some _ => true | None => false end.

(** [mkdir] of each missing directory in turn; a regular file in the
    way is an error. *)
Fixpoint mkdirs (fs : gmap string Node) (dirs : list string)
  : gmap string Node * option Exn :=
  match dirs with
  | [] => (fs, None)
  | d :: r =>
      match fs !! d with
      | Some Dir => mkdirs fs r
      | Some (File _) => (fs, Some (FileExistsError d))
      | None => mkdirs (<[d := Dir]> fs) r
      end
  end.

Definition mkdir_parents (fs : gmap string Node) (p : string)
  : gmap string Node * option Exn :=
  mkdirs fs (ancestors (String.length p) p).

(** [open(p, "w")] and the writes: the directory of [p] must be there
    and [p] must not be a directory. *)
Definition write (fs : gmap string Node) (p text : string)
  : gmap string Node * option Exn :=
  if negb (is_dir fs (parent p)) then (fs, Some (FileNotFoundError p))
  else match fs !! p with
       | Some Dir => (fs, Some (OtherError ("Is a directory: " +:+ p)))
       | _ => (<[p := File text]> fs, None)
       end.

(** [os.remove]: unlinks a file, refuses a directory. *)
Definition remove (fs : gmap string Node) (p : string)
  : gmap string Node * option Exn :=
  match fs !! p with
  | Some (File _) => (delete p fs, None)
  | Some Dir => (fs, Some (OtherError ("Is a directory: " +:+ p)))
  | None => (fs, Some (FileNotFoundError p))
  end.

(** The path [q] after [src] was renamed to [dst]. *)
Definition rebase (src dst q : string) : string :=
  if String.eqb q src then dst
  else if PyStr.startswith q (src +:+ "/") then
    dst +:+ String.substring (String.length src)
              (String.length q - String.length src) q
  else q.

(** [shutil.move]: into [dst] when it is a directory, onto it
    otherwise; a directory moves with all it holds. *)
Definition move (fs : gmap string Node) (src dst : string)
  : gmap string Node * option Exn :=
  match fs !! src with
  | None => (fs, Some (FileNotFoundError src))
  | Some node =>
      let real_dst :=
        if is_dir fs dst then
          PyPath.join dst (List.last (PyPath.split_sep src) "")
        else dst in
      if is_dir fs dst && exists_ fs real_dst then
        (fs, Some (OtherError ("Destination path already exists: "
                               +:+ real_dst)))
      else
        match node, fs !! real_dst with
        | Dir, Some _ => (fs, Some (OtherError ("Not a directory: " +:+ real_dst)))
        | _, _ =>
            (list_to_map
               (map (fun kv => (rebase src real_dst (fst kv), snd kv))
                  (map_to_list (delete real_dst fs))),
             None)
        end
  end.

#[global] Instance tree_fs : FileSystem (gmap string Node) := {|
  fs_exists := exists_;
  fs_mkdir_parents := mkdir_parents;
  fs_write := write;
  fs_remove := remove;
  fs_move := move
|}.

(** A project directory with one source file and a build directory. *)
Definition project : gmap string Node :=
  <["/w" := Dir]> (<["/w/build" := Dir]> (<["/w/main.ts" := File "x"]> ∅)).

(** A hook that looks at nothing and returns [r]. *)
Definition const_hook (n : string) (b : bool)
  : Hook (T := string) (FS := gmap string Node) :=
  mkHook n (fun _ _ => inl n) None b.

(** A manager for [/w] with one pre-commit hook and the post-commit
    hooks the agent registers, and a turn begun. *)
Definition manager : Manager (T := string) (FS := gmap string Node) :=
  mkManager "/w" (Some (mkWriteTurn "t1" "/w" [] ∅))
    [const_hook "audit" true]
    [const_hook "code_check" true; const_hook "git_snapshot" false;
     const_hook "project_backup" false]
    true.


(** A pre-commit hook whose callback raises on every context. *)
Definition raising_hook (n : string)
  : Hook (T := string) (FS := gmap string Node) :=
  mkHook n (fun _ _ => inl n) (Some (fun _ => Some "callback failed")) true.

End TreeFS.

(** * Memory compactor
    [app/agentic/storage/list_store.py] *)
Module Compactor.

(** [sub in s] *)
Fixpoint contains (s sub : string) : bool :=
  PyStr.startswith s sub
  || match s with
     | "" => false
     | String _ r => contains r sub
     end.

(** [" ".join(l)] *)
Definition join_space (l : list string) : string :=
  match l with
  | [] => ""
  | h :: t => fold_left (fun acc x => acc +:+ " " +:+ x) t h
  end.

(** An item of a multi-part content: a string, a dict with a [text]
    entry, or anything else. *)
Inductive Part :=
| PartStr (s : string)
| PartText (text : string)
| PartOther.

(** The [content] of a message: a string, a list of parts, or any other
    value, given by its [str()]. *)
Inductive Content :=
| CStr (s : string)
| CList (parts : list Part)
| COther (repr : string).

(** A stored value: a dict with optional [role] and [content] entries,
    or any other value, given by its [str()]. *)
Inductive Message :=
| Dict (role : option string) (content : option Content)
| Raw (repr : string).

Definition primable_tags : list string :=
  [ "<project-info>"; "<supabase-report>";
    "<supabase-general-instructions>";
    "<supabase-integration-instructions>"; "<environment-details>" ].

(** [_extract_message_text] *)
Definition _extract_message_text (message : Message) : string :=
  match message with
  | Raw repr => repr
  | Dict _ None => ""
  | Dict _ (Some (CStr s)) => s
  | Dict _ (Some (CList parts)) =>
      join_space
        (flat_map
           (fun item =>
              match item with
              | PartStr s => [s]
              | PartText text => [text]
              | PartOther => []
              end)
           parts)
  | Dict _ (Some (COther repr)) => repr
  end.

(** [_message_contains_tag] *)
Definition _message_contains_tag (message : Message) (tag : string) : bool :=
  contains (_extract_message_text message) tag.

(** The filter condition of [_remove_primable_messages], negated. *)
Definition is_primable (msg : Message) : bool :=
  existsb (_message_contains_tag msg) primable_tags.

(** [_remove_primable_messages] *)
Definition _remove_primable_messages (messages : list Message)
  : list Message :=
  List.filter (fun msg => negb (is_primable msg)) messages.

(** ** Python floats

    A [float] is a binary64 number; its operations round to the nearest
    float, ties to even. *)
Definition float : Type := SpecFloat.spec_float.
Definition prec : Z := 53.
Definition emax : Z := 1024.

(** [float(n)] for an int [n], as [n * x] takes it when [x] is a
    float; [None] for the [OverflowError] of an int too large for a
    float. *)
Definition float_of_int (n : Z) : option float :=
  match SpecFloat.binary_normalize prec emax n 0 false with
  | SpecFloat.S754_infinity _ => None
  | x => Some x
  end.

(** [x * y] *)
Definition float_mul (x y : float) : float := SpecFloat.SFmul prec emax x y.

(** [int(x)]: the integer part of [x]; [None] for the [OverflowError]
    of an infinity and the [ValueError] of a NaN. *)
Definition int_of_float (x : float) : option Z :=
  match x with
  | SpecFloat.S754_zero _ => Some 0%Z
  | SpecFloat.S754_finite s m e =>
      let v := Z.shiftl (Zpos m) e in
      Some (if s then (- v)%Z else v)
  | _ => None
  end.

(** [int(n * ratio)] for an int [n] and a float [ratio]; [None] when
    it raises. *)
Definition int_mul (n : Z) (ratio : float) : option Z :=
  match float_of_int n with
  | Some x => int_of_float (float_mul x ratio)
  | None => None
  end.

(** The float nearest to the fraction [p / q]: what the decimal
    literal of the fraction reads as. *)
Definition float_of_fraction (p q : Z) : float :=
  SpecFloat.SFdiv prec emax
    (SpecFloat.binary_normalize prec emax p 0 false)
    (SpecFloat.binary_normalize prec emax q 0 false).

Section Store.
Local Open Scope Z_scope.

(** [litellm.token_counter(model="gpt-4o", messages=...)] *)
Variable token_counter : list Message -> Z.

Variable compact_threshold_tokens : Z.
Variable compact_target_ratio : float.

(** The backend's [data] and the two bookkeeping dicts of the
    compacting store; times are in seconds. *)
Record Store := mkStore {
  data : gmap string (list Message);
  last_compaction_check : gmap string Q;
  token_counts : gmap string Z
}.

(** [backend.lrange(key)] with the default bounds *)
Definition lrange (st : Store) (key : string) : list Message :=
  default [] (data st !! key).

(** [backend.rpush(key, *values)] *)
Definition backend_rpush (st : Store) (key : string)
    (values : list Message) : Store * nat :=
  let l := default [] (data st !! key) ++ values in
  (mkStore (<[key := l]> (data st)) (last_compaction_check st)
     (token_counts st),
   length l).

(** [backend.delete(key)] *)
Definition backend_delete (st : Store) (key : string) : Store :=
  mkStore (delete key (data st)) (last_compaction_check st)
    (token_counts st).

Definition set_token_count (st : Store) (key : string) (n : Z) : Store :=
  mkStore (data st) (last_compaction_check st)
    (<[key := n]> (token_counts st)).

(** [_get_token_count] *)
Definition _get_token_count (messages : list Message) : Z :=
  token_counter messages.

(** [_count_message_tokens] *)
Definition _count_message_tokens (message : Message) : Z :=
  match message with
  | Dict _ _ => _get_token_count [message]
  | Raw repr => _get_token_count [Dict (Some "user") (Some (CStr repr))]
  end.

(** [_should_compact], at time [now] *)
Definition _should_compact (st : Store) (key : string) (now : Q)
  : Store * bool :=
  let throttled :=
    match last_compaction_check st !! key with
    | Some last =>
        if Qlt_le_dec (now - last)%Q 1%Q then true else false
    | None => false
    end in
  if throttled then (st, false)
  else
    let st1 := mkStore (data st) (<[key := now]> (last_compaction_check st))
                 (token_counts st) in
    match lrange st1 key with
    | [] => (st1, false)
    | messages =>
        let token_count := _get_token_count messages in
        (set_token_count st1 key token_count,
         Z.leb compact_threshold_tokens token_count)
    end.

(** The [while] loop of [_perform_standard_compaction] on the
    messages from index [i] on: the first of them is popped as long
    as the running count is above the target. *)
Fixpoint evict (rest : list Message) (token_count target : Z)
    (removed_count : nat) : list Message * Z * nat :=
  match rest with
  | [] => ([], token_count, removed_count)
  | msg :: r =>
      if Z.ltb target token_count then
        evict r (token_count - _count_message_tokens msg) target
          (S removed_count)
      else (rest, token_count, removed_count)
  end.

(** The index from which messages may be evicted: 1 when the first
    message is a dict whose role is [system]. *)
Definition start_index (messages : list Message) : nat :=
  match messages with
  | Dict (Some role) _ :: _ =>
      if String.eqb role "system" then 1%nat else 0%nat
  | _ => 0%nat
  end.

(** Replace the stored list: [backend.delete] then [backend.rpush]
    unless the list is empty. *)
Definition replace_messages (st : Store) (key : string)
    (messages : list Message) : Store :=
  let st1 := backend_delete st key in
  match messages with
  | [] => st1
  | _ => fst (backend_rpush st1 key messages)
  end.

(** [_perform_standard_compaction]:
    the store afterwards and
    [(original_token_count, new_token_count, removed_messages)], or
    [None] when computing the target raises. *)
Definition _perform_standard_compaction (st : Store) (key : string)
  : Store * option (Z * Z * nat) :=
  match lrange st key with
  | [] => (st, Some (0, 0, 0%nat))
  | messages =>
      let original_token_count := _get_token_count messages in
      if Z.ltb original_token_count compact_threshold_tokens then
        (st, Some (original_token_count, original_token_count, 0%nat))
      else
        let original_message_count := length messages in
        let messages := _remove_primable_messages messages in
        let primable_removed :=
          (original_message_count - length messages)%nat in
        let token_count := _get_token_count messages in
        match int_mul original_token_count compact_target_ratio with
        | None => (st, None)
        | Some target_token_count =>
            if Z.leb token_count target_token_count then
              (set_token_count (replace_messages st key messages) key
                 token_count,
               Some (original_token_count, token_count, primable_removed))
            else
              let i := start_index messages in
              let '(rest, token_count, removed_count) :=
                evict (skipn i messages) token_count target_token_count
                  primable_removed in
              let messages := firstn i messages ++ rest in
              (set_token_count (replace_messages st key messages) key
                 token_count,
               Some (original_token_count, token_count, removed_count))
        end
  end.

(** [perform_compaction]; with one caller at a time the compaction
    lock is always free. *)
Definition perform_compaction (st : Store) (key : string)
  : Store * option (Z * Z * nat) :=
  _perform_standard_compaction st key.

(** [rpush], at time [now]: the store afterwards and the length
    returned, or [None] when the compaction raises. *)
Definition rpush (st : Store) (key : string) (values : list Message)
    (now : Q) : Store * option nat :=
  let '(st1, result) := backend_rpush st key values in
  let '(st2, compact) := _should_compact st1 key now in
  if compact then
    let '(st3, r) := perform_compaction st2 key in
    (st3, option_map (fun _ => result) r)
  else (st2, Some result).

(** The counter is a sum of per-message costs. *)
Definition additive : Prop :=
  forall m l,
    token_counter (m :: l) = _count_message_tokens m + token_counter l.

End Store.

(** A synthetic token counter: every message costs ten tokens. *)
Definition ten_each (messages : list Message) : Z :=
  (10 * Z.of_nat (length messages))%Z.

(** A synthetic token counter that is not a sum of per-message costs:
    ten tokens for every message and three more for the list, as a
    counter that primes the reply does. *)
Definition ten_each_and_three (messages : list Message) : Z :=
  (3 + 10 * Z.of_nat (length messages))%Z.

Definition empty_store : Store := mkStore ∅ ∅ ∅.

Definition user_message (text : string) : Message :=
  Dict (Some "user") (Some (CStr text)).

Definition system_message (text : string) : Message :=
  Dict (Some "system") (Some (CStr text)).

(** The ratio [0.5]. *)
Definition half : float := float_of_fraction 1 2.

(** One hundred short messages pushed at once onto an empty list, with
    a threshold of 100 tokens and a target ratio of one half. *)
Definition hundred : list Message := repeat (user_message "hi") 100.

(** A conversation of one hundred messages: the system prompt, the
    messages of the user, and two messages that can be primed again,
    one of them among the latest. *)
Definition conversation : list Message :=
  system_message "You are a coding agent."
  :: user_message "<project-info>a web shop</project-info>"
  :: user_message "hello"
  :: repeat (user_message "hi") 95
  ++ [ Dict (Some "user")
         (Some (CList [PartText "<environment-details>"; PartStr "12:00"]));
       user_message "thanks" ].

End Compactor.

(** * Orchestrator
    [app/agentic/agents/coder/state_manager.py] and the processing loop
    of [app/agentic/agents/coder/agent.py] *)
Module Orchestrator.
Import Parser.

(** The line feed character, as a string. *)
Definition nl : string := String (ascii_of_nat 10) "".

(** [sep.join(l)] *)
Definition join_with (sep : string) (l : list string) : string :=
  match l with
  | [] => ""
  | h :: t => fold_left (fun acc x => acc +:+ sep +:+ x) t h
  end.

(** [TaskState.status] *)
Inductive TaskStatus :=
| st_idle | st_running | st_completed | st_failed | st_aborted | st_timeout.

(** The [status] entry of a tool result. *)
Inductive ResultStatus := success | failure.

(** An entry of [ToolState.tool_results]. *)
Record ToolResult := mkToolResult {
  tool : string;
  tool_id : string;
  rstatus : ResultStatus;
  result : option string;
  error : option string;
  params : dict;
  extra : list (string * option string)
}.

(** The calls made to the message manager. *)
Inductive MemoryCall :=
| add_assistant_message (content : string)
| add_memory_item (content : string).

(** The calls made to the file operation manager. *)
Inductive TurnCall := discard_turn | begin_turn | commit_turn.

(** [StateManager]: the task, the streaming state and the tool state,
    with the calls made so far to the message manager and to the file
    operation manager, and the number of UUIDs drawn by the parser. *)
Record State := mkState {
  status : TaskStatus;
  current_message : string;
  completed_tools : gset string;
  failed_tools : gset string;
  tool_results : list ToolResult;
  consecutive_tool_failures : nat;
  consecutive_code_failures : nat;
  memory : list MemoryCall;
  turn_calls : list TurnCall;
  uuid_calls : nat
}.

Definition set_status (v : TaskStatus) (s : State) : State :=
  mkState v (current_message s) (completed_tools s) (failed_tools s)
    (tool_results s) (consecutive_tool_failures s)
    (consecutive_code_failures s) (memory s) (turn_calls s) (uuid_calls s).

Definition set_current_message (v : string) (s : State) : State :=
  mkState (status s) v (completed_tools s) (failed_tools s)
    (tool_results s) (consecutive_tool_failures s)
    (consecutive_code_failures s) (memory s) (turn_calls s) (uuid_calls s).

Definition set_counters (tf cf : nat) (s : State) : State :=
  mkState (status s) (current_message s) (completed_tools s)
    (failed_tools s) (tool_results s) tf cf (memory s) (turn_calls s)
    (uuid_calls s).

Definition set_uuid_calls (n : nat) (s : State) : State :=
  mkState (status s) (current_message s) (completed_tools s)
    (failed_tools s) (tool_results s) (consecutive_tool_failures s)
    (consecutive_code_failures s) (memory s) (turn_calls s) n.

Definition remember (c : MemoryCall) (s : State) : State :=
  mkState (status s) (current_message s) (completed_tools s)
    (failed_tools s) (tool_results s) (consecutive_tool_failures s)
    (consecutive_code_failures s) (memory s ++ [c]) (turn_calls s)
    (uuid_calls s).

Definition turn_call (c : TurnCall) (s : State) : State :=
  mkState (status s) (current_message s) (completed_tools s)
    (failed_tools s) (tool_results s) (consecutive_tool_failures s)
    (consecutive_code_failures s) (memory s) (turn_calls s ++ [c])
    (uuid_calls s).

(** [StateManager()] *)
Definition new_state : State :=
  mkState st_idle "" ∅ ∅ [] 0 0 [] [] 0.

(** [reset_for_new_task] *)
Definition reset_for_new_task (s : State) : State :=
  mkState st_running "" ∅ ∅ [] 0 0 (memory s) (turn_calls s) (uuid_calls s).

(** [ToolState.add_success] *)
Definition add_success (n id : string) (p : dict) (res : string)
    (x : list (string * option string)) (s : State) : State :=
  mkState (status s) (current_message s) ({[n]} ∪ completed_tools s)
    (failed_tools s)
    (tool_results s ++ [mkToolResult n id success (Some res) None p x])
    0 (consecutive_code_failures s) (memory s) (turn_calls s)
    (uuid_calls s).

(** [ToolState.add_failure] *)
Definition add_failure (n id : string) (p : dict) (err : string)
    (x : list (string * option string)) (s : State) : State :=
  mkState (status s) (current_message s) (completed_tools s)
    ({[n]} ∪ failed_tools s)
    (tool_results s ++ [mkToolResult n id failure None (Some err) p x])
    (S (consecutive_tool_failures s)) (consecutive_code_failures s)
    (memory s) (turn_calls s) (uuid_calls s).

(** [ToolState.clear_results] *)
Definition clear_results (s : State) : State :=
  mkState (status s) (current_message s) (completed_tools s)
    (failed_tools s) [] (consecutive_tool_failures s)
    (consecutive_code_failures s) (memory s) (turn_calls s) (uuid_calls s).

(** A request put on the tool queue. *)
Record ToolRequest := mkToolRequest {
  req_name : string;
  req_params : dict;
  req_id : string
}.

(** How the call to the model ends. *)
Inductive ApiOutcome :=
| ApiOk
| ApiTimeout
| ApiBadRequest (message : string)
| ApiError (message : string).

(** The context the code check hook's callback is called with. *)
Record CheckContext := mkCheckContext {
  hook_succeeded : bool;
  check_result : option (bool * list string)
}.

(** What the environment does during one recursive processing step:
    whether the system prompt can be built, how the model call ends and
    the chunks it streams, what executing a tool gives (its result, or
    the text of its error) and the extra context recorded with it, and
    the context [commit_turn] hands to the code check callback, if it
    runs that hook at all. *)
Record Step := mkStep {
  prompt_ok : bool;
  api : ApiOutcome;
  chunks : list string;
  execute : ToolRequest -> string + string;
  extra_of : ToolRequest -> list (string * option string);
  code_check : option CheckContext
}.

Definition too_many_mistakes : string :=
  "Assistant has made too many consecutive mistakes. This may indicate a failure in the "
  +:+ "thought process or inability to use tools properly. Consider providing guidance on "
  +:+ "breaking down the task into smaller steps.".

(** The requests [process_stream] queues: one for each [executing]
    event, with [event.params or {}]. *)
Fixpoint requests_of (evs : list StreamEvent) : list ToolRequest :=
  match evs with
  | [] => []
  | ToolEvent n id executing p _ _ _ :: r =>
      mkToolRequest n (default [] p) id :: requests_of r
  | _ :: r => requests_of r
  end.

(** [_handle_tool_result] with the handlers of [TOOL_COMPLETED] and
    [TOOL_FAILED] it triggers. *)
Definition _handle_tool_result (step : Step) (req : ToolRequest) (s : State)
  : State :=
  match execute step req with
  | inl res =>
      let '(s1, formatted_result) :=
        if String.eqb (req_name req) "ask-followup-question" then
          (set_current_message
             (if PyStr.truthy (current_message s)
              then current_message s +:+ nl +:+ nl +:+ res
              else res) s,
           res)
        else (s, "Result:" +:+ nl +:+ res) in
      add_success (req_name req) (req_id req) (req_params req)
        formatted_result (extra_of step req) s1
  | inr err =>
      add_failure (req_name req) (req_id req) (req_params req) err
        (extra_of step req) s
  end.

(** [_tool_consumer]: the requests are resolved in the order given. *)
Definition _tool_consumer (step : Step) (reqs : list ToolRequest) (s : State)
  : State :=
  fold_left (fun s req => _handle_tool_result step req s) reqs s.

(** [_on_code_check_complete].  The memory item is recorded by its
    check-results block; the environment-details block that precedes it
    in the source is not part of the state kept here. *)
Definition _on_code_check_complete (ctx : CheckContext) (s : State) : State :=
  let bump s :=
    set_counters (consecutive_tool_failures s)
      (S (consecutive_code_failures s)) s in
  if negb (hook_succeeded ctx) then bump s
  else
    match check_result ctx with
    | None => bump s
    | Some (passed, check_results) =>
        let s1 :=
          if negb passed then bump s
          else set_counters (consecutive_tool_failures s) 0 s in
        match check_results with
        | [] => s1
        | _ => remember (add_memory_item (join_with (nl +:+ nl) check_results))
                 s1
        end
    end.

(** The first successful follow-up question among the tool results. *)
Definition followup_question (results : list ToolResult) : option string :=
  match
    List.find
      (fun r =>
         String.eqb (tool r) "ask-followup-question"
         && match rstatus r with success => true | failure => false end)
      results
  with
  | Some r => Some (default "" (result r))
  | None => None
  end.

(** One entry of the tool results message. *)
Definition format_result (r : ToolResult) : string :=
  "[" +:+ tool r
  +:+ match dict_get (params r) "path" with
      | Some p => " for " +:+ p
      | None => ""
      end
  +:+ " "
  +:+ match rstatus r with success => "Success" | failure => "Error" end
  +:+ "]" +:+ nl
  +:+ match rstatus r with
      | success => default "" (result r)
      | failure => default "" (error r)
      end.

(** The [ToolEvent] emitted for a tool result. *)
Definition result_event (r : ToolResult) : StreamEvent :=
  ToolEvent (tool r) (tool_id r)
    match rstatus r with success => completed | failure => failed end
    (Some (params r)) (result r) (error r) (Some (extra r)).

Section WithUuid.
Variable uuid4 : nat -> ascii * string.

(** [process_stream] and the consumer: the events streamed and the
    state once every tool queued has been resolved. *)
Definition stream_and_tools (step : Step) (s : State)
  : list StreamEvent * State :=
  let '(evs, ps) :=
    Parser.calls uuid4 (Parser.reset_state (uuid_calls s))
      (map Some (chunks step) ++ [None]) in
  let s1 := set_current_message (Parser.join (chunks step))
              (set_uuid_calls (Parser.uuid_calls ps) s) in
  (evs, _tool_consumer step (requests_of evs) s1).

(** [_recursively_process_messages]; [env n] is what the environment
    does during the step at depth [n], and [fuel] bounds the depth. *)
Fixpoint _recursively_process_messages (fuel : nat) (env : nat -> Step)
    (depth : nat) (s : State) : list StreamEvent * State :=
  match fuel with
  | 0 => ([], s)
  | S fuel' =>
      let step := env depth in
      let s := turn_call begin_turn (turn_call discard_turn s) in
      if Nat.leb 4 (consecutive_tool_failures s)
         || Nat.leb 4 (consecutive_code_failures s) then
        ([TextEvent too_many_mistakes],
         set_counters 0 0 (set_status st_failed s))
      else if negb (prompt_ok step) then
        let error_msg :=
          "Task failed: Failed to initialize task context" in
        ([TextEvent error_msg],
         remember (add_assistant_message error_msg) s)
      else
        match api step with
        | ApiTimeout =>
            ([TextEvent "Assistant response timed out after 1 minute"],
             set_status st_timeout s)
        | ApiBadRequest message =>
            let error_msg := "Bad request error: " +:+ message in
            ([TextEvent error_msg],
             set_status st_failed
               (remember (add_assistant_message error_msg) s))
        | ApiError message =>
            let error_msg := "Task failed: " +:+ message in
            ([TextEvent error_msg],
             set_status st_failed
               (remember (add_assistant_message error_msg) s))
        | ApiOk =>
            let '(evs, s1) := stream_and_tools step s in
            let s2 :=
              if PyStr.truthy (current_message s1) then
                remember (add_assistant_message (current_message s1)) s1
              else s1 in
            match tool_results s2 with
            | [] => (evs, set_status st_completed s2)
            | results =>
                match followup_question results with
                | Some question =>
                    (evs ++ [TextEvent question],
                     set_status st_completed s2)
                | None =>
                    let tool_results_message :=
                      join_with (nl +:+ nl) (map format_result results) in
                    let s3 :=
                      remember (add_memory_item tool_results_message) s2 in
                    let s4 := turn_call commit_turn s3 in
                    let s5 :=
                      match code_check step with
                      | Some ctx => _on_code_check_complete ctx s4
                      | None => s4
                      end in
                    let tool_events := map result_event (tool_results s5) in
                    let s6 := clear_results s5 in
                    let '(rec_evs, s7) :=
                      _recursively_process_messages fuel' env (S depth)
                        s6 in
                    let s8 :=
                      match tool_results s7 with
                      | [] => set_status st_completed s7
                      | _ => s7
                      end in
                    (evs ++ tool_events ++ rec_evs, s8)
                end
            end
        end
  end.

End WithUuid.

(** What executing [delete-file] gives when [Path(cwd) / path] does not
    exist: [DeleteFileTool.execute] raises
    [ToolError("delete-file", "FILE_NOT_FOUND", f"File not found: {path}")],
    of which [_handle_tool_result] makes
    [f"{e.message} (Error code: {e.error_code})"]. *)
Definition delete_missing_file (req : ToolRequest) : string + string :=
  inr ("File not found: " +:+ default "" (dict_get (req_params req) "path")
       +:+ " (Error code: FILE_NOT_FOUND)").

(** Four deletions of files that are not there, in one response. *)
Definition four_failed_deletes : Step :=
  mkStep true ApiOk
    [ "<delete-file><path>a.ts</path></delete-file>";
      "<delete-file><path>b.ts</path></delete-file>";
      "<delete-file><path>c.ts</path></delete-file>";
      "<delete-file><path>d.ts</path></delete-file>" ]
    delete_missing_file
    (fun _ => []) None.

(** A question to the user, with a file written in the same response. *)
Definition question_and_write : Step :=
  mkStep true ApiOk
    [ "<write-to-file><path>a.ts</path><content>x</content></write-to-file>";
      "<ask-followup-question><question>Which port?</question></ask-followup-question>" ]
    (fun req =>
       if String.eqb (req_name req) "ask-followup-question"
       then inl "Which port?" else inl "File written")
    (fun _ => []) None.

(** UUIDs, for the examples. *)
Definition uuid_example (n : nat) : ascii * string :=
  ("u"%char, String (ascii_of_nat (48 + n)) "").

End Orchestrator.

(** * Reading the parser's events *)
Module ParserEvents.
Import Parser.

Definition is_tool (e : StreamEvent) : bool :=
  match e with ToolEvent _ _ _ _ _ _ _ => true | _ => false end.

(** The [ToolEvent]s, in order. *)
Definition tools_of (evs : list StreamEvent) : list StreamEvent :=
  List.filter is_tool evs.

(** No [TextEvent] or [ThinkingEvent] with an empty text. *)
Definition has_text (e : StreamEvent) : bool :=
  match e with
  | TextEvent t | ThinkingEvent t => PyStr.truthy t
  | ToolEvent _ _ _ _ _ _ _ => true
  end.

(** What a reader of the tool events keeps track of: the number of
    [started] events seen, the name and id of the tool that is open, and
    the parameters last reported. *)
Record Tracker := mkTracker {
  seen : nat;
  open : option (string * string);
  reported : dict
}.

Section WithUuid.
Variable uuid4 : nat -> ascii * string.

(** The life cycle of tool events.  A [started] event carries the next
    UUID and no parameters and opens its tool; a [partial] event belongs
    to the open tool and reports parameters; an [executing] event belongs
    to the open tool, carries the parameters last reported and closes the
    tool; the parser emits no other tool event. *)
Definition track_event (t : Tracker) (e : StreamEvent) : option Tracker :=
  match e with
  | TextEvent _ | ThinkingEvent _ => Some t
  | ToolEvent n id started None None None None =>
      if String.eqb id (uuid_str uuid4 (seen t))
      then Some (mkTracker (S (seen t)) (Some (n, id)) (reported t))
      else None
  | ToolEvent n id partial (Some p) None None None =>
      match open t with
      | Some (n', id') =>
          if String.eqb n n' && String.eqb id id'
          then Some (mkTracker (seen t) (open t) p)
          else None
      | None => None
      end
  | ToolEvent n id executing (Some p) None None None =>
      match open t with
      | Some (n', id') =>
          if String.eqb n n' && String.eqb id id'
             && bool_decide (p = reported t)
          then Some (mkTracker (seen t) None [])
          else None
      | None => None
      end
  | _ => None
  end.

Fixpoint track (t : Tracker) (evs : list StreamEvent) : option Tracker :=
  match evs with
  | [] => Some t
  | e :: r =>
      match track_event t e with
      | Some t' => track t' r
      | None => None
      end
  end.

End WithUuid.

(** What the tracker should hold in a parser state. *)
Definition tracker_of (s : State) : Tracker :=
  mkTracker (uuid_calls s)
    match current_tool s, current_tool_id s with
    | Some name, Some id => Some (name, id)
    | _, _ => None
    end
    (current_params s).

(** Inside a tool block the tool and its id are known. *)
Definition tool_known (s : State) : Prop :=
  in_tool_block s = true ->
  exists name id,
    current_tool s = Some name /\ current_tool_id s = Some id
    /\ PyStr.truthy id = true.

(** No [<] among the characters. *)
Definition no_lt (text : string) : bool :=
  forallb (fun c => negb (Ascii.eqb c "<")) (PyStr.chars text).

(** No [>] among the characters. *)
Definition no_gt (text : string) : bool :=
  forallb (fun c => negb (Ascii.eqb c ">")) (PyStr.chars text).

End ParserEvents.

(** * Event bus: asynchronous subscribers
    [subscribe_async], [unsubscribe_async] and [publish_async] of
    [app/agentic/agents/coder/event_bus.py] *)
Module EventBusAsync.
Import EventBus.

(** How a callback was registered and is called. *)
Inductive Mode := Sync | Async.

Section Bus.
Context {Callback : Type} `{PySet Callback}.
Context {Data World : Type}.

(** [run cb data w] is [callback(data)] for a synchronous callback,
    [run_async cb data w] is [await callback(data)] for an asynchronous
    one: the world afterwards and whether the call raised. *)
Variable run : Callback -> Data -> World -> World * bool.
Variable run_async : Callback -> Data -> World -> World * bool.

Local Abbreviation Bus := (Bus (Callback := Callback)).

(** [subscribe_async] *)
Definition subscribe_async (b : Bus) (event_type : EventType)
    (callback : Callback) : Bus :=
  let subs :=
    match _async_subscribers b !! event_type with
    | Some s => _async_subscribers b
    | None => <[event_type := set_new]> (_async_subscribers b)
    end in
  mkBus (_sync_subscribers b)
        (<[event_type :=
             set_add (default set_new (subs !! event_type)) callback]> subs).

(** [unsubscribe_async] *)
Definition unsubscribe_async (b : Bus) (event_type : EventType)
    (callback : Callback) : Bus :=
  match _async_subscribers b !! event_type with
  | Some s =>
      mkBus (_sync_subscribers b)
            (<[event_type := set_discard s callback]> (_async_subscribers b))
  | None => b
  end.

(** [publish_async]: the synchronous subscribers through [publish],
    then the asynchronous ones, each awaited in turn inside its own
    [try/except Exception]. *)
Definition publish_async (b : Bus) (event_type : EventType) (data : Data)
    (w : World) : list (Mode * Callback) * World :=
  let '(tr1, w1) := publish run b event_type data w in
  let '(tr2, w2) :=
    match _async_subscribers b !! event_type with
    | Some s => invoke_all run_async (set_iter s) data w1
    | None => ([], w1)
    end in
  (map (pair Sync) tr1 ++ map (pair Async) tr2, w2).

(** The callbacks subscribed asynchronously to [et], as the set holds
    them. *)
Definition async_subscribers (b : Bus) (et : EventType) : list Callback :=
  match _async_subscribers b !! et with
  | Some s => set_iter s
  | None => []
  end.

End Bus.

End EventBusAsync.

(** * File operation manager: looking at the turn
    [get_pending_file_change] of
    [app/agentic/storage/file_operation_manager.py] *)
Module PendingChanges.
Import FileOps.

Section Manager.
Context {T : Type}.
Context {FS : Type} `{FileSystem FS}.

Local Abbreviation Manager := (Manager (T := T) (FS := FS)).
Local Abbreviation WriteTurn := (WriteTurn (T := T)).

(** [get_pending_file_change] *)
Definition get_pending_file_change (m : Manager) (p : string)
  : option FileChange :=
  match _current_turn m with
  | None => None
  | Some t => List.find (fun change => String.eqb (path change) p) (changes t)
  end.

(** A change on a file has an absolute path, a rename an absolute
    destination as well; a dependency has no path. *)
Definition located (c : FileChange) : bool :=
  match change_type c with
  | ADD_DEPENDENCY => true
  | RENAME => PyPath.isabs (path c) && PyPath.isabs (default "" (content c))
  | _ => PyPath.isabs (path c)
  end.

End Manager.

(** A pre-commit hook that raises. *)
Definition failing_hook (n : string)
  : Hook (T := string) (FS := gmap string TreeFS.Node) :=
  mkHook n (fun _ _ => inr "lint failed") None true.

(** A turn with one write, under a pre-commit hook that raises and one
    that does not. *)
Definition linted_manager
  : FileOps.Manager (T := string) (FS := gmap string TreeFS.Node) :=
  fst (write_file
         (mkManager "/w" (Some (mkWriteTurn "t1" "/w" [] ∅))
            [failing_hook "lint"; TreeFS.const_hook "audit" true] [] true)
         "src/a.ts" "A" None).

End PendingChanges.

(** * A store for the examples *)
Module CompactorExamples.
Import Compactor.

(** A store that holds one message under [messages], checked for
    compaction at time 0. *)
Definition checked_store : Store :=
  fst (rpush ten_each 100 half empty_store "messages"
         [user_message "hi"] 0).

End CompactorExamples.

(** * List store
    [BaseListStore] of [app/agentic/storage/list_store.py]; the lock and
    [_persist], which [MemoryListStore] leaves empty, do not show. *)
Module ListStore.

Section Store.

(** The values stored; [==] on them is decidable. *)
Context {A : Type} `{EqDecision A}.

(** [self.data] *)
Local Abbreviation Data := (gmap string (list A)).

(** [lpush] *)
Definition lpush (d : Data) (key : string) (values : list A) : Data * nat :=
  let l :=
    match d !! key with
    | None => rev values
    | Some l => fold_left (fun acc value => value :: acc) values l
    end in
  (<[key := l]> d, length l).

(** [rpush] *)
Definition rpush (d : Data) (key : string) (values : list A) : Data * nat :=
  let l := default [] (d !! key) ++ values in
  (<[key := l]> d, length l).

(** [lpop] *)
Definition lpop (d : Data) (key : string) : Data * option A :=
  match d !! key with
  | Some (x :: r) => (<[key := r]> d, Some x)
  | _ => (d, None)
  end.

(** [rpop] *)
Definition rpop (d : Data) (key : string) : Data * option A :=
  match d !! key with
  | Some (x :: r) => (<[key := removelast (x :: r)]> d, last (x :: r))
  | _ => (d, None)
  end.

(** A slice index brought into [0 .. len], as [l[a:b]] reads it. *)
Definition slice_index (len i : Z) : Z :=
  if (i <? 0)%Z then Z.max (len + i) 0 else Z.min i len.

(** [l[a:b]] *)
Definition slice (l : list A) (a b : Z) : list A :=
  let len := Z.of_nat (length l) in
  let a' := slice_index len a in
  let b' := slice_index len b in
  take (Z.to_nat (b' - a')) (drop (Z.to_nat a') l).

(** The bounds of [lrange] and [ltrim], made ready for the slice. *)
Definition redis_bounds (l : list A) (start end_ : Z) : Z * Z :=
  let len := Z.of_nat (length l) in
  let start := if (start <? 0)%Z then Z.max (len + start) 0 else start in
  let end_ := if (end_ <? 0)%Z then (len + end_ + 1)%Z else (end_ + 1)%Z in
  (start, end_).

(** [lrange] *)
Definition lrange (d : Data) (key : string) (start end_ : Z) : list A :=
  match d !! key with
  | None => []
  | Some l =>
      let '(start, end_) := redis_bounds l start end_ in
      slice l start end_
  end.

(** [delete] *)
Definition delete_key (d : Data) (key : string) : Data * bool :=
  match d !! key with
  | None => (d, false)
  | Some _ => (delete key d, true)
  end.

(** [ltrim] *)
Definition ltrim (d : Data) (key : string) (start end_ : Z) : Data * bool :=
  match d !! key with
  | None => (d, false)
  | Some l =>
      let '(start, end_) := redis_bounds l start end_ in
      (<[key := slice l start end_]> d, true)
  end.

(** The loop of [lrem] for [count > 0]: [fuel] bounds the number of
    iterations, each of which removes an element or moves on. *)
Fixpoint lrem_head_loop (fuel : nat) (value : A) (l : list A)
    (i removed count : nat) : list A * nat :=
  match fuel with
  | 0 => (l, removed)
  | S fuel' =>
      if (i <? length l)%nat && (removed <? count)%nat then
        if decide (l !! i = Some value) then
          lrem_head_loop fuel' value (delete i l) i (S removed) count
        else lrem_head_loop fuel' value l (S i) removed count
      else (l, removed)
  end.

(** The loop of [lrem] for [count < 0], with [n = i + 1]. *)
Fixpoint lrem_tail_loop (n : nat) (value : A) (l : list A)
    (removed count : nat) : list A * nat :=
  match n with
  | 0 => (l, removed)
  | S i =>
      if (removed <? count)%nat then
        if decide (l !! i = Some value) then
          lrem_tail_loop i value (delete i l) (S removed) count
        else lrem_tail_loop i value l removed count
      else (l, removed)
  end.

(** The body of [lrem] on the list stored at the key. *)
Definition lrem_list (l : list A) (value : A) (count : Z) : list A * nat :=
  if (count =? 0)%Z then
    let l' := List.filter (fun x => negb (bool_decide (x = value))) l in
    (l', length l - length l')
  else if (0 <? count)%Z then
    lrem_head_loop (length l) value l 0 0 (Z.to_nat count)
  else
    lrem_tail_loop (length l) value l 0 (Z.abs_nat count).

(** [lrem] *)
Definition lrem (d : Data) (key : string) (value : A) (count : Z)
  : Data * nat :=
  match d !! key with
  | None => (d, 0)
  | Some l =>
      let '(l', removed) := lrem_list l value count in
      (<[key := l']> d, removed)
  end.

(** [lclear] *)
Definition lclear (d : Data) (key : string) : Data * bool :=
  match d !! key with
  | None => (d, false)
  | Some _ => (<[key := []]> d, true)
  end.

(** The first [n] elements equal to [value] taken out of [l]. *)
Fixpoint remove_first (n : nat) (value : A) (l : list A) : list A :=
  match n, l with
  | 0, _ => l
  | _, [] => []
  | S n', x :: r =>
      if decide (x = value) then remove_first n' value r
      else x :: remove_first n value r
  end.

(** The number of elements of [l] equal to [value]. *)
Definition occurrences (value : A) (l : list A) : nat :=
  length (List.filter (fun x => bool_decide (x = value)) l).

End Store.

(** A store of numbers with one list. *)
Definition sample : gmap string (list nat) := {["k" := [1; 2; 3; 2; 1]]}.

End ListStore.

(** * Tool parameter validation
    [ToolExecutor.validate_tool_params] of
    [app/agentic/agents/coder/tool_executor.py], with the two message
    builders of [app/agentic/utils/format_response.py] it calls *)
Module ToolExecutor.
Import Parser.

(** The attributes of a [ToolError] the validation sets. *)
Record ToolError := mkToolError {
  tool_name : string;
  error_code : string;
  message : string
}.

(** [missing_tool_parameter_error] *)
Definition missing_tool_parameter_error (param_name tool_name : string)
  : string :=
  "Error executing " +:+ tool_name +:+ ":" +:+ Orchestrator.nl
  +:+ "<error-details>" +:+ Orchestrator.nl
  +:+ "Missing required parameter '" +:+ param_name
  +:+ "'. Provide the parameter and retry." +:+ Orchestrator.nl
  +:+ "</error-details>".

(** [invalid_tool_parameter_error] *)
Definition invalid_tool_parameter_error (tool_name param_name message : string)
  : string :=
  "Error executing " +:+ tool_name +:+ ":" +:+ Orchestrator.nl
  +:+ "<error-details>" +:+ Orchestrator.nl
  +:+ "Invalid value for '" +:+ param_name +:+ "': " +:+ message
  +:+ Orchestrator.nl
  +:+ "</error-details>".

(** The [required_params] table. *)
Definition required_params : list (string * list string) :=
  [ ("read-file", ["path"]);
    ("write-to-file", ["path"; "content"]);
    ("apply-diff", ["path"; "diff"]);
    ("delete-file", ["path"]);
    ("rename-file", ["source"; "destination"]);
    ("add-dependency", ["name"]);
    ("search-files", ["path"; "regex"]);
    ("list-files", ["path"]);
    ("ask-followup-question", ["question"]) ].

(** [required_params[tool_name]], when [tool_name in required_params] *)
Fixpoint required_for (table : list (string * list string))
    (tool_name : string) : option (list string) :=
  match table with
  | [] => None
  | (name, required) :: r =>
      if String.eqb name tool_name then Some required
      else required_for r tool_name
  end.

Definition path_params : list string := ["path"; "source"; "destination"].

(** The loop over the required parameters: the first one that is
    missing or empty raises. *)
Fixpoint check_required (tool : string) (params : dict)
    (required : list string) : option ToolError :=
  match required with
  | [] => None
  | param :: r =>
      match dict_get params param with
      | None =>
          Some (mkToolError tool "MISSING_PARAM"
                  (missing_tool_parameter_error param tool))
      | Some value =>
          if negb (PyStr.truthy value) then
            Some (mkToolError tool "INVALID_PARAM"
                    (invalid_tool_parameter_error tool param
                       "Parameter cannot be empty"))
          else check_required tool params r
      end
  end.

(** The loop over the path parameters: [Path(value).is_absolute()]
    raises. *)
Fixpoint check_paths (tool : string) (params : dict) (names : list string)
  : option ToolError :=
  match names with
  | [] => None
  | param :: r =>
      match dict_get params param with
      | Some value =>
          if PyPath.isabs value then
            Some (mkToolError tool "INVALID_PATH"
                    (invalid_tool_parameter_error tool param
                       "Path must be relative to working directory"))
          else check_paths tool params r
      | None => check_paths tool params r
      end
  end.

(** [validate_tool_params]: the [ToolError] raised, if any. *)
Definition validate_tool_params (tool : string) (params : dict)
  : option ToolError :=
  match required_for required_params tool with
  | None =>
      Some (mkToolError tool "UNKNOWN_TOOL"
              (invalid_tool_parameter_error tool "tool_name"
                 "Unsupported tool"))
  | Some required =>
      match check_required tool params required with
      | Some e => Some e
      | None => check_paths tool params path_params
      end
  end.

End ToolExecutor.

(** * Reading the calls made to the file operation manager *)
Module TurnProtocol.
Import Orchestrator.

(** The calls come in rounds: [discard_turn], [begin_turn] and then at
    most one [commit_turn]. *)
Fixpoint in_rounds (calls : list TurnCall) : bool :=
  match calls with
  | [] => true
  | discard_turn :: r =>
      match r with
      | begin_turn :: r' =>
          match r' with
          | commit_turn :: r'' => in_rounds r''
          | _ => in_rounds r'
          end
      | _ => false
      end
  | _ => false
  end.

(** A reply with no tool in it. *)
Definition plain_reply : Step :=
  mkStep true ApiOk ["All "; "done."] (fun _ => inl "") (fun _ => []) None.

End TurnProtocol.

(** * Message manager: cache checkpoints
    [add_assistant_message] and [reset_checkpoints] of
    [app/agentic/agents/coder/message_manager.py], with
    [create_text_block] of [app/agentic/utils/message_formats.py] *)
Module MessageManager.

(** A [MessagePart] as [add_assistant_message] builds them: a text
    block, with the type of its [cache_control] entry if it has one, or
    a cache point block. *)
Inductive MessagePart :=
| TextBlock (text : string) (cache_control : option string)
| CachePointBlock.

(** [MessageContent] *)
Inductive MessageContent :=
| Str (s : string)
| Parts (parts : list MessagePart).

Record Message := mkMessage {
  content : MessageContent;
  role : string
}.

(** [create_text_block] *)
Definition create_text_block (text : string)
    (cache_control_type : option string) : MessagePart :=
  if PyStr.truthy_opt cache_control_type
  then TextBlock text cache_control_type
  else TextBlock text None.

Definition IS_BEDROCK : bool := false.

(** The attributes of [MessageManager] the checkpoints depend on. *)
Record Manager := mkManager {
  enable_prompt_cache : bool;
  checkpoint_count : nat;
  max_checkpoints : nat
}.

(** [add_assistant_message]: the manager afterwards and the message
    handed to [self.memory.rpush("messages", ...)]. *)
Definition add_assistant_message (m : Manager) (text : string)
  : Manager * Message :=
  if enable_prompt_cache m
     && (checkpoint_count m <? max_checkpoints m)%nat then
    let m' := mkManager (enable_prompt_cache m) (S (checkpoint_count m))
                (max_checkpoints m) in
    let message_content := [create_text_block text None] in
    let message_content :=
      if negb IS_BEDROCK then [create_text_block text (Some "ephemeral")]
      else message_content ++ [CachePointBlock] in
    (m', mkMessage (Parts message_content) "assistant")
  else (m, mkMessage (Str text) "assistant").

(** [reset_checkpoints] *)
Definition reset_checkpoints (m : Manager) : Manager :=
  mkManager (enable_prompt_cache m) 0 (max_checkpoints m).

(** Assistant messages added one after the other: the manager in the
    end and the messages pushed, in order. *)
Fixpoint add_assistant_messages (m : Manager) (texts : list string)
  : Manager * list Message :=
  match texts with
  | [] => (m, [])
  | text :: r =>
      let '(m1, msg) := add_assistant_message m text in
      let '(m2, msgs) := add_assistant_messages m1 r in
      (m2, msg :: msgs)
  end.

(** The message carries a cache checkpoint. *)
Definition is_checkpoint (msg : Message) : bool :=
  match content msg with
  | Parts parts =>
      existsb
        (fun part =>
           match part with
           | TextBlock _ (Some _) | CachePointBlock => true
           | TextBlock _ None => false
           end)
        parts
  | Str _ => false
  end.

(** The message with the text alone. *)
Definition plain (text : string) : Message :=
  mkMessage (Str text) "assistant".

(** The message with the text in a block marked [ephemeral]. *)
Definition marked (text : string) : Message :=
  mkMessage (Parts [TextBlock text (Some "ephemeral")]) "assistant".

End MessageManager.

(** * Whole message parser
    [parse_assistant_message] of [app/agentic/types/assistant_message.py];
    characters are code points below 256 *)
Module MessageParser.
Import Parser.

(** [c.isspace()] *)
Definition is_space (c : ascii) : bool :=
  let n := nat_of_ascii c in
  ((9 <=? n) && (n <=? 13) || (28 <=? n) && (n <=? 32)
   || (n =? 133) || (n =? 160))%nat.

(** [s.lstrip()] *)
Fixpoint lstrip (s : string) : string :=
  match s with
  | String c r => if is_space c then lstrip r else s
  | "" => ""
  end.

(** [s.rstrip()] *)
Fixpoint rstrip (s : string) : string :=
  match s with
  | String c r =>
      match rstrip r with
      | "" => if is_space c then "" else String c ""
      | r' => String c r'
      end
  | "" => ""
  end.

(** [s.strip()] *)
Definition strip (s : string) : string := rstrip (lstrip s).

(** [s[k:]] *)
Definition from (k : nat) (s : string) : string :=
  String.substring k (String.length s - k) s.

(** [s[:-n]] *)
Definition drop_last (n : nat) (s : string) : string :=
  if (n =? 0)%nat then "" else String.substring 0 (String.length s - n) s.

(** [s[a:b]] for [a] and [b] that are not negative *)
Definition slice (s : string) (a b : nat) : string :=
  String.substring a (Nat.min b (String.length s) - a) s.

(** [s.endswith(t)] *)
Definition endswith (s t : string) : bool :=
  (String.length t <=? String.length s)%nat
  && String.eqb (from (String.length s - String.length t) s) t.

(** [s.find(sub)], [None] for -1 *)
Fixpoint find (s sub : string) : option nat :=
  if String.prefix sub s then Some 0
  else match s with
       | "" => None
       | String _ r => option_map S (find r sub)
       end.

(** [s.rindex(sub)], [None] when it raises [ValueError] *)
Fixpoint rindex (s sub : string) : option nat :=
  match s with
  | "" => if String.prefix sub "" then Some 0 else None
  | String _ r =>
      match rindex r sub with
      | Some k => Some (S k)
      | None => if String.prefix sub s then Some 0 else None
      end
  end.

(** [TextContent] and [ToolUse] *)
Inductive Block :=
| TextContent (content : string) (is_partial : bool)
| ToolUseBlock (name : string) (params : dict) (is_partial : bool).

(** The local variables of [parse_assistant_message]; a current text
    content is partial, and so is a current tool use. *)
Record Locals := mkLocals {
  content_blocks : list Block;
  current_text_content : option string;
  current_text_content_start_index : nat;
  current_tool_use : option (string * dict);
  current_tool_use_start_index : nat;
  current_param_name : option string;
  current_param_value_start_index : nat;
  accumulator : string
}.

Definition initial : Locals := mkLocals [] None 0 None 0 None 0 "".

(** The first name of the enumeration whose tag, opened with [lead],
    ends the accumulator. *)
Fixpoint first_tag (names : list string) (lead acc : string)
  : option string :=
  match names with
  | [] => None
  | n :: r =>
      if endswith acc (lead +:+ n +:+ ">") then Some n
      else first_tag r lead acc
  end.

(** The special case for the [content] parameter of [write-to-file]:
    the new value of the parameter if one is assigned, [None] for the
    [ValueError] of [rindex]. *)
Definition content_between (tool_content : string)
  : option (option string) :=
  let content_start_tag := "<content>" in
  let content_end_tag := "</content>" in
  let content_start_index :=
    (match find tool_content content_start_tag with
     | Some k => Z.of_nat k
     | None => -1
     end + Z.of_nat (String.length content_start_tag))%Z in
  match rindex tool_content content_end_tag with
  | None => None
  | Some content_end_index =>
      if negb (content_start_index =? -1)%Z
         && (content_start_index <? Z.of_nat content_end_index)%Z
      then Some (Some (strip (slice tool_content
                                (Z.to_nat content_start_index)
                                content_end_index)))
      else Some None
  end.

(** One iteration of [for i, char in enumerate(assistant_message)];
    [None] when it raises. *)
Definition step (l : Locals) (i : nat) (char : ascii) : option Locals :=
  let acc := PyStr.snoc (accumulator l) char in
  match current_tool_use l with
  | Some (name, params) =>
      match current_param_name l with
      | Some pname =>
          let current_param_value :=
            from (current_param_value_start_index l) acc in
          let param_closing_tag := "</" +:+ pname +:+ ">" in
          if endswith current_param_value param_closing_tag then
            let value :=
              strip (drop_last (String.length param_closing_tag)
                       current_param_value) in
            Some (mkLocals (content_blocks l) (current_text_content l)
                    (current_text_content_start_index l)
                    (Some (name, dict_set params pname value))
                    (current_tool_use_start_index l) None
                    (current_param_value_start_index l) acc)
          else
            Some (mkLocals (content_blocks l) (current_text_content l)
                    (current_text_content_start_index l)
                    (current_tool_use l) (current_tool_use_start_index l)
                    (current_param_name l)
                    (current_param_value_start_index l) acc)
      | None =>
          let current_tool_value :=
            from (current_tool_use_start_index l) acc in
          let tool_use_closing_tag := "</" +:+ name +:+ ">" in
          if endswith current_tool_value tool_use_closing_tag then
            Some (mkLocals
                    (content_blocks l ++ [ToolUseBlock name params false])
                    (current_text_content l)
                    (current_text_content_start_index l) None
                    (current_tool_use_start_index l) None
                    (current_param_value_start_index l) acc)
          else
            let '(pname, pstart) :=
              match first_tag ToolParamName "<" acc with
              | Some p => (Some p, String.length acc)
              | None => (None, current_param_value_start_index l)
              end in
            let after params :=
              Some (mkLocals (content_blocks l) (current_text_content l)
                      (current_text_content_start_index l)
                      (Some (name, params))
                      (current_tool_use_start_index l) pname pstart acc) in
            if String.eqb name "write-to-file"
               && endswith acc "</content>" then
              match content_between
                      (from (current_tool_use_start_index l) acc) with
              | None => None
              | Some (Some value) => after (dict_set params "content" value)
              | Some None => after params
              end
            else after params
      end
  | None =>
      match first_tag ToolUseName "<" acc with
      | Some tool_name =>
          let tool_opening_tag := "<" +:+ tool_name +:+ ">" in
          let '(blocks, text) :=
            match current_text_content l with
            | Some content =>
                (content_blocks l
                   ++ [TextContent
                         (strip (drop_last
                                   (String.length tool_opening_tag - 1)
                                   content))
                         false],
                 None)
            | None => (content_blocks l, None)
            end in
          Some (mkLocals blocks text (current_text_content_start_index l)
                  (Some (tool_name, [])) (String.length acc)
                  (current_param_name l)
                  (current_param_value_start_index l) acc)
      | None =>
          let start :=
            match current_text_content l with
            | None => i
            | Some _ => current_text_content_start_index l
            end in
          Some (mkLocals (content_blocks l) (Some (strip (from start acc)))
                  start None (current_tool_use_start_index l)
                  (current_param_name l)
                  (current_param_value_start_index l) acc)
      end
  end.

(** The whole loop, from index [i]. *)
Fixpoint loop (l : Locals) (i : nat) (chars : list ascii) : option Locals :=
  match chars with
  | [] => Some l
  | char :: r =>
      match step l i char with
      | Some l' => loop l' (S i) r
      | None => None
      end
  end.

(** What follows the loop. *)
Definition finish (l : Locals) : list Block :=
  match current_tool_use l with
  | Some (name, params) =>
      let params :=
        match current_param_name l with
        | Some pname =>
            dict_set params pname
              (strip (from (current_param_value_start_index l)
                        (accumulator l)))
        | None => params
        end in
      content_blocks l ++ [ToolUseBlock name params true]
  | None =>
      match current_text_content l with
      | Some content => content_blocks l ++ [TextContent content true]
      | None => content_blocks l
      end
  end.

(** [parse_assistant_message]; [None] when it raises. *)
Definition parse_assistant_message (assistant_message : string)
  : option (list Block) :=
  option_map finish (loop initial 0 (PyStr.chars assistant_message)).

(** Nothing to strip at either end. *)
Definition trimmed (s : string) : Prop := strip s = s.

(** The texts a block holds are trimmed. *)
Definition block_trimmed (b : Block) : Prop :=
  match b with
  | TextContent content _ => trimmed content
  | ToolUseBlock _ params _ => Forall (fun kv => trimmed (snd kv)) params
  end.

(** What the loop keeps: every text stored so far is trimmed. *)
Definition all_trimmed (l : Locals) : Prop :=
  Forall block_trimmed (content_blocks l)
  /\ (forall content, current_text_content l = Some content ->
                      trimmed content)
  /\ (forall name params,
         current_tool_use l = Some (name, params) ->
         Forall (fun kv => trimmed (snd kv)) params).

(** While a tool use is open, the accumulator holds its opening tag
    and the index kept is that of the character after the tag. *)
Definition tool_opened (l : Locals) : Prop :=
  forall name params,
    current_tool_use l = Some (name, params) ->
    exists p q,
      accumulator l = p +:+ ("<" +:+ name +:+ ">") +:+ q
      /\ current_tool_use_start_index l
         = String.length (p +:+ ("<" +:+ name +:+ ">")).

End MessageParser.

(** * Properties of the streaming parser *)
Module ParserProofs.
Import Parser.

Lemma append_nil_l (s : string) : "" +:+ s = s.
Proof. reflexivity. Qed.

Lemma append_cons (a : ascii) (s t : string) :
  String a s +:+ t = String a (s +:+ t).
Proof. reflexivity. Qed.

Lemma append_nil_r (s : string) : s +:+ "" = s.
Proof.
  induction s as [|a s IH]; [reflexivity |].
  now rewrite append_cons, IH.
Qed.

Lemma append_assoc (a b c : string) : (a +:+ b) +:+ c = a +:+ (b +:+ c).
Proof.
  induction a as [|x a IH]; [reflexivity |].
  now rewrite !append_cons, IH.
Qed.

Lemma text_of_app (a b : list StreamEvent) :
  text_of (a ++ b) = text_of a +:+ text_of b.
Proof.
  induction a as [|[t|t|n i st p r e x] a IH]; simpl; auto.
  now rewrite IH, append_assoc.
Qed.

Lemma thinking_of_app (a b : list StreamEvent) :
  thinking_of (a ++ b) = thinking_of a +:+ thinking_of b.
Proof.
  induction a as [|[t|t|n i st p r e x] a IH]; simpl; auto.
  now rewrite IH, append_assoc.
Qed.

Lemma chars_app (a b : string) :
  PyStr.chars (a +:+ b) = PyStr.chars a ++ PyStr.chars b.
Proof.
  unfold PyStr.chars.
  induction a as [|x a IH]; [reflexivity |].
  rewrite append_cons. simpl. now rewrite IH.
Qed.

Lemma strip_strip (s : State) : strip (strip s) = strip s.
Proof. reflexivity. Qed.

Lemma Inv_strip (s : State) : Inv s -> Inv (strip s).
Proof.
  intros (Hp & _ & _). unfold Inv; simpl.
  split; [exact Hp | split; intros H; now elim H].
Qed.

Lemma truthy_false (s : string) : PyStr.truthy s = false -> s = "".
Proof. destruct s; simpl; congruence. Qed.

Lemma truthy_true (s : string) : PyStr.truthy s = true -> s <> "".
Proof. destruct s; simpl; congruence. Qed.

(** Closes the goals left by a case analysis of one parser operation. *)
Ltac setters :=
  cbv [strip set_in_thinking_block set_partial_tag
    set_current_param_name set_partial_param set_current_params
    set_thinking_buffer set_text_buffer set_accumulating open_tool
    close_tool in_thinking_block in_tool_block current_tool
    current_param_name partial_tag partial_param current_params
    current_tool_id thinking_buffer text_buffer accumulating_tag
    accumulated_tag uuid_calls];
  simpl in *.

Ltac buffers :=
  repeat match goal with
    | H : PyStr.truthy _ = false |- _ => apply truthy_false in H
    | H : PyStr.truthy _ = true |- _ => apply truthy_true in H
    end;
  repeat match goal with
    | H : ?a <> "" -> _, H' : ?a <> "" |- _ => specialize (H H')
    | H : _ /\ _ |- _ => destruct H
    end;
  try discriminate;
  setters; subst;
  repeat rewrite ?append_nil_l, ?append_nil_r, ?append_assoc;
  try solve [ reflexivity | congruence | tauto
            | repeat split; intros; simpl in *; try congruence; tauto ].

Lemma flush_coherent : coherent _flush_buffers.
Proof.
  intros [th tl ct cp pt pp cps cid kb tb acc atag n] (Hp & Ht & Hk).
  simpl in *. unfold _flush_buffers; simpl.
  destruct (PyStr.truthy kb) eqn:Ekb, (PyStr.truthy tb) eqn:Etb,
    th, tl; simpl;
    unfold Inv, strip; simpl;
    buffers.
Qed.

(** Case analysis on every test an operation makes. *)
Ltac split_tests :=
  repeat (simpl;
    match goal with
    | |- context [if ?b then _ else _] => destruct b eqn:?
    | |- context [match ?x with Some _ => _ | None => _ end] =>
        destruct x eqn:?
    | |- context [let '(_, _) := ?x in _] => destruct x eqn:?
    end).

Section WithUuid.
Variable uuid4 : nat -> ascii * string.

Lemma step_char_coherent (c : ascii) :
  coherent (fun s => step_char uuid4 s c).
Proof.
  intros [th tl ct cp pt pp cps cid kb tb acc atag n] (Hp & Ht & Hk).
  simpl in *. unfold step_char; simpl.
  destruct acc; simpl.
  - destruct (_detect_possible_tag (PyStr.snoc atag c)) as [[tn pn] cl].
    destruct (PyStr.endswith_char (PyStr.snoc atag c) ">"); simpl.
    + destruct tn as [t|], pn as [p|];
        unfold handle_tag, flush_literal, _flush_buffers; simpl;
        destruct th, tl, (PyStr.truthy kb) eqn:Ekb,
          (PyStr.truthy tb) eqn:Etb; simpl;
        split_tests; unfold Inv; simpl; buffers.
    + unfold Inv; simpl; buffers.
  - destruct th, tl, (PyStr.truthy kb) eqn:Ekb, (PyStr.truthy tb) eqn:Etb;
      split_tests; unfold Inv, PyStr.snoc; simpl; buffers.
Qed.

Lemma flush_stripped (s : State) :
  _flush_buffers (strip s) = ([], strip s).
Proof. reflexivity. Qed.

Lemma obs_eq_refl e s : Inv s -> obs_eq (e, s) (e, s).
Proof. unfold obs_eq; simpl; tauto. Qed.

(** A coherent operation keeps two runs in agreement. *)
Lemma obs_op op e1 s1 e2 s2 :
  coherent op -> obs_eq (e1, s1) (e2, s2) ->
  obs_eq (e1 ++ fst (op s1), snd (op s1)) (e2 ++ fst (op s2), snd (op s2)).
Proof.
  intros Hop (I1 & I2 & Hs & Ht & Hk); simpl in *.
  destruct (Hop s1 I1) as (J1 & K1 & T1 & B1).
  destruct (Hop s2 I2) as (J2 & K2 & T2 & B2).
  unfold obs_eq; simpl.
  rewrite !text_of_app, !thinking_of_app, !append_assoc.
  rewrite T1, T2, B1, B2, K1, K2, <- !append_assoc, Ht, Hk, Hs.
  tauto.
Qed.

(** Flushing at a chunk boundary only delivers early what was buffered. *)
Lemma obs_flush e s :
  Inv s ->
  obs_eq (e, s) (e ++ fst (_flush_buffers s), snd (_flush_buffers s)).
Proof.
  intros I. destruct (flush_coherent s I) as (J & K & T & B).
  rewrite flush_stripped in *; simpl in *.
  unfold obs_eq; simpl.
  rewrite !text_of_app, !thinking_of_app, !append_assoc, T, B, K.
  rewrite !append_nil_l, !append_nil_r. tauto.
Qed.

Lemma obs_eq_sym r1 r2 : obs_eq r1 r2 -> obs_eq r2 r1.
Proof.
  unfold obs_eq. intros (A1 & A2 & A3 & A4 & A5).
  split; [exact A2 | split; [exact A1 |]].
  split; [congruence | split; congruence].
Qed.

Lemma obs_eq_trans r1 r2 r3 : obs_eq r1 r2 -> obs_eq r2 r3 -> obs_eq r1 r3.
Proof.
  unfold obs_eq. intros (A1 & A2 & A3 & A4 & A5) (B1 & B2 & B3 & B4 & B5).
  split; [exact A1 | split; [exact B2 |]].
  split; [congruence | split; congruence].
Qed.

Lemma feed_obs cs : forall e1 s1 e2 s2,
  obs_eq (e1, s1) (e2, s2) ->
  obs_eq (e1 ++ fst (feed_chars uuid4 s1 cs), snd (feed_chars uuid4 s1 cs))
         (e2 ++ fst (feed_chars uuid4 s2 cs), snd (feed_chars uuid4 s2 cs)).
Proof.
  induction cs as [|c cs IH]; intros e1 s1 e2 s2 H; simpl.
  - now rewrite !app_nil_r.
  - pose proof (obs_op _ _ _ _ _ (step_char_coherent c) H) as H1.
    destruct (step_char uuid4 s1 c) as [ea sa].
    destruct (step_char uuid4 s2 c) as [eb sb]. simpl in H1.
    specialize (IH _ _ _ _ H1).
    destruct (feed_chars uuid4 sa cs) as [ea' sa'].
    destruct (feed_chars uuid4 sb cs) as [eb' sb']. simpl in *.
    now rewrite !app_assoc.
Qed.

Lemma feed_chars_app a : forall s b,
  feed_chars uuid4 s (a ++ b)
  = (fst (feed_chars uuid4 s a)
       ++ fst (feed_chars uuid4 (snd (feed_chars uuid4 s a)) b),
     snd (feed_chars uuid4 (snd (feed_chars uuid4 s a)) b)).
Proof.
  induction a as [|c a IH]; intros s b; simpl.
  - now destruct (feed_chars uuid4 s b).
  - destruct (step_char uuid4 s c) as [e1 s1]. rewrite IH.
    destruct (feed_chars uuid4 s1 a) as [e2 s2]; simpl.
    now rewrite app_assoc.
Qed.

Lemma set_partial_tag_Inv (s : State) : Inv s -> set_partial_tag "" s = s.
Proof. intros (Hp & _). destruct s; simpl in *; now subst. Qed.

(** One chunk against the same characters fed without the final flush. *)
Lemma call_obs chunk e1 s1 e2 s2 :
  obs_eq (e1, s1) (e2, s2) ->
  obs_eq (e1 ++ fst (call uuid4 s1 (Some chunk)),
          snd (call uuid4 s1 (Some chunk)))
         (e2 ++ fst (feed_chars uuid4 s2 (PyStr.chars chunk)),
          snd (feed_chars uuid4 s2 (PyStr.chars chunk))).
Proof.
  intros H. pose proof H as (I1 & _). simpl in I1.
  unfold call. rewrite (set_partial_tag_Inv s1 I1).
  destruct I1 as (-> & _). rewrite append_nil_l.
  pose proof (feed_obs (PyStr.chars chunk) _ _ _ _ H) as H1.
  destruct (feed_chars uuid4 s1 (PyStr.chars chunk)) as [ea sa].
  destruct (feed_chars uuid4 s2 (PyStr.chars chunk)) as [eb sb].
  simpl in *.
  pose proof H1 as (Ia & _). simpl in Ia.
  pose proof (obs_flush (e1 ++ ea) sa Ia) as H2.
  destruct (_flush_buffers sa) as [ec sc]; simpl in *.
  rewrite app_assoc.
  apply obs_eq_trans with (r2 := (e1 ++ ea, sa)); [| exact H1].
  apply obs_eq_sym, H2.
Qed.

(** Any number of chunks against their concatenation fed without any
    flush. *)
Lemma calls_obs chunks : forall e1 s1 e2 s2,
  obs_eq (e1, s1) (e2, s2) ->
  obs_eq (e1 ++ fst (calls uuid4 s1 (map Some chunks)),
          snd (calls uuid4 s1 (map Some chunks)))
         (e2 ++ fst (feed_chars uuid4 s2 (PyStr.chars (join chunks))),
          snd (feed_chars uuid4 s2 (PyStr.chars (join chunks)))).
Proof.
  induction chunks as [|ch chunks IH]; intros e1 s1 e2 s2 H.
  - simpl. now rewrite !app_nil_r.
  - change (join (ch :: chunks)) with (ch +:+ join chunks).
    rewrite chars_app, feed_chars_app.
    change (map Some (ch :: chunks)) with (Some ch :: map Some chunks).
    cbn [calls].
    pose proof (call_obs ch _ _ _ _ H) as H1.
    destruct (call uuid4 s1 (Some ch)) as [ea sa].
    destruct (feed_chars uuid4 s2 (PyStr.chars ch)) as [eb sb].
    simpl in H1. specialize (IH _ _ _ _ H1).
    destruct (calls uuid4 sa (map Some chunks)) as [ea' sa'].
    cbn [fst snd] in *.
    destruct (feed_chars uuid4 sb (PyStr.chars (join chunks))) as [eb' sb'].
    cbn [fst snd] in *.
    now rewrite !app_assoc.
Qed.

Lemma calls_app a : forall s b,
  calls uuid4 s (a ++ b)
  = (fst (calls uuid4 s a) ++ fst (calls uuid4 (snd (calls uuid4 s a)) b),
     snd (calls uuid4 (snd (calls uuid4 s a)) b)).
Proof.
  induction a as [|c a IH]; intros s b; simpl.
  - now destruct (calls uuid4 s b).
  - destruct (call uuid4 s c) as [e1 s1]. rewrite IH.
    destruct (calls uuid4 s1 a) as [e2 s2]; simpl.
    now rewrite app_assoc.
Qed.

(** At the end of the stream everything still buffered is delivered. *)
Lemma end_of_stream e s :
  Inv s ->
  text_of (e ++ fst (call uuid4 s None)) = text_of e +:+ text_buffer s
  /\ thinking_of (e ++ fst (call uuid4 s None))
     = thinking_of e +:+ thinking_buffer s.
Proof.
  destruct s as [th tl ct cp pt pp cps cid kb tb acc atag n].
  intros (Hp & Ht & Hk). rewrite text_of_app, thinking_of_app.
  unfold call, _flush_buffers; simpl in *.
  destruct kb as [|k kb], tb as [|t tb], th, tl; simpl;
    rewrite ?append_nil_r; try (split; reflexivity).
  all: try (destruct Ht; [discriminate | discriminate]).
  all: try (specialize (Hk ltac:(discriminate)); discriminate).
Qed.

Lemma Inv_reset n : Inv (reset_state n).
Proof. unfold Inv; simpl. repeat split; intros H; now elim H. Qed.

(** What a whole stream delivers, in terms of the flush-free run over
    all its characters. *)
Lemma parse_stream_spec (chunks : list string) :
  let r := feed_chars uuid4 (reset_state 0) (PyStr.chars (join chunks)) in
  text_of (parse_stream uuid4 chunks)
    = text_of (fst r) +:+ text_buffer (snd r)
  /\ thinking_of (parse_stream uuid4 chunks)
     = thinking_of (fst r) +:+ thinking_buffer (snd r).
Proof.
  intros r. unfold parse_stream. rewrite calls_app. cbn [fst].
  pose proof (calls_obs chunks [] _ [] _ (obs_eq_refl [] _ (Inv_reset 0)))
    as (I1 & _ & _ & Ht & Hk).
  cbn [fst snd app] in *. fold r in Ht, Hk.
  destruct (calls uuid4 (reset_state 0) (map Some chunks)) as [e s].
  cbn [fst snd] in *.
  change (calls uuid4 s [None])
    with (let '(ev, s1) := call uuid4 s None in (ev ++ [], s1)).
  destruct (end_of_stream e s I1) as (Et & Ek).
  destruct (call uuid4 s None) as [e' s']. cbn [fst snd] in *.
  rewrite app_nil_r, Et, Ek. auto.
Qed.

(** C2. Chunk boundary independence: however the input is split into
    chunks fed one at a time (followed by the end of stream signal),
    the concatenated contents of the Text events, and separately of the
    Thinking events, are those obtained by feeding the whole input as a
    single chunk. *)
Theorem chunk_boundary_independence (chunks : list string) :
  text_of (parse_stream uuid4 chunks)
    = text_of (parse_stream uuid4 [join chunks])
  /\ thinking_of (parse_stream uuid4 chunks)
     = thinking_of (parse_stream uuid4 [join chunks]).
Proof.
  destruct (parse_stream_spec chunks) as (T1 & K1).
  destruct (parse_stream_spec [join chunks]) as (T2 & K2).
  change (join [join chunks]) with (join chunks +:+ "") in T2, K2.
  rewrite append_nil_r in T2, K2.
  split; congruence.
Qed.

(** C8. The write-to-file example: four Tool events for the one tool
    (started, one partial per parameter, executing), exactly one of
    them with status executing, and its parameters are path = a.txt
    and content = x<y>z, the inner tag kept. *)
Theorem write_to_file_inner_tag :
  let input :=
    "<write-to-file><path>a.txt</path><content>x<y>z</content></write-to-file>" in
  let id := uuid_str uuid4 0 in
  parse_stream uuid4 [input]
    = [ tool_event "write-to-file" id started None;
        tool_event "write-to-file" id partial (Some [("path", "a.txt")]);
        tool_event "write-to-file" id partial
          (Some [("path", "a.txt"); ("content", "x<y>z")]);
        tool_event "write-to-file" id executing
          (Some [("path", "a.txt"); ("content", "x<y>z")]) ]
  /\ filter is_executing (parse_stream uuid4 [input])
     = [ tool_event "write-to-file" id executing
           (Some [("path", "a.txt"); ("content", "x<y>z")]) ].
Proof. split; vm_compute; reflexivity. Qed.

(** C9. The streaming parser records a parameter value exactly as it
    stands between the tags: surrounding white space is kept, not
    trimmed. *)
Theorem streamed_param_not_trimmed :
  filter is_executing
    (parse_stream uuid4 ["<read-file><path> a.txt </path></read-file>"])
  = [ tool_event "read-file" (uuid_str uuid4 0) executing
        (Some [("path", " a.txt ")]) ].
Proof. vm_compute; reflexivity. Qed.

End WithUuid.


End ParserProofs.

(** * Properties of the event bus *)
Module EventBusProofs.
Import EventBus.

Section Bus.
Context {Callback : Type} `{PySet Callback}.
Context {Data World : Type}.
Variable run : Callback -> Data -> World -> World * bool.

Local Abbreviation Bus := (Bus (Callback := Callback)).

Lemma invoke_all_trace (cbs : list Callback) (data : Data) (w : World) :
  fst (invoke_all run cbs data w) = cbs.
Proof.
  revert w. induction cbs as [|cb r IH]; intros w; simpl; [reflexivity|].
  destruct (run cb data w) as [w1 ?]. specialize (IH w1).
  destruct (invoke_all run r data w1). simpl in *. now rewrite IH.
Qed.

Lemma publish_trace (b : Bus) (et : EventType) (data : Data) (w : World) :
  fst (publish run b et data w) = subscribers b et.
Proof.
  unfold publish, subscribers.
  destruct (_sync_subscribers b !! et) as [s|]; simpl; [|reflexivity].
  apply invoke_all_trace.
Qed.

Lemma publish_unchanged (b b' : Bus)
    (et : EventType) (data : Data) (w : World) :
  subscribers b et = subscribers b' et ->
  publish run b et data w = publish run b' et data w.
Proof.
  unfold subscribers, publish. intros E.
  destruct (_sync_subscribers b !! et) as [s|],
           (_sync_subscribers b' !! et) as [s'|].
  - now rewrite E.
  - now rewrite E.
  - now rewrite <- E.
  - reflexivity.
Qed.

Lemma subscribers_NoDup (b : Bus) (et : EventType) :
  NoDup (subscribers b et).
Proof.
  unfold subscribers. destruct (_sync_subscribers b !! et) as [s|].
  - apply set_iter_NoDup.
  - apply NoDup_nil_2.
Qed.

Lemma subscribers_subscribe (b : Bus) (et et' : EventType)
    (cb cb' : Callback) :
  cb' ∈ subscribers (subscribe b et cb) et'
  <-> (et = et' /\ cb' = cb) \/ cb' ∈ subscribers b et'.
Proof.
  unfold subscribers, subscribe; simpl.
  destruct (decide (et = et')) as [<-|Hne].
  - rewrite lookup_insert_eq, set_iter_add.
    destruct (_sync_subscribers b !! et) as [s|] eqn:E.
    + rewrite E. simpl. tauto.
    + rewrite lookup_insert_eq. simpl. rewrite set_iter_new.
      tauto.
  - rewrite lookup_insert_ne by done.
    destruct (_sync_subscribers b !! et) as [s|] eqn:E.
    + tauto.
    + rewrite lookup_insert_ne by done. tauto.
Qed.

(** Subscribing a callback that is subscribed leaves the subscribers of
    every event type as they are. *)
Lemma subscribers_subscribe_again (b : Bus) (et et' : EventType)
    (cb : Callback) :
  cb ∈ subscribers b et ->
  subscribers (subscribe b et cb) et' = subscribers b et'.
Proof.
  unfold subscribers, subscribe; simpl.
  destruct (_sync_subscribers b !! et) as [s|] eqn:E;
    [|now rewrite elem_of_nil].
  intros Hin. destruct (decide (et = et')) as [<-|Hne].
  - rewrite lookup_insert_eq, E. simpl. now apply set_add_present.
  - now rewrite lookup_insert_ne.
Qed.

Lemma subscribers_fold (calls : list (EventType * Callback)) :
  forall (b : Bus) (et : EventType) (cb : Callback),
    cb ∈ subscribers
           (fold_left (fun b c => subscribe b (fst c) (snd c)) calls b) et
    <-> cb ∈ subscribers b et \/ (et, cb) ∈ calls.
Proof.
  induction calls as [|[e c] calls IH]; intros b et cb; simpl.
  - rewrite elem_of_nil. tauto.
  - rewrite IH, subscribers_subscribe, elem_of_cons.
    split; [intros [[[-> ->]|?]|?] | intros [?|[?|?]]]; auto.
    simplify_eq. auto.
Qed.

Lemma subscribers_subscribe_all (calls : list (EventType * Callback))
    (et : EventType) (cb : Callback) :
  cb ∈ subscribers (subscribe_all calls) et <-> (et, cb) ∈ calls.
Proof.
  unfold subscribe_all. rewrite subscribers_fold.
  unfold subscribers, new_bus; simpl. rewrite lookup_empty.
  rewrite elem_of_nil. tauto.
Qed.

(** C5, amended.  One [publish] call invokes every callback subscribed
    to the event type exactly once, however many times it was
    subscribed, in the order in which the set of the subscribers is
    iterated; and subscribing once more a callback that is subscribed
    changes nothing to what [publish] does. *)
Theorem publish_invokes_each_once (calls : list (EventType * Callback))
    (et : EventType) (data : Data) (w : World) :
  let invoked := fst (publish run (subscribe_all calls) et data w) in
  NoDup invoked
  /\ (forall cb, cb ∈ invoked <-> (et, cb) ∈ calls)
  /\ invoked = subscribers (subscribe_all calls) et
  /\ (forall et' cb,
         (et', cb) ∈ calls ->
         publish run (subscribe (subscribe_all calls) et' cb) et data w
         = publish run (subscribe_all calls) et data w).
Proof.
  cbv zeta. rewrite !publish_trace.
  split; [apply subscribers_NoDup|].
  split; [intros cb; apply subscribers_subscribe_all|].
  split; [reflexivity|].
  intros et' cb Hin. apply publish_unchanged.
  apply subscribers_subscribe_again.
  now apply subscribers_subscribe_all.
Qed.

End Bus.

(** C5 as stated fails.  Two callbacks whose hashes are 2 and 1, in a
    set that is iterated by slot as in CPython: subscribed in this
    order, they are invoked in the other. *)
Lemma publish_order_not_insertion_order :
  let cbs := [2; 1] in
  NoDup cbs
  /\ fst (publish (H := by_slot) idle
            (subscribe_all (map (fun cb => (FILE_WRITTEN, cb)) cbs))
            FILE_WRITTEN tt tt)
     = [1; 2].
Proof.
  split; [|vm_compute; reflexivity].
  apply (@bool_decide_unpack _ (NoDup_dec _)); vm_compute; exact I.
Qed.

End EventBusProofs.

(** * Properties of the file operation manager *)
Module FileOpsProofs.
Import FileOps.

Lemma mem_In (x : string) (l : list string) : mem x l = true <-> In x l.
Proof.
  unfold mem. rewrite existsb_exists. split.
  - intros (y & Hy & E). apply String.eqb_eq in E. now subst.
  - intros Hx. exists x. split; [exact Hx | apply String.eqb_refl].
Qed.

Lemma is_protected_iff (p : string) :
  _is_protected_path p = true <-> protected p.
Proof.
  unfold _is_protected_path, protected.
  destruct (mem (PyPath.normpath p) PROTECTED_FILES) eqn:E.
  - apply mem_In in E. tauto.
  - rewrite existsb_exists. split.
    + intros (part & Hin & Hp). right. exists part. split; [exact Hin|].
      destruct (negb (PyStr.truthy part) || (part =? ".")%string);
        [discriminate | now apply mem_In].
    + intros [Hf | (part & Hin & Hp)].
      * apply mem_In in Hf. congruence.
      * exists part. split; [exact Hin|].
        destruct Hp as [<- | []]. reflexivity.
Qed.

(** ** Paths without a [..] component *)

Lemma split_sep_cons (s : string) :
  exists h t, PyPath.split_sep s = h :: t.
Proof.
  induction s as [|c s (h & t & IH)]; simpl; eauto.
  destruct (Ascii.eqb c "/"); eauto. rewrite IH. eauto.
Qed.

(** Splitting distributes over a separator. *)
Lemma split_sep_app (a b : string) :
  PyPath.split_sep (a +:+ "/" +:+ b)
  = PyPath.split_sep a ++ PyPath.split_sep b.
Proof.
  induction a as [|c a IH].
  - reflexivity.
  - change (String c a +:+ "/" +:+ b) with (String c (a +:+ "/" +:+ b)).
    simpl. destruct (Ascii.eqb c "/"); rewrite IH; [reflexivity|].
    destruct (split_sep_cons a) as (h & t & ->). reflexivity.
Qed.

Lemma split_fold (t : list string) : forall h,
  PyPath.split_sep (fold_left (fun acc x => acc +:+ "/" +:+ x) t h)
  = PyPath.split_sep h ++ concat (map PyPath.split_sep t).
Proof.
  induction t as [|x t IH]; intros h; simpl.
  - now rewrite app_nil_r.
  - now rewrite IH, split_sep_app, <- app_assoc.
Qed.

(** A component that holds no separator survives joining and
    splitting again. *)
Lemma In_split_join (d : string) (l : list string) :
  PyPath.split_sep d = [d] -> In d l ->
  In d (PyPath.split_sep (PyPath.join_sep l)).
Proof.
  intros Hd Hin. destruct l as [|h t]; [destruct Hin|].
  unfold PyPath.join_sep. rewrite split_fold.
  change (In d (concat (map PyPath.split_sep (h :: t)))).
  apply in_concat. exists [d]. split; [|now left].
  rewrite <- Hd. now apply in_map.
Qed.

(** What [normpath] keeps of the components, absent any [..]. *)
Lemma norm_comps_no_dotdot (n : nat) (comps : list string) :
  forall acc, ~ In ".." comps ->
  PyPath.norm_comps n comps acc
  = rev acc
    ++ List.filter
         (fun c => negb (String.eqb c "" || String.eqb c ".")) comps.
Proof.
  induction comps as [|c comps IH]; intros acc Hn; simpl.
  - now rewrite app_nil_r.
  - assert (Hc : c <> "..") by (intros ->; apply Hn; now left).
    assert (Hr : ~ In ".." comps) by (intros Hx; apply Hn; now right).
    destruct (String.eqb c "" || String.eqb c "."); simpl.
    + now apply IH.
    + apply String.eqb_neq in Hc. rewrite Hc. simpl.
      rewrite IH by exact Hr. simpl. now rewrite <- app_assoc.
Qed.

(** A path with a protected directory name among its components, and no
    [..] component, is protected. *)
Lemma protected_component (p d : string) :
  In d PROTECTED_PATHS -> In d (PyPath.split_sep p) ->
  ~ In ".." (PyPath.split_sep p) -> protected p.
Proof.
  intros Hd Hin Hn. right. exists d. split; [|exact Hd].
  destruct Hd as [<- | []].
  unfold PyPath.normpath.
  destruct p as [|a p]; [destruct Hin as [E | []]; discriminate E|].
  cbn [PyStr.truthy negb].
  set (n := if PyStr.startswith (String a p) "/" then _ else 0).
  rewrite norm_comps_no_dotdot by exact Hn. cbn [rev app].
  set (comps := List.filter _ _).
  assert (Hc : In ".lovable" comps).
  { apply filter_In. split; [exact Hin | reflexivity]. }
  assert (Hj : In ".lovable" (PyPath.split_sep (PyPath.join_sep comps))).
  { now apply In_split_join. }
  assert (Hq : In ".lovable"
                 (PyPath.split_sep
                    match n with
                    | 0 => PyPath.join_sep comps
                    | 1 => "/" +:+ PyPath.join_sep comps
                    | _ => "//" +:+ PyPath.join_sep comps
                    end)).
  { destruct n as [|[|n]]; [exact Hj | right; exact Hj | right; right; exact Hj]. }
  destruct (match n with 0 => _ | _ => _ end) eqn:E; [|exact Hq].
  destruct Hq as [Hq | []]. discriminate Hq.
Qed.

Section Manager.
Context {T : Type} {FS : Type} `{FileSystem FS}.

(** C7, amended.  A path whose normal form is a protected file or has
    a protected directory name among its components is refused by
    [write_file], [delete_file] and [rename_file] (as source or as
    destination) with a [RuntimeError], whatever the turn state and
    the file system, and the manager, hence the change list of its
    turn, is left as it was. *)
Theorem protected_path_rejected (m : Manager (T:=T) (FS:=FS)) (fs : FS) (p : string) :
  protected p ->
  (forall text md, exists msg,
      write_file m p text md = (m, Raised (RuntimeError msg)))
  /\ (forall md, exists msg,
         delete_file m fs p md = (m, Raised (RuntimeError msg)))
  /\ (forall other md, exists msg,
         rename_file m fs p other md = (m, Raised (RuntimeError msg)))
  /\ (forall other md, exists msg,
         rename_file m fs other p md = (m, Raised (RuntimeError msg))).
Proof.
  intros Hp. apply is_protected_iff in Hp.
  unfold write_file, delete_file, rename_file.
  repeat split; intros; destruct (_current_turn m); rewrite ?Hp;
    try destruct (_is_protected_path other); eauto.
Qed.

(** C10, amended.  With a turn active and the paths not protected:
    [delete_file] on a path that does not exist raises
    [FileNotFoundError]; [rename_file] raises [FileNotFoundError] when
    the source does not exist, and [FileExistsError] when the source
    exists and the destination does too; the manager is left as it
    was in each case, and whenever one of the two raises anything.
    At commit time a delete or rename whose path is gone is passed
    over without an exception. *)
Theorem existence_checked_at_record_time (m : Manager (T:=T) (FS:=FS)) (fs : FS)
    (t : WriteTurn (T:=T)) :
  _current_turn m = Some t ->
  (forall p md,
      _is_protected_path p = false ->
      fs_exists fs (resolve_path m p) = false ->
      delete_file m fs p md
      = (m, Raised (FileNotFoundError
                      ("File not found: " +:+ resolve_path m p))))
  /\ (forall src dst md,
         _is_protected_path src = false ->
         _is_protected_path dst = false ->
         fs_exists fs (resolve_path m src) = false ->
         rename_file m fs src dst md
         = (m, Raised (FileNotFoundError
                         ("Source file not found: "
                          +:+ resolve_path m src))))
  /\ (forall src dst md,
         _is_protected_path src = false ->
         _is_protected_path dst = false ->
         fs_exists fs (resolve_path m src) = true ->
         fs_exists fs (resolve_path m dst) = true ->
         rename_file m fs src dst md
         = (m, Raised (FileExistsError
                         ("Destination file already exists: "
                          +:+ resolve_path m dst))))
  /\ (forall p md m' e,
         delete_file m fs p md = (m', Raised e) -> m' = m)
  /\ (forall src dst md m' e,
         rename_file m fs src dst md = (m', Raised e) -> m' = m)
  /\ (forall c,
         change_type c = DELETE \/
         (change_type c = RENAME /\ PyStr.truthy_opt (content c) = true) ->
         fs_exists fs (path c) = false ->
         apply_change m fs c = ([ChangeSkipped c], fs, None)).
Proof.
  intros Ht. unfold delete_file, rename_file. rewrite Ht.
  split; [|split; [|split; [|split; [|split]]]].
  - intros p md -> ->. reflexivity.
  - intros src dst md -> -> ->. reflexivity.
  - intros src dst md -> -> -> ->. reflexivity.
  - intros p md m' e.
    destruct (_is_protected_path p); [congruence|].
    destruct (fs_exists fs (resolve_path m p)); simpl; congruence.
  - intros src dst md m' e.
    destruct (_is_protected_path src); [congruence|].
    destruct (_is_protected_path dst); [congruence|].
    destruct (fs_exists fs (resolve_path m src)); simpl; [|congruence].
    destruct (fs_exists fs (resolve_path m dst)); simpl; congruence.
  - intros c [Hc | [Hc Hd]] He; unfold apply_change; rewrite Hc, ?Hd, He;
      reflexivity.
Qed.

(** ** The trace of [commit_turn] *)

Lemma pre_hooks_run_app (a b : list (Action (T:=T) (FS:=FS))) :
  pre_hooks_run (a ++ b) = pre_hooks_run a ++ pre_hooks_run b.
Proof.
  induction a as [|[[] ? ? ?| | | | |] a IH]; simpl; congruence.
Qed.

Lemma post_hooks_run_app (a b : list (Action (T:=T) (FS:=FS))) :
  post_hooks_run (a ++ b) = post_hooks_run a ++ post_hooks_run b.
Proof.
  induction a as [|[[] ? ? ?| | | | |] a IH]; simpl; congruence.
Qed.

Lemma post_hooks_saw_app (a b : list (Action (T:=T) (FS:=FS))) :
  post_hooks_saw (a ++ b) = post_hooks_saw a ++ post_hooks_saw b.
Proof.
  induction a as [|[[] ? ? ?| | | | |] a IH]; simpl; congruence.
Qed.

Lemma changes_done_app (a b : list (Action (T:=T) (FS:=FS))) :
  changes_done (a ++ b) = changes_done a ++ changes_done b.
Proof.
  induction a as [|[] a IH]; simpl; congruence.
Qed.

Ltac finish :=
  repeat split; intros; auto; try congruence; try discriminate;
  try (exfalso; simpl in *; congruence).

Ltac trace_app :=
  rewrite ?pre_hooks_run_app, ?post_hooks_run_app, ?post_hooks_saw_app,
    ?changes_done_app, ?forallb_app, ?app_nil_r.

Lemma run_hook_summary (ph : Phase) (h : Hook (T:=T) (FS:=FS)) (fs : FS)
    (t : WriteTurn (T:=T)) :
  let '(tr, t', e) := run_hook ph h fs t in
  changes t' = changes t
  /\ pre_hooks_run tr = (if is_post ph then [] else [name h])
  /\ post_hooks_run tr = (if is_post ph then [name h] else [])
  /\ post_hooks_saw tr = (if is_post ph then [fs] else [])
  /\ changes_done tr = []
  /\ forallb no_change_action tr = true
  /\ (is_post ph = false -> forallb no_post_action tr = true).
Proof.
  unfold run_hook, hook_failed, call_callback.
  destruct (func h fs t) as [res|e]; destruct (callback h) as [cb|];
    simpl; repeat destruct (cb _); destruct ph; simpl;
    repeat split; auto; discriminate.
Qed.

Lemma run_hooks_summary (ph : Phase) (select : Hook (T:=T) (FS:=FS) -> bool)
    (hooks : list (Hook (T:=T) (FS:=FS))) (fs : FS) :
  forall t : WriteTurn (T:=T),
  let '(tr, t', e) := run_hooks ph select hooks fs t in
  changes t' = changes t
  /\ changes_done tr = []
  /\ forallb no_change_action tr = true
  /\ (is_post ph = false ->
      post_hooks_run tr = [] /\ forallb no_post_action tr = true
      /\ (e = None -> pre_hooks_run tr = map name (filter select hooks)))
  /\ (is_post ph = true ->
      pre_hooks_run tr = [] /\ Forall (eq fs) (post_hooks_saw tr)
      /\ (e = None -> post_hooks_run tr = map name (filter select hooks))).
Proof.
  induction hooks as [|h hooks IH]; intros t; simpl.
  - repeat split; auto.
  - destruct (select h) eqn:Es.
    2:{ specialize (IH t). rewrite filter_cons_False by (rewrite Es; auto).
        exact IH. }
    rewrite filter_cons_True by (rewrite Es; auto).
    pose proof (run_hook_summary ph h fs t) as Hh.
    destruct (run_hook ph h fs t) as [[tr t1] e].
    destruct Hh as (C1 & P1 & Q1 & S1 & D1 & N1 & M1).
    destruct e as [x|].
    + rewrite C1, D1, N1, P1, Q1, S1.
      destruct (is_post ph); repeat split; auto; try discriminate.
    + specialize (IH t1).
      destruct (run_hooks ph select hooks fs t1) as [[tr' t2] e'].
      destruct IH as (C2 & D2 & N2 & A2 & B2).
      trace_app. rewrite C2, C1, D1, D2, N1, N2, P1, Q1, S1.
      destruct (is_post ph); simpl.
      * destruct (B2 eq_refl) as (B21 & B22 & B23).
        rewrite B21.
        repeat split; auto; try discriminate; intros; simpl;
          try (constructor; auto); try (f_equal; auto).
      * destruct (A2 eq_refl) as (A21 & A22 & A23).
        rewrite (M1 eq_refl), A22, A21.
        repeat split; auto; try discriminate; intros; simpl;
          try (f_equal; auto).
Qed.

Lemma run_concurrent_hook_summary (h : Hook (T:=T) (FS:=FS)) (fs : FS)
    (t : WriteTurn (T:=T)) :
  let tr := run_concurrent_hook h fs t in
  pre_hooks_run tr = [] /\ post_hooks_run tr = [name h]
  /\ post_hooks_saw tr = [fs] /\ changes_done tr = []
  /\ forallb no_change_action tr = true.
Proof.
  unfold run_concurrent_hook, call_callback.
  destruct (func h fs t) as [res|e]; destruct (callback h) as [cb|];
    simpl; repeat destruct (cb _); simpl; repeat split; auto.
Qed.

Lemma run_concurrent_hooks_summary (hooks : list (Hook (T:=T) (FS:=FS)))
    (fs : FS) (t : WriteTurn (T:=T)) :
  let tr := run_concurrent_hooks hooks fs t in
  pre_hooks_run tr = [] /\ post_hooks_run tr = map name hooks
  /\ Forall (eq fs) (post_hooks_saw tr) /\ changes_done tr = []
  /\ forallb no_change_action tr = true.
Proof.
  unfold run_concurrent_hooks.
  induction hooks as [|h hooks IH]; simpl; [repeat split; auto|].
  destruct IH as (I1 & I2 & I3 & I4 & I5).
  destruct (run_concurrent_hook_summary h fs t) as (J1 & J2 & J3 & J4 & J5).
  trace_app. rewrite I1, I2, I4, I5, J1, J2, J3, J4, J5.
  repeat split; auto. constructor; auto.
Qed.

Lemma publish_if_summary (m : Manager (T:=T) (FS:=FS)) et c :
  let tr := publish_if m et c in
  pre_hooks_run tr = [] /\ post_hooks_run tr = []
  /\ post_hooks_saw tr = [] /\ changes_done tr = []
  /\ forallb no_post_action tr = true.
Proof. unfold publish_if. destruct (_event_bus m); repeat split; auto. Qed.

Lemma apply_change_summary (m : Manager (T:=T) (FS:=FS)) (fs : FS) c :
  let '(tr, fs', e) := apply_change m fs c in
  pre_hooks_run tr = [] /\ post_hooks_run tr = []
  /\ post_hooks_saw tr = [] /\ forallb no_post_action tr = true
  /\ (e = None -> changes_done tr = [c]).
Proof.
  unfold apply_change, _write_and_flush_file, _ensure_parent_dirs,
    publish_if.
  destruct (change_type c), (content c) as [text|], (_event_bus m); simpl;
    repeat match goal with
      | |- context [fs_exists ?a ?b] => destruct (fs_exists a b)
      | |- context [fs_mkdir_parents ?a ?b] =>
          destruct (fs_mkdir_parents a b) as [? []]
      | |- context [fs_write ?a ?b ?x] =>
          destruct (fs_write a b x) as [? []]
      | |- context [fs_remove ?a ?b] => destruct (fs_remove a b) as [? []]
      | |- context [fs_move ?a ?b ?x] => destruct (fs_move a b x) as [? []]
      | |- context [PyStr.truthy ?a] => destruct (PyStr.truthy a)
      end; simpl; repeat split; auto; discriminate.
Qed.

Lemma apply_changes_summary (m : Manager (T:=T) (FS:=FS)) cs :
  forall fs : FS,
  let '(tr, fs', e) := apply_changes m fs cs in
  pre_hooks_run tr = [] /\ post_hooks_run tr = []
  /\ post_hooks_saw tr = [] /\ forallb no_post_action tr = true
  /\ (e = None -> changes_done tr = cs).
Proof.
  induction cs as [|c cs IH]; intros fs; simpl; [repeat split; auto|].
  pose proof (apply_change_summary m fs c) as Hc.
  destruct (apply_change m fs c) as [[tr fs1] e].
  destruct Hc as (P1 & Q1 & S1 & N1 & D1).
  destruct e as [x|]; [repeat split; auto; discriminate|].
  specialize (IH fs1).
  destruct (apply_changes m fs1 cs) as [[tr' fs2] e'].
  destruct IH as (P2 & Q2 & S2 & N2 & D2).
  trace_app. rewrite P1, P2, Q1, Q2, S1, S2, N1, N2, (D1 eq_refl).
  repeat split; auto. intros He. simpl. now rewrite D2.
Qed.

(** ** The changes of [commit_turn] *)





Lemma log_applied_changes_done (fs fs' : FS) (cs : list FileChange)
    (tr : list (Action (T:=T) (FS:=FS))) :
  log_applied fs cs tr fs' -> changes_done tr = cs.
Proof. induction 1; cbn; congruence. Qed.



Lemma run_hooks_no_raise (ph : Phase) (select : Hook (T:=T) (FS:=FS) -> bool)
    (hooks : list (Hook (T:=T) (FS:=FS))) (fs : FS) :
  (forall h cb ctx, In h hooks -> callback h = Some cb -> cb ctx = None) ->
  forall t : WriteTurn (T:=T),
    snd (run_hooks ph select hooks fs t) = None.
Proof.
  induction hooks as [|h hooks IH]; intros Hcb t; [reflexivity|].
  cbn [run_hooks]. destruct (select h).
  2:{ apply IH. intros h' cb ctx Hin. apply Hcb. now right. }
  assert (E : snd (run_hook ph h fs t) = None).
  { unfold run_hook, hook_failed, call_callback.
    destruct (callback h) as [cb|] eqn:Ecb.
    - destruct (func h fs t) as [res|e]; rewrite !(Hcb h cb _ (or_introl eq_refl) Ecb);
        reflexivity.
    - destruct (func h fs t); reflexivity. }
  destruct (run_hook ph h fs t) as [[tr t1] e]. cbn [snd] in E. subst e.
  specialize (IH (fun h' cb ctx Hin => Hcb h' cb ctx (or_intror Hin)) t1).
  destruct (run_hooks ph select hooks fs t1) as [[tr' t2] e'].
  exact IH.
Qed.


End Manager.

Import TreeFS.

Lemma protected_path_rejected_witness :
  protected ".lovable/config.json"
  /\ (forall text md, exists msg,
         write_file manager ".lovable/config.json" text md
         = (manager, Raised (RuntimeError msg))).
Proof.
  assert (Hp : protected ".lovable/config.json").
  { apply is_protected_iff. vm_compute. reflexivity. }
  split; [exact Hp|].
  exact (proj1 (protected_path_rejected manager project
                  ".lovable/config.json" Hp)).
Defined.

(** C7 as stated fails: [.lovable/../notes.txt] has the protected
    directory name as a component, and writing to it is recorded. *)
Lemma protected_component_not_rejected :
  In ".lovable" (PyPath.split_sep ".lovable/../notes.txt")
  /\ In ".lovable" PROTECTED_PATHS
  /\ snd (write_file manager ".lovable/../notes.txt" "hi" None) = Returned
  /\ length (get_pending_changes
               (fst (write_file manager ".lovable/../notes.txt" "hi" None)))
     = S (length (get_pending_changes manager)).
Proof. vm_compute. repeat split; auto. Qed.

Lemma existence_checked_at_record_time_witness :
  _current_turn manager = Some (mkWriteTurn "t1" "/w" [] ∅)
  /\ delete_file manager project "gone.ts" None
     = (manager, Raised (FileNotFoundError "File not found: /w/gone.ts")).
Proof.
  split; [reflexivity|].
  refine (proj1 (existence_checked_at_record_time manager project _ eq_refl)
            "gone.ts" None _ _); vm_compute; reflexivity.
Defined.

(** C10 as stated fails: a path that does not exist gets a
    [RuntimeError], not a [FileNotFoundError], when it is protected or
    when no turn is active; and a rename whose source is missing and
    whose destination exists gets [FileNotFoundError], not
    [FileExistsError]. *)
Lemma missing_path_other_error :
  fs_exists project (resolve_path manager ".lovable/x") = false
  /\ snd (delete_file manager project ".lovable/x" None)
     = Raised (RuntimeError "Cannot delete protected file/path: .lovable/x")
  /\ fs_exists project (resolve_path (discard_turn manager) "gone.ts")
     = false
  /\ snd (delete_file (discard_turn manager) project "gone.ts" None)
     = Raised (RuntimeError "No active turn")
  /\ fs_exists project (resolve_path manager "main.ts") = true
  /\ snd (rename_file manager project "gone.ts" "main.ts" None)
     = Raised (FileNotFoundError "Source file not found: /w/gone.ts").
Proof. vm_compute. repeat split. Qed.



End FileOpsProofs.

(** * Properties of the memory compactor *)
Module CompactorProofs.
Import Compactor.
Local Open Scope Z_scope.

Section Store.
Variable token_counter : list Message -> Z.
Variable T : Z.
Variable R : float.

Local Abbreviation count := (_count_message_tokens token_counter).
Local Abbreviation psc := (_perform_standard_compaction token_counter T R).

Lemma additive_app (pre : list Message) (m : Message) (r : list Message) :
  additive token_counter ->
  token_counter (pre ++ m :: r) - count m = token_counter (pre ++ r).
Proof.
  intros Hadd. induction pre as [|p pre IH]; simpl.
  - rewrite Hadd. lia.
  - rewrite !Hadd. lia.
Qed.

(** The eviction loop drops a prefix of the messages it is given, the
    oldest first, and stops at the target or when none is left; its
    running count is the count of what is kept. *)
Lemma evict_spec (pre rest : list Message) (target : Z) :
  additive token_counter ->
  forall (tc : Z) (rem : nat),
    tc = token_counter (pre ++ rest) ->
    let '(rest', tc', rem') := evict token_counter rest tc target rem in
    (exists k, rest' = skipn k rest)
    /\ tc' = token_counter (pre ++ rest')
    /\ (tc' <= target \/ rest' = [])
    /\ (tc <= target -> rest' = rest)
    /\ (rem' = rem + (length rest - length rest'))%nat.
Proof.
  intros Hadd. induction rest as [|m r IH]; intros tc rem Htc; simpl.
  - split; [exists 0%nat; reflexivity|]. repeat split; auto; lia.
  - destruct (Z.ltb_spec target tc) as [Hlt | Hge].
    + specialize (IH (tc - count m) (S rem)).
      rewrite Htc, additive_app in IH by exact Hadd.
      specialize (IH eq_refl).
      rewrite Htc, additive_app by exact Hadd.
      destruct (evict token_counter r (token_counter (pre ++ r)) target
                  (S rem)) as [[rest' tc'] rem'].
      destruct IH as ((k & Hk) & H2 & H3 & _ & H5).
      split; [exists (S k); exact Hk|].
      split; [exact H2|]. split; [exact H3|].
      split; [rewrite <- Htc; lia|].
      assert (length rest' <= length r)%nat.
      { rewrite Hk, length_skipn. lia. }
      simpl. lia.
    + split; [exists 0%nat; reflexivity|].
      repeat split; auto; simpl; lia.
Qed.

Lemma lrange_replace (st : Store) (key : string) (l : list Message) (n : Z) :
  lrange (set_token_count (replace_messages st key l) key n) key = l.
Proof.
  unfold lrange, set_token_count, replace_messages, backend_rpush,
    backend_delete; destruct l as [|m l]; simpl.
  - now rewrite lookup_delete_eq.
  - now rewrite lookup_insert_eq, lookup_delete_eq.
Qed.

Lemma token_counts_replace (st : Store) (key : string) (l : list Message)
    (n : Z) :
  token_counts (set_token_count (replace_messages st key l) key n) !! key
  = Some n.
Proof. unfold set_token_count; simpl. apply lookup_insert_eq. Qed.

Lemma not_primable_filter (l : list Message) :
  Forall (fun m => is_primable m = false) (_remove_primable_messages l).
Proof.
  unfold _remove_primable_messages. apply List.Forall_forall.
  intros m Hm. apply filter_In in Hm. destruct Hm as (_ & Hm).
  now destruct (is_primable m).
Qed.

(** What a compaction that goes ahead leaves in the store. *)
Lemma compaction_spec (st : Store) (key : string) (target : Z) :
  additive token_counter ->
  lrange st key <> [] ->
  T <= token_counter (lrange st key) ->
  int_mul (token_counter (lrange st key)) R = Some target ->
  let all := lrange st key in
  let f := _remove_primable_messages all in
  let st' := fst (psc st key) in
  let kept := lrange st' key in
  Forall (fun m => is_primable m = false) kept
  /\ (exists k, kept = firstn (start_index f) f
                       ++ skipn k (skipn (start_index f) f))
  /\ (token_counter f <= target -> kept = f)
  /\ (token_counter kept <= target \/ kept = firstn (start_index f) f)
  /\ token_counts st' !! key = Some (token_counter kept)
  /\ snd (psc st key)
     = Some (token_counter all, token_counter kept,
             (length all - length kept)%nat).
Proof.
  intros Hadd Hne HT Htarget. cbv zeta.
  unfold _perform_standard_compaction, _get_token_count.
  destruct (lrange st key) as [|m0 all0] eqn:Eall; [congruence|].
  set (all := m0 :: all0) in *.
  destruct (Z.ltb_spec (token_counter all) T) as [Hlt|_]; [lia|].
  set (f := _remove_primable_messages all).
  rewrite Htarget.
  assert (Hlen : (length f <= length all)%nat).
  { unfold f, _remove_primable_messages. apply filter_length_le. }
  destruct (Z.leb_spec (token_counter f) target) as [Hle|Hgt].
  - cbn [fst snd]. rewrite lrange_replace, token_counts_replace.
    split; [apply not_primable_filter|].
    split.
    { exists 0%nat. now rewrite drop_0, take_drop. }
    repeat split; auto.
  - pose proof (evict_spec (firstn (start_index f) f)
                  (skipn (start_index f) f) target Hadd
                  (token_counter f) (length all - length f)%nat) as He.
    rewrite firstn_skipn in He. specialize (He eq_refl).
    destruct (evict token_counter (skipn (start_index f) f)
                (token_counter f) target (length all - length f)%nat)
      as [[rest' tc'] rem'].
    destruct He as ((k & Hk) & H2 & H3 & H4 & H5).
    cbn [fst snd]. rewrite lrange_replace, token_counts_replace.
    split.
    { apply Forall_app. split.
      - apply Forall_take, not_primable_filter.
      - rewrite Hk. apply Forall_drop, Forall_drop, not_primable_filter. }
    split; [exists k; now rewrite Hk|].
    split; [intros; lia|].
    split.
    { destruct H3 as [H3| ->]; [left; now rewrite <- H2|].
      right. now rewrite app_nil_r. }
    split; [now rewrite H2|].
    rewrite H2, H5. repeat f_equal.
    rewrite length_app.
    assert (length rest' <= length (skipn (start_index f) f))%nat.
    { rewrite Hk, !length_skipn. lia. }
    rewrite length_firstn, length_skipn in *. lia.
Qed.

(** A compaction whose target cannot be computed raises and leaves the
    store as it is. *)
Lemma compaction_raises (st : Store) (key : string) :
  lrange st key <> [] ->
  T <= token_counter (lrange st key) ->
  int_mul (token_counter (lrange st key)) R = None ->
  psc st key = (st, None).
Proof.
  intros Hne HT Hnone.
  unfold _perform_standard_compaction, _get_token_count.
  destruct (lrange st key) as [|m0 all0] eqn:Eall; [congruence|].
  destruct (Z.ltb_spec (token_counter (m0 :: all0)) T) as [Hlt|_]; [lia|].
  now rewrite Hnone.
Qed.

Lemma should_compact_true (st : Store) (key : string) (now : Q) :
  snd (_should_compact token_counter T st key now) = true ->
  lrange (fst (_should_compact token_counter T st key now)) key
  = lrange st key
  /\ lrange st key <> []
  /\ T <= token_counter (lrange st key).
Proof.
  unfold _should_compact.
  destruct (match last_compaction_check st !! key with
            | Some last => _ | None => false end); [discriminate|].
  unfold lrange at 1; cbn [data].
  change (default [] (data st !! key)) with (lrange st key).
  destruct (lrange st key) as [|m l] eqn:E; [discriminate|].
  cbn [fst snd]. intros HT. apply Z.leb_le in HT.
  unfold lrange, set_token_count; cbn [data].
  change (default [] (data st !! key)) with (lrange st key).
  rewrite E. repeat split; auto; discriminate.
Qed.

(** C3, amended.  When a push triggers compaction, with a token
    counter that adds up per-message costs, the count of the list is at
    least the threshold and the target is [int] of that count times the
    target ratio.  With this target: the push returns; no primable
    message is left; the list kept is the list without its primable
    messages, less a run of its oldest messages after the optional
    leading system message; no other message is dropped when dropping
    the primable ones is enough; the recomputed token count of the list
    kept is at most the target, unless only the leading system
    message, or nothing, is kept; and that count is the one recorded.
    When the product has no integer value the push raises and the
    list is left whole. *)
Theorem compaction_on_push (st : Store) (key : string)
    (values : list Message) (now : Q) :
  additive token_counter ->
  snd (_should_compact token_counter T (fst (backend_rpush st key values))
         key now) = true ->
  let all := lrange st key ++ values in
  let f := _remove_primable_messages all in
  let r := rpush token_counter T R st key values now in
  let kept := lrange (fst r) key in
  T <= token_counter all
  /\ match int_mul (token_counter all) R with
     | Some target =>
         snd r = Some (length all)
         /\ Forall (fun m => is_primable m = false) kept
         /\ (exists k, kept = firstn (start_index f) f
                              ++ skipn k (skipn (start_index f) f))
         /\ (token_counter f <= target -> kept = f)
         /\ (token_counter kept <= target
             \/ kept = firstn (start_index f) f)
         /\ token_counts (fst r) !! key = Some (token_counter kept)
     | None => snd r = None /\ kept = all
     end.
Proof.
  intros Hadd Htrig. cbv zeta. unfold rpush.
  assert (Hall : lrange (fst (backend_rpush st key values)) key
                 = lrange st key ++ values).
  { unfold lrange, backend_rpush; cbn [fst data].
    now rewrite lookup_insert_eq. }
  assert (Hres : snd (backend_rpush st key values)
                 = length (lrange st key ++ values)) by reflexivity.
  destruct (backend_rpush st key values) as [st1 n]. cbn [fst snd] in *.
  subst n.
  destruct (should_compact_true st1 key now Htrig) as (H1 & H2 & H3).
  destruct (_should_compact token_counter T st1 key now) as [st2 c].
  cbn [fst snd] in *. subst c. unfold perform_compaction.
  rewrite <- H1 in H2, H3.
  split; [now rewrite <- Hall, <- H1|].
  rewrite <- Hall, <- H1.
  destruct (int_mul (token_counter (lrange st2 key)) R) as [target|] eqn:Et.
  - destruct (compaction_spec st2 key target Hadd H2 H3 Et)
      as (A & B & C & D & E & F).
    destruct (psc st2 key) as [st3 res]. cbn [fst snd] in *.
    rewrite F. cbn [option_map]. tauto.
  - rewrite (compaction_raises st2 key H2 H3 Et). cbn [fst snd option_map].
    split; reflexivity.
Qed.

End Store.

Lemma ten_each_additive : additive ten_each.
Proof.
  intros m l. unfold ten_each, _count_message_tokens, _get_token_count.
  destruct m; cbn [length]; lia.
Qed.

Lemma compaction_on_push_witness :
  let r := rpush ten_each 100 half empty_store "messages" conversation 0 in
  snd (_should_compact ten_each 100
         (fst (backend_rpush empty_store "messages" conversation))
         "messages" 0)
  = true
  /\ int_mul (ten_each conversation) half = Some 500
  /\ snd r = Some 100%nat
  /\ lrange (fst r) "messages"
     = system_message "You are a coding agent."
       :: repeat (user_message "hi") 48 ++ [user_message "thanks"]
  /\ token_counts (fst r) !! "messages" = Some 500.
Proof.
  cbv zeta.
  pose proof (compaction_on_push ten_each 100 half empty_store "messages"
                conversation 0 ten_each_additive eq_refl) as (_ & H).
  cbv zeta in H.
  change (lrange empty_store "messages" ++ conversation)
    with conversation in H.
  assert (Et : int_mul (ten_each conversation) half = Some 500)
    by (vm_compute; reflexivity).
  rewrite Et in H. destruct H as (Hr & _ & _ & _ & _ & Hc).
  assert (Hk : lrange
                 (fst (rpush ten_each 100 half empty_store "messages"
                         conversation 0)) "messages"
               = system_message "You are a coding agent."
                 :: repeat (user_message "hi") 48 ++ [user_message "thanks"])
    by (vm_compute; reflexivity).
  split; [reflexivity|]. split; [exact Et|]. split; [exact Hr|].
  split; [exact Hk|]. rewrite Hc, Hk. reflexivity.
Defined.

(** C3 as stated fails.  With threshold T = 100 and ratio R = 0.5, the
    compaction this push triggers leaves 500 tokens, while T * R plus
    the cost of one message is 60.  And with a counter that is not a
    sum of per-message costs, the count recorded is the running count
    of the loop, 496, while the list kept counts 613 tokens, above
    even the target the loop works with, 501. *)
Lemma compacted_count_above_threshold_ratio :
  let T := 100 in
  let R := half in
  (let r := rpush ten_each T R empty_store "messages" hundred 0 in
   snd (_should_compact ten_each T
          (fst (backend_rpush empty_store "messages" hundred)) "messages" 0)
   = true
   /\ ten_each (lrange (fst r) "messages") = 500
   /\ int_mul T R = Some 50
   /\ ten_each [user_message "hi"] = 10)
  /\ (let r := rpush ten_each_and_three T R empty_store "messages"
                 hundred 0 in
      snd (_should_compact ten_each_and_three T
             (fst (backend_rpush empty_store "messages" hundred))
             "messages" 0)
      = true
      /\ int_mul (ten_each_and_three hundred) R = Some 501
      /\ ten_each_and_three (lrange (fst r) "messages") = 613
      /\ token_counts (fst r) !! "messages" = Some 496
      /\ _count_message_tokens ten_each_and_three (user_message "hi") = 13).
Proof. vm_compute. repeat split. Qed.

End CompactorProofs.

(** * Properties of the orchestrator *)
Module OrchestratorProofs.
Import Parser Orchestrator.

Section WithUuid.
Variable uuid4 : nat -> ascii * string.

(** A step entered with a failure counter at four or more makes no
    call to the model, emits the diagnostic text alone, and returns
    with the task failed and both counters at zero. *)
Lemma circuit_breaker_step (fuel : nat) (env : nat -> Step) (depth : nat)
    (s : State) :
  4 <= consecutive_tool_failures s \/ 4 <= consecutive_code_failures s ->
  _recursively_process_messages uuid4 (S fuel) env depth s
  = ([TextEvent too_many_mistakes],
     set_counters 0 0
       (set_status st_failed
          (turn_call begin_turn (turn_call discard_turn s)))).
Proof.
  intros Hc. cbn [_recursively_process_messages].
  cbn [turn_call consecutive_tool_failures consecutive_code_failures].
  assert (E : Nat.leb 4 (consecutive_tool_failures s)
              || Nat.leb 4 (consecutive_code_failures s) = true).
  { apply orb_true_iff.
    destruct Hc as [Hc|Hc]; [left|right]; now apply Nat.leb_le. }
  now rewrite E.
Qed.

Lemma handle_tool_result_calls (step : Step) (req : ToolRequest)
    (s : State) :
  turn_calls (_handle_tool_result step req s) = turn_calls s
  /\ memory (_handle_tool_result step req s) = memory s.
Proof.
  unfold _handle_tool_result.
  destruct (execute step req); [|split; reflexivity].
  destruct (String.eqb (req_name req) "ask-followup-question");
    split; reflexivity.
Qed.

Lemma tool_consumer_calls (step : Step) (reqs : list ToolRequest) :
  forall s,
    turn_calls (_tool_consumer step reqs s) = turn_calls s
    /\ memory (_tool_consumer step reqs s) = memory s.
Proof.
  unfold _tool_consumer.
  induction reqs as [|req reqs IH]; intros s; simpl; [now split|].
  destruct (IH (_handle_tool_result step req s)) as (-> & ->).
  apply handle_tool_result_calls.
Qed.

Lemma stream_and_tools_calls (step : Step) (s : State) :
  turn_calls (snd (stream_and_tools uuid4 step s)) = turn_calls s
  /\ memory (snd (stream_and_tools uuid4 step s)) = memory s.
Proof.
  unfold stream_and_tools.
  destruct (Parser.calls uuid4 _ _) as [evs ps]. cbn [snd].
  destruct (tool_consumer_calls step (requests_of evs)
              (set_current_message (join (chunks step))
                 (set_uuid_calls (Parser.uuid_calls ps) s)))
    as (-> & ->).
  split; reflexivity.
Qed.

Lemma followup_question_nonempty (results : list ToolResult) (q : string) :
  followup_question results = Some q -> results <> [].
Proof. destruct results; [discriminate | discriminate]. Qed.

(** C6.  A follow-up question that resolves successfully is appended
    to the message buffer and recorded with the bare question as its
    result; and when the tool results of a step hold one, the step
    emits the streamed events and then the question as text, marks
    the task completed and returns: it stores nothing but the
    assistant message, does not call [commit_turn], emits no event for
    any tool result, keeps the results as they are and does not
    recurse. *)
Theorem followup_question_short_circuits (fuel : nat) (env : nat -> Step)
    (depth : nat) (s : State) (evs : list StreamEvent) (s1 : State)
    (question : string) :
  consecutive_tool_failures s < 4 ->
  consecutive_code_failures s < 4 ->
  prompt_ok (env depth) = true ->
  api (env depth) = ApiOk ->
  stream_and_tools uuid4 (env depth)
    (turn_call begin_turn (turn_call discard_turn s)) = (evs, s1) ->
  followup_question (tool_results s1) = Some question ->
  let r := _recursively_process_messages uuid4 (S fuel) env depth s in
  r = (evs ++ [TextEvent question],
       set_status st_completed
         (if PyStr.truthy (current_message s1)
          then remember (add_assistant_message (current_message s1)) s1
          else s1))
  /\ status (snd r) = st_completed
  /\ tool_results (snd r) = tool_results s1
  /\ turn_calls (snd r) = turn_calls s ++ [discard_turn; begin_turn]
  /\ memory (snd r)
     = memory s
       ++ (if PyStr.truthy (current_message s1)
           then [add_assistant_message (current_message s1)] else [])
  /\ (forall req st q,
         req_name req = "ask-followup-question" ->
         execute (env depth) req = inl q ->
         current_message (_handle_tool_result (env depth) req st)
         = (if PyStr.truthy (current_message st)
            then current_message st +:+ nl +:+ nl +:+ q else q)
         /\ tool_results (_handle_tool_result (env depth) req st)
            = tool_results st
              ++ [mkToolResult (req_name req) (req_id req) success
                    (Some q) None (req_params req)
                    (extra_of (env depth) req)]).
Proof.
  intros Ht Hc Hp Ha Hs Hq r.
  assert (Hr : r = (evs ++ [TextEvent question],
                    set_status st_completed
                      (if PyStr.truthy (current_message s1)
                       then remember
                              (add_assistant_message (current_message s1))
                              s1
                       else s1))).
  { unfold r. cbn [_recursively_process_messages].
    cbn [turn_call consecutive_tool_failures consecutive_code_failures].
    apply Nat.leb_gt in Ht, Hc. rewrite Ht, Hc, Hp, Ha. cbn [orb negb].
    change (mkState (status s) (current_message s) (completed_tools s)
              (failed_tools s) (tool_results s)
              (consecutive_tool_failures s) (consecutive_code_failures s)
              (memory s) ((turn_calls s ++ [discard_turn]) ++ [begin_turn])
              (uuid_calls s))
      with (turn_call begin_turn (turn_call discard_turn s)).
    rewrite Hs.
    assert (Hres : tool_results
                     (if PyStr.truthy (current_message s1)
                      then remember
                             (add_assistant_message (current_message s1))
                             s1
                      else s1) = tool_results s1).
    { destruct (PyStr.truthy (current_message s1)); reflexivity. }
    rewrite Hres.
    pose proof (followup_question_nonempty _ _ Hq) as Hne.
    destruct (tool_results s1) as [|r0 rs] eqn:E; [congruence|].
    now rewrite Hq. }
  pose proof (stream_and_tools_calls (env depth)
                (turn_call begin_turn (turn_call discard_turn s)))
    as (Htc & Hmem).
  rewrite Hs in Htc, Hmem. cbn [snd] in Htc, Hmem.
  split; [exact Hr|]. rewrite Hr. cbn [snd].
  split; [reflexivity|].
  destruct (PyStr.truthy (current_message s1));
    cbn [set_status remember tool_results turn_calls memory];
    rewrite ?Htc, ?Hmem; cbn [turn_call turn_calls memory];
    rewrite <- ?app_assoc, ?app_nil_r;
    (split; [reflexivity|]); (split; [reflexivity|]);
    (split; [reflexivity|]).
  all: intros req st q Hn He; unfold _handle_tool_result;
    rewrite He, Hn; cbn; split; reflexivity.
Qed.

End WithUuid.

Lemma followup_question_short_circuits_witness :
  let s := reset_for_new_task new_state in
  let r := stream_and_tools uuid_example question_and_write
             (turn_call begin_turn (turn_call discard_turn s)) in
  consecutive_tool_failures s < 4
  /\ followup_question (tool_results (snd r)) = Some "Which port?"
  /\ fst (_recursively_process_messages uuid_example 1
            (fun _ => question_and_write) 0 s)
     = fst r ++ [TextEvent "Which port?"].
Proof.
  cbv zeta.
  assert (Hq : followup_question
                 (tool_results
                    (snd (stream_and_tools uuid_example question_and_write
                            (turn_call begin_turn
                               (turn_call discard_turn
                                  (reset_for_new_task new_state))))))
               = Some "Which port?") by (vm_compute; reflexivity).
  split; [simpl; lia|]. split; [exact Hq|].
  pose proof (followup_question_short_circuits uuid_example 0
                (fun _ => question_and_write) 0
                (reset_for_new_task new_state) _ _ "Which port?"
                ltac:(simpl; lia) ltac:(simpl; lia) eq_refl eq_refl
                (surjective_pairing _) Hq) as (Hr & _).
  now rewrite Hr.
Defined.

(** C4.  A response that asks for four deletions of files that are not
    there: the four requests pass the validation of the parameters and
    each is recorded as a failure.  The circuit breaker trips in the
    step that follows: the diagnostic text is the last event, no fifth
    tool is dispatched and both counters are back at zero; but the step
    that made the recursive call then finds no tool result left and
    marks the task completed, so the task does not stay failed. *)
Theorem circuit_breaker_status_overwritten :
  let s0 := reset_for_new_task new_state in
  let after_tools :=
    snd (stream_and_tools uuid_example four_failed_deletes
           (turn_call begin_turn (turn_call discard_turn s0))) in
  let r := _recursively_process_messages uuid_example 5
             (fun _ => four_failed_deletes) 0 s0 in
  map (fun r => (tool r, rstatus r, error r)) (tool_results after_tools)
  = [ ("delete-file", failure,
       Some "File not found: a.ts (Error code: FILE_NOT_FOUND)");
      ("delete-file", failure,
       Some "File not found: b.ts (Error code: FILE_NOT_FOUND)");
      ("delete-file", failure,
       Some "File not found: c.ts (Error code: FILE_NOT_FOUND)");
      ("delete-file", failure,
       Some "File not found: d.ts (Error code: FILE_NOT_FOUND)") ]
  /\ Forall
       (fun r => ToolExecutor.validate_tool_params (tool r) (params r) = None)
       (tool_results after_tools)
  /\ consecutive_tool_failures after_tools = 4
  /\ List.last (fst r) (TextEvent "") = TextEvent too_many_mistakes
  /\ length (List.filter (fun e => match e with
                                   | ToolEvent _ _ executing _ _ _ _ => true
                                   | _ => false
                                   end) (fst r)) = 4
  /\ consecutive_tool_failures (snd r) = 0
  /\ consecutive_code_failures (snd r) = 0
  /\ turn_calls (snd r)
     = [discard_turn; begin_turn; commit_turn; discard_turn; begin_turn]
  /\ status (snd r) = st_completed.
Proof. vm_compute. repeat split; repeat constructor. Qed.

End OrchestratorProofs.

(** * Further properties of the streaming parser *)
Module ParserEventsProofs.
Import Parser ParserEvents ParserProofs.

Lemma tools_of_app (a b : list StreamEvent) :
  tools_of (a ++ b) = tools_of a ++ tools_of b.
Proof. apply List.filter_app. Qed.

Lemma flush_no_tools (s : State) : tools_of (fst (_flush_buffers s)) = [].
Proof.
  unfold _flush_buffers.
  destruct (PyStr.truthy (thinking_buffer s) && in_thinking_block s);
    [reflexivity|].
  destruct (PyStr.truthy (text_buffer s) && negb (in_tool_block s)
            && negb (in_thinking_block s)); reflexivity.
Qed.

Section WithUuid.
Variable uuid4 : nat -> ascii * string.

(** The tool events of one step do not depend on the buffered text. *)
Lemma step_char_tools (c : ascii) (s : State) :
  Inv s ->
  tools_of (fst (step_char uuid4 s c))
  = tools_of (fst (step_char uuid4 (strip s) c)).
Proof.
  destruct s as [th tl ct cp pt pp cps cid kb tb acc atag n].
  intros (Hp & Ht & Hk).
  simpl in *. unfold step_char; simpl.
  destruct acc; simpl.
  - destruct (_detect_possible_tag (PyStr.snoc atag c)) as [[tn pn] cl].
    destruct (PyStr.endswith_char (PyStr.snoc atag c) ">"); simpl.
    + destruct tn as [t|], pn as [p|];
        unfold handle_tag, flush_literal, _flush_buffers; simpl;
        destruct th, tl, (PyStr.truthy kb) eqn:Ekb,
          (PyStr.truthy tb) eqn:Etb; simpl;
        split_tests; buffers.
    + reflexivity.
  - destruct th, tl, (PyStr.truthy kb) eqn:Ekb, (PyStr.truthy tb) eqn:Etb;
      split_tests; buffers.
Qed.

Lemma feed_tools (cs : list ascii) : forall e1 s1 e2 s2,
  obs_eq (e1, s1) (e2, s2) ->
  tools_of (fst (feed_chars uuid4 s1 cs))
  = tools_of (fst (feed_chars uuid4 s2 cs)).
Proof.
  induction cs as [|c cs IH]; intros e1 s1 e2 s2 H; [reflexivity|].
  cbn [feed_chars].
  pose proof (obs_op _ _ _ _ _ (step_char_coherent uuid4 c) H) as H1.
  pose proof H as (I1 & I2 & Hs & _). cbn [fst snd] in I1, I2, Hs.
  pose proof (step_char_tools c s1 I1) as T1.
  pose proof (step_char_tools c s2 I2) as T2.
  rewrite Hs in T1. rewrite <- T2 in T1. clear T2.
  destruct (step_char uuid4 s1 c) as [ea sa].
  destruct (step_char uuid4 s2 c) as [eb sb]. cbn [fst snd] in *.
  specialize (IH _ _ _ _ H1).
  destruct (feed_chars uuid4 sa cs) as [ea' sa'].
  destruct (feed_chars uuid4 sb cs) as [eb' sb']. cbn [fst snd] in *.
  rewrite !tools_of_app. congruence.
Qed.

Lemma call_tools (chunk : string) e1 s1 e2 s2 :
  obs_eq (e1, s1) (e2, s2) ->
  tools_of (fst (call uuid4 s1 (Some chunk)))
  = tools_of (fst (feed_chars uuid4 s2 (PyStr.chars chunk))).
Proof.
  intros H. pose proof H as (I1 & _). cbn [fst snd] in I1.
  unfold call. rewrite (set_partial_tag_Inv s1 I1).
  destruct I1 as (-> & _). rewrite append_nil_l.
  rewrite <- (feed_tools (PyStr.chars chunk) _ _ _ _ H).
  destruct (feed_chars uuid4 s1 (PyStr.chars chunk)) as [ea sa].
  pose proof (flush_no_tools sa) as F.
  destruct (_flush_buffers sa) as [ec sc]. cbn [fst snd] in *.
  now rewrite tools_of_app, F, app_nil_r.
Qed.

Lemma calls_tools (chunks : list string) : forall e1 s1 e2 s2,
  obs_eq (e1, s1) (e2, s2) ->
  tools_of (fst (calls uuid4 s1 (map Some chunks)))
  = tools_of (fst (feed_chars uuid4 s2 (PyStr.chars (join chunks)))).
Proof.
  induction chunks as [|ch chunks IH]; intros e1 s1 e2 s2 H;
    [reflexivity|].
  change (join (ch :: chunks)) with (ch +:+ join chunks).
  rewrite chars_app, feed_chars_app.
  change (map Some (ch :: chunks)) with (Some ch :: map Some chunks).
  cbn [calls].
  pose proof (call_obs uuid4 ch _ _ _ _ H) as H1.
  pose proof (call_tools ch _ _ _ _ H) as T1.
  destruct (call uuid4 s1 (Some ch)) as [ea sa].
  destruct (feed_chars uuid4 s2 (PyStr.chars ch)) as [eb sb].
  cbn [fst snd] in *. specialize (IH _ _ _ _ H1).
  destruct (calls uuid4 sa (map Some chunks)) as [ea' sa'].
  destruct (feed_chars uuid4 sb (PyStr.chars (join chunks))) as [eb' sb'].
  cbn [fst snd] in *.
  rewrite !tools_of_app. congruence.
Qed.

(** The tool events of a stream are those of its characters fed one
    after the other with no flush in between. *)
Lemma parse_stream_tools (chunks : list string) :
  tools_of (parse_stream uuid4 chunks)
  = tools_of
      (fst (feed_chars uuid4 (reset_state 0) (PyStr.chars (join chunks)))).
Proof.
  unfold parse_stream. rewrite calls_app. cbn [fst].
  rewrite tools_of_app.
  rewrite (calls_tools chunks [] _ [] _ (obs_eq_refl [] _ (Inv_reset 0))).
  destruct (calls uuid4 (reset_state 0) (map Some chunks)) as [e s].
  cbn [fst snd calls call].
  pose proof (flush_no_tools s) as F.
  destruct (_flush_buffers s) as [ec sc]. cbn [fst snd] in *.
  now rewrite app_nil_r, F, app_nil_r.
Qed.

(** X1.  the tool events of a stream, with their names, ids, statuses and
    parameters, are the same however the stream is cut into chunks. *)
Theorem tool_events_chunk_independent (chunks : list string) :
  tools_of (parse_stream uuid4 chunks)
  = tools_of (parse_stream uuid4 [join chunks]).
Proof.
  rewrite !parse_stream_tools.
  change (join [join chunks]) with (join chunks +:+ "").
  now rewrite append_nil_r.
Qed.

(** ** The life cycle of tool events *)

Lemma track_app (t : Tracker) (a b : list StreamEvent) :
  track uuid4 t (a ++ b)
  = match track uuid4 t a with
    | Some t' => track uuid4 t' b
    | None => None
    end.
Proof.
  revert t. induction a as [|e a IH]; intros t; [reflexivity|].
  cbn [app track]. destruct (track_event uuid4 t e); [apply IH|reflexivity].
Qed.

Lemma flush_track (s : State) (t : Tracker) :
  track uuid4 t (fst (_flush_buffers s)) = Some t
  /\ tracker_of (snd (_flush_buffers s)) = tracker_of s
  /\ (tool_known s -> tool_known (snd (_flush_buffers s))).
Proof.
  unfold _flush_buffers.
  destruct (PyStr.truthy (thinking_buffer s) && in_thinking_block s);
    [destruct s; repeat split; auto|].
  destruct (PyStr.truthy (text_buffer s) && negb (in_tool_block s)
            && negb (in_thinking_block s));
    destruct s; repeat split; auto.
Qed.

(** Case analysis on the tests of one step, the reader's own tests
    being settled as they show. *)
Ltac track_tests :=
  repeat (cbn -[String.eqb uuid_str];
    rewrite ?String.eqb_refl;
    rewrite ?bool_decide_eq_true_2 by reflexivity;
    cbn -[String.eqb uuid_str];
    match goal with
    | |- context [if ?b then _ else _] => destruct b eqn:?
    | |- context [match ?x with Some _ => _ | None => _ end] =>
        destruct x eqn:?
    | |- context [let '(_, _) := ?x in _] => destruct x eqn:?
    end).

Ltac tracked :=
  unfold tracker_of, tool_known; track_tests;
  cbn -[String.eqb uuid_str];
  rewrite ?String.eqb_refl;
  rewrite ?bool_decide_eq_true_2 by reflexivity;
  cbn -[String.eqb uuid_str];
  repeat match goal with
    | H : context [(_ && false)%bool] |- _ => rewrite andb_false_r in H
    | H : context [(_ && true)%bool] |- _ => rewrite andb_true_r in H
    end;
  try discriminate; try congruence;
  try solve [ split; [reflexivity|]; intros; try discriminate;
              eauto 10 ].

Lemma step_char_track (c : ascii) (s : State) :
  tool_known s ->
  track uuid4 (tracker_of s) (fst (step_char uuid4 s c))
  = Some (tracker_of (snd (step_char uuid4 s c)))
  /\ tool_known (snd (step_char uuid4 s c)).
Proof.
  destruct s as [th tl ct cp pt pp cps cid kb tb acc atag n].
  intros K. unfold tool_known in K. cbn in K.
  unfold step_char; cbn -[String.eqb uuid_str].
  destruct acc; cbn -[String.eqb uuid_str].
  - destruct (_detect_possible_tag (PyStr.snoc atag c)) as [[tn pn] cl].
    destruct (PyStr.endswith_char (PyStr.snoc atag c) ">");
      cbn -[String.eqb uuid_str].
    + destruct tl;
        [destruct (K eq_refl) as (name & id & -> & -> & Hid); clear K|];
        destruct tn as [t|], pn as [p|];
        unfold handle_tag, flush_literal, _flush_buffers;
        cbn -[String.eqb uuid_str];
        rewrite ?Hid;
        destruct th, (PyStr.truthy kb) eqn:Ekb,
          (PyStr.truthy tb) eqn:Etb; tracked.
    + tracked.
  - destruct tl;
      [destruct (K eq_refl) as (name & id & -> & -> & Hid); clear K|];
      destruct th, (PyStr.truthy kb) eqn:Ekb, (PyStr.truthy tb) eqn:Etb;
      tracked.
Qed.

Lemma feed_chars_track (cs : list ascii) : forall s,
  tool_known s ->
  track uuid4 (tracker_of s) (fst (feed_chars uuid4 s cs))
  = Some (tracker_of (snd (feed_chars uuid4 s cs)))
  /\ tool_known (snd (feed_chars uuid4 s cs)).
Proof.
  induction cs as [|c cs IH]; intros s K; [split; [reflexivity|exact K]|].
  cbn [feed_chars].
  destruct (step_char_track c s K) as (T1 & K1).
  destruct (step_char uuid4 s c) as [ea sa]. cbn [fst snd] in *.
  destruct (IH sa K1) as (T2 & K2).
  destruct (feed_chars uuid4 sa cs) as [eb sb]. cbn [fst snd] in *.
  now rewrite track_app, T1.
Qed.

Lemma call_track (chunk : option string) (s : State) :
  tool_known s ->
  exists t,
    track uuid4 (tracker_of s) (fst (call uuid4 s chunk)) = Some t
    /\ (chunk <> None -> t = tracker_of (snd (call uuid4 s chunk)))
    /\ tool_known (snd (call uuid4 s chunk)).
Proof.
  intros K. destruct chunk as [chunk|]; cbn [call].
  - assert (K0 : tool_known (set_partial_tag "" s)) by (destruct s; exact K).
    destruct (feed_chars_track (PyStr.chars (partial_tag s +:+ chunk)) _ K0)
      as (T1 & K1).
    replace (tracker_of (set_partial_tag "" s)) with (tracker_of s) in T1
      by (destruct s; reflexivity).
    destruct (feed_chars uuid4 (set_partial_tag "" s)
                (PyStr.chars (partial_tag s +:+ chunk))) as [ea sa].
    cbn [fst snd] in *.
    destruct (flush_track sa (tracker_of sa)) as (T2 & E2 & K2).
    destruct (_flush_buffers sa) as [eb sb]. cbn [fst snd] in *.
    exists (tracker_of sb). rewrite track_app, T1, T2, E2. auto.
  - destruct (flush_track s (tracker_of s)) as (T2 & E2 & K2).
    destruct (_flush_buffers s) as [eb sb]. cbn [fst snd] in *.
    exists (tracker_of s). split; [exact T2|]. split; [congruence|].
    unfold tool_known. cbn. discriminate.
Qed.

Lemma calls_track (chunks : list string) : forall s,
  tool_known s ->
  track uuid4 (tracker_of s) (fst (calls uuid4 s (map Some chunks)))
  = Some (tracker_of (snd (calls uuid4 s (map Some chunks))))
  /\ tool_known (snd (calls uuid4 s (map Some chunks))).
Proof.
  induction chunks as [|ch chunks IH]; intros s K;
    [split; [reflexivity|exact K]|].
  cbn [map calls].
  destruct (call_track (Some ch) s K) as (t & T1 & E1 & K1).
  specialize (E1 ltac:(discriminate)). subst t.
  destruct (call uuid4 s (Some ch)) as [ea sa]. cbn [fst snd] in *.
  destruct (IH sa K1) as (T2 & K2).
  destruct (calls uuid4 sa (map Some chunks)) as [eb sb].
  cbn [fst snd] in *.
  now rewrite track_app, T1.
Qed.

(** X2.  the tool events of any stream follow the life cycle read by
    [track]: the k-th [started] event carries the k-th UUID, every
    [partial] and [executing] event carries the name and id of the latest
    [started] event, nothing follows a tool's [executing] event under
    its id, and the [executing] event carries the parameters last
    reported. *)
Theorem tool_events_follow_life_cycle (chunks : list string) :
  exists t,
    track uuid4 (mkTracker 0 None []) (parse_stream uuid4 chunks) = Some t.
Proof.
  unfold parse_stream. rewrite calls_app. cbn [fst].
  assert (K : tool_known (reset_state 0)) by (intros E; discriminate).
  destruct (calls_track chunks _ K) as (T1 & K1).
  change (tracker_of (reset_state 0)) with (mkTracker 0 None []) in T1.
  destruct (calls uuid4 (reset_state 0) (map Some chunks)) as [ea sa].
  cbn [fst snd] in *.
  destruct (call_track None sa K1) as (t & T2 & _).
  exists t. rewrite track_app, T1.
  cbn [calls]. destruct (call uuid4 sa None) as [eb sb]. cbn [fst snd] in *.
  now rewrite app_nil_r.
Qed.

(** ** Text events *)

Lemma flush_has_text (s : State) :
  forallb has_text (fst (_flush_buffers s)) = true.
Proof.
  unfold _flush_buffers.
  destruct (PyStr.truthy (thinking_buffer s)) eqn:Ek; cbn.
  - destruct (in_thinking_block s); cbn; [now rewrite Ek|].
    destruct (PyStr.truthy (text_buffer s)) eqn:Et,
      (in_tool_block s); cbn; rewrite ?Et; reflexivity.
  - destruct (PyStr.truthy (text_buffer s)) eqn:Et,
      (in_tool_block s), (in_thinking_block s); cbn; rewrite ?Et;
      reflexivity.
Qed.

Lemma step_char_has_text (c : ascii) (s : State) :
  forallb has_text (fst (step_char uuid4 s c)) = true.
Proof.
  unfold step_char.
  destruct (accumulating_tag s); [|split_tests; reflexivity].
  set (s1 := set_accumulating true _ s).
  destruct (_detect_possible_tag (accumulated_tag s1)) as [[tn pn] cl].
  destruct (PyStr.endswith_char (accumulated_tag s1) ">"); [|reflexivity].
  assert (Hh : forall cl',
             forallb has_text (fst (handle_tag uuid4 tn pn cl' s1)) = true).
  { intros cl'. unfold handle_tag.
    pose proof (flush_has_text s1) as F.
    destruct (_flush_buffers s1) as [ev sf]. cbn [fst] in F.
    destruct (opt_is tn "thinking"); [exact F|].
    destruct (PyStr.truthy_opt tn).
    - destruct (negb cl'); cbn [fst].
      + rewrite forallb_app, F. reflexivity.
      + split_tests; reflexivity.
    - split_tests; reflexivity. }
  destruct tn, pn; try reflexivity;
    match goal with
    | |- context [handle_tag uuid4 ?a ?b ?c s1] =>
        specialize (Hh c); destruct (handle_tag uuid4 a b c s1); exact Hh
    end.
Qed.

Lemma feed_chars_has_text (cs : list ascii) : forall s,
  forallb has_text (fst (feed_chars uuid4 s cs)) = true.
Proof.
  induction cs as [|c cs IH]; intros s; [reflexivity|].
  cbn [feed_chars]. pose proof (step_char_has_text c s) as H1.
  destruct (step_char uuid4 s c) as [ea sa]. specialize (IH sa).
  destruct (feed_chars uuid4 sa cs) as [eb sb]. cbn [fst] in *.
  now rewrite forallb_app, H1, IH.
Qed.

Lemma call_has_text (chunk : option string) (s : State) :
  forallb has_text (fst (call uuid4 s chunk)) = true.
Proof.
  destruct chunk as [chunk|]; cbn [call].
  - pose proof (feed_chars_has_text
                  (PyStr.chars (partial_tag s +:+ chunk))
                  (set_partial_tag "" s)) as H1.
    destruct (feed_chars uuid4 _ _) as [ea sa].
    pose proof (flush_has_text sa) as H2.
    destruct (_flush_buffers sa) as [eb sb]. cbn [fst] in *.
    now rewrite forallb_app, H1, H2.
  - pose proof (flush_has_text s) as H2.
    destruct (_flush_buffers s) as [eb sb]. exact H2.
Qed.

(** X3.  the parser never emits a [TextEvent] or a [ThinkingEvent] with an
    empty text, whatever the state it is called in and whatever it is
    fed. *)
Theorem no_empty_text_event (s : State) (chunks : list (option string)) :
  forallb has_text (fst (calls uuid4 s chunks)) = true.
Proof.
  revert s. induction chunks as [|ch chunks IH]; intros s; [reflexivity|].
  cbn [calls]. pose proof (call_has_text ch s) as H1.
  destruct (call uuid4 s ch) as [ea sa]. specialize (IH sa).
  destruct (calls uuid4 sa chunks) as [eb sb]. cbn [fst] in *.
  now rewrite forallb_app, H1, IH.
Qed.

(** ** Text with no tag in it *)

(** The state of a parser outside every block, with [tb] buffered as
    text. *)
Local Abbreviation outside tb n :=
  (mkState false false None None "" "" [] None "" tb false "" n).

Lemma snoc_append (a : string) (c : ascii) (b : string) :
  PyStr.snoc a c +:+ b = a +:+ String c b.
Proof. unfold PyStr.snoc. now rewrite append_assoc. Qed.

Lemma feed_chars_plain (text : string) : forall tb n,
  no_lt text = true ->
  feed_chars uuid4 (outside tb n) (PyStr.chars text)
  = ([], outside (tb +:+ text) n).
Proof.
  induction text as [|c text IH]; intros tb n Hn.
  - cbn. now rewrite append_nil_r.
  - unfold no_lt in Hn. cbn [PyStr.chars list_ascii_of_string forallb] in Hn.
    apply andb_prop in Hn as (Hc & Hn).
    cbn [PyStr.chars list_ascii_of_string feed_chars].
    unfold step_char. cbn.
    apply negb_true_iff in Hc. rewrite Hc.
    change (list_ascii_of_string text) with (PyStr.chars text).
    change (set_text_buffer (PyStr.snoc tb c) (outside tb n))
      with (outside (PyStr.snoc tb c) n).
    rewrite (IH _ n Hn). cbn. now rewrite snoc_append.
Qed.

Lemma call_plain (chunk : string) (n : nat) :
  no_lt chunk = true ->
  call uuid4 (outside "" n) (Some chunk)
  = (if PyStr.truthy chunk then [TextEvent chunk] else [], outside "" n).
Proof.
  intros Hn. cbn [call partial_tag]. rewrite append_nil_l.
  change (set_partial_tag "" (outside "" n)) with (outside "" n).
  rewrite (feed_chars_plain chunk "" n Hn), append_nil_l.
  unfold _flush_buffers. destruct chunk; reflexivity.
Qed.

Lemma calls_plain (chunks : list string) (n : nat) :
  forallb no_lt chunks = true ->
  calls uuid4 (outside "" n) (map Some chunks)
  = (map TextEvent (List.filter PyStr.truthy chunks), outside "" n).
Proof.
  induction chunks as [|ch chunks IH]; intros Hn; [reflexivity|].
  cbn [forallb] in Hn. apply andb_prop in Hn as (Hc & Hn).
  cbn [map calls]. rewrite (call_plain ch n Hc), (IH Hn).
  cbn [List.filter]. destruct (PyStr.truthy ch); reflexivity.
Qed.

(** X4.  chunks with no [<] in them come out as they went in: one
    [TextEvent] for each chunk that is not empty, with the text of the
    chunk, and nothing else. *)
Theorem plain_text_passes_through (chunks : list string) :
  forallb no_lt chunks = true ->
  parse_stream uuid4 chunks
  = map TextEvent (List.filter PyStr.truthy chunks).
Proof.
  intros Hn. unfold parse_stream. rewrite calls_app. cbn [fst].
  change (reset_state 0) with (outside "" 0).
  rewrite (calls_plain chunks 0 Hn). cbn. apply app_nil_r.
Qed.

Lemma endswith_snoc (a : string) (c x : ascii) :
  PyStr.endswith_char (PyStr.snoc a c) x = Ascii.eqb c x.
Proof.
  unfold PyStr.snoc. induction a as [|b a IH]; [reflexivity|].
  rewrite append_cons. cbn [PyStr.endswith_char].
  destruct (a +:+ String c "") eqn:E; [destruct a; discriminate|].
  exact IH.
Qed.

Lemma feed_chars_in_tag (text : string) : forall tb atag n,
  no_gt text = true ->
  feed_chars uuid4
    (mkState false false None None "" "" [] None "" tb true atag n)
    (PyStr.chars text)
  = ([], mkState false false None None "" "" [] None "" tb true
           (atag +:+ text) n).
Proof.
  induction text as [|c text IH]; intros tb atag n Hn.
  - cbn. now rewrite append_nil_r.
  - unfold no_gt in Hn. cbn [PyStr.chars list_ascii_of_string forallb] in Hn.
    apply andb_prop in Hn as (Hc & Hn). apply negb_true_iff in Hc.
    cbn [PyStr.chars list_ascii_of_string feed_chars].
    unfold step_char.
    cbn [accumulating_tag accumulated_tag set_accumulating].
    destruct (_detect_possible_tag (PyStr.snoc atag c)) as [[tn pn] cl].
    rewrite endswith_snoc, Hc.
    change (list_ascii_of_string text) with (PyStr.chars text).
    unfold set_accumulating.
    cbn [in_thinking_block in_tool_block current_tool current_param_name
         partial_tag partial_param current_params current_tool_id
         thinking_buffer text_buffer uuid_calls].
    rewrite (IH tb _ n Hn). cbn [app]. now rewrite snoc_append.
Qed.

(** X5.  a [<] that no [>] follows holds back everything after it, and at
    the end of the stream what was held back is dropped: of the text
    [before ++ "<" ++ after] only [before] is delivered. *)
Theorem unterminated_tag_dropped (before after : string) :
  no_lt before = true -> no_gt after = true ->
  parse_stream uuid4 [before +:+ "<" +:+ after]
  = (if PyStr.truthy before then [TextEvent before] else []).
Proof.
  intros Hb Ha. unfold parse_stream. cbn [map app calls call].
  change (reset_state 0) with (outside "" 0).
  cbn [partial_tag]. rewrite append_nil_l.
  change (set_partial_tag "" (outside "" 0)) with (outside "" 0).
  rewrite chars_app, feed_chars_app.
  rewrite (feed_chars_plain before "" 0 Hb), append_nil_l. cbn [fst snd app].
  change (PyStr.chars ("<" +:+ after)) with ("<"%char :: PyStr.chars after).
  cbn [feed_chars]. unfold step_char at 1. cbn.
  unfold set_accumulating. cbn.
  rewrite (feed_chars_in_tag after before "<" 0 Ha).
  unfold _flush_buffers. destruct before; reflexivity.
Qed.

End WithUuid.

Lemma plain_text_passes_through_witness :
  forallb no_lt ["All "; ""; "done."] = true
  /\ parse_stream Orchestrator.uuid_example ["All "; ""; "done."]
     = [TextEvent "All "; TextEvent "done."].
Proof.
  split; [reflexivity|].
  exact (plain_text_passes_through Orchestrator.uuid_example
           ["All "; ""; "done."] eq_refl).
Defined.

Lemma unterminated_tag_dropped_witness :
  no_lt "1 " = true /\ no_gt " 2" = true
  /\ parse_stream Orchestrator.uuid_example ["1 < 2"] = [TextEvent "1 "].
Proof.
  split; [reflexivity|]. split; [reflexivity|].
  exact (unterminated_tag_dropped Orchestrator.uuid_example "1 " " 2"
           eq_refl eq_refl).
Defined.

End ParserEventsProofs.

(** * Properties of unsubscribing and of asynchronous publishing *)
Module EventBusAsyncProofs.
Import EventBus EventBusAsync.

Section Bus.
Context {Callback : Type} `{PySet Callback}.
Context {Data World : Type}.
Variable run : Callback -> Data -> World -> World * bool.
Variable run_async : Callback -> Data -> World -> World * bool.

Local Abbreviation Bus := (Bus (Callback := Callback)).

Lemma subscribers_unsubscribe (b : Bus) (et et' : EventType)
    (cb cb' : Callback) :
  cb' ∈ subscribers (unsubscribe b et cb) et'
  <-> (et = et' -> cb' <> cb) /\ cb' ∈ subscribers b et'.
Proof.
  unfold subscribers, unsubscribe.
  destruct (_sync_subscribers b !! et) as [s|] eqn:E; simpl.
  - destruct (decide (et = et')) as [<-|Hne].
    + rewrite lookup_insert_eq, E, set_iter_discard. tauto.
    + rewrite lookup_insert_ne by done. tauto.
  - destruct (decide (et = et')) as [<-|Hne]; [|tauto].
    rewrite E, elem_of_nil. tauto.
Qed.

Lemma subscribers_unsubscribe_other (b : Bus) (et et' : EventType)
    (cb : Callback) :
  et <> et' \/ cb ∉ subscribers b et ->
  subscribers (unsubscribe b et cb) et' = subscribers b et'.
Proof.
  unfold subscribers, unsubscribe.
  destruct (_sync_subscribers b !! et) as [s|] eqn:E; simpl; [|reflexivity].
  destruct (decide (et = et')) as [<-|Hne].
  - intros [?|Hn]; [congruence|].
    rewrite lookup_insert_eq, E. now apply set_discard_absent.
  - intros _. now rewrite lookup_insert_ne.
Qed.

(** X6.  after [unsubscribe] the callback is no longer called for that
    event type, every other subscriber of the type still is, and the
    subscribers of the other event types are called as before;
    unsubscribing a callback that was not subscribed changes nothing
    that [publish] does. *)
Theorem unsubscribe_stops_delivery (b : Bus) (et : EventType)
    (cb : Callback) (data : Data) (w : World) :
  (forall cb',
      cb' ∈ fst (publish run (unsubscribe b et cb) et data w)
      <-> cb' <> cb /\ cb' ∈ fst (publish run b et data w))
  /\ (forall et',
         et' <> et ->
         publish run (unsubscribe b et cb) et' data w
         = publish run b et' data w)
  /\ (cb ∉ fst (publish run b et data w) ->
      publish run (unsubscribe b et cb) et data w = publish run b et data w).
Proof.
  split; [|split].
  - intros cb'. rewrite !(EventBusProofs.publish_trace run).
    rewrite subscribers_unsubscribe. tauto.
  - intros et' Hne. apply (EventBusProofs.publish_unchanged run).
    apply subscribers_unsubscribe_other. left. congruence.
  - rewrite (EventBusProofs.publish_trace run).
    intros Hn. apply (EventBusProofs.publish_unchanged run).
    apply subscribers_unsubscribe_other. now right.
Qed.

Lemma async_subscribers_subscribe (b : Bus) (et et' : EventType)
    (cb cb' : Callback) :
  cb' ∈ async_subscribers (subscribe_async b et cb) et'
  <-> (et = et' /\ cb' = cb) \/ cb' ∈ async_subscribers b et'.
Proof.
  unfold async_subscribers, subscribe_async. simpl.
  destruct (decide (et = et')) as [<-|Hne].
  - rewrite lookup_insert_eq, set_iter_add.
    destruct (_async_subscribers b !! et) as [s|] eqn:E.
    + rewrite E. simpl. tauto.
    + rewrite lookup_insert_eq. simpl. rewrite set_iter_new. tauto.
  - rewrite lookup_insert_ne by done.
    destruct (_async_subscribers b !! et) as [s|] eqn:E.
    + tauto.
    + rewrite lookup_insert_ne by done. tauto.
Qed.

Lemma async_subscribers_NoDup (b : Bus) (et : EventType) :
  NoDup (async_subscribers b et).
Proof.
  unfold async_subscribers. destruct (_async_subscribers b !! et) as [s|].
  - apply set_iter_NoDup.
  - apply NoDup_nil_2.
Qed.

Lemma publish_async_trace (b : Bus) (et : EventType) (data : Data)
    (w : World) :
  fst (publish_async run run_async b et data w)
  = map (pair Sync) (subscribers b et)
    ++ map (pair Async) (async_subscribers b et).
Proof.
  unfold publish_async.
  pose proof (EventBusProofs.publish_trace run b et data w) as Hs.
  destruct (publish run b et data w) as [tr1 w1]. simpl in Hs. subst tr1.
  unfold async_subscribers.
  destruct (_async_subscribers b !! et) as [s|]; simpl; [|reflexivity].
  pose proof (EventBusProofs.invoke_all_trace run_async (set_iter s) data w1)
    as Ha.
  destruct (invoke_all run_async (set_iter s) data w1) as [tr2 w2].
  simpl in *. now subst.
Qed.

(** X7.  [publish_async] calls every synchronous subscriber of the event
    type and then every asynchronous one, each once; [publish] never
    calls a callback registered with [subscribe_async], and registering
    one does not change what [publish] does. *)
Theorem publish_async_sync_then_async (b : Bus) (et : EventType)
    (data : Data) (w : World) :
  let tr := fst (publish_async run run_async b et data w) in
  (exists tr2,
      tr = map (pair Sync) (fst (publish run b et data w))
           ++ map (pair Async) tr2
      /\ NoDup tr2
      /\ forall cb, cb ∈ tr2 <-> cb ∈ async_subscribers b et)
  /\ NoDup tr
  /\ (forall et' cb,
         publish run (subscribe_async b et' cb) et data w
         = publish run b et data w)
  /\ (forall cb,
         (Async, cb)
         ∈ fst (publish_async run run_async (subscribe_async b et cb) et
                  data w)).
Proof.
  cbv zeta. rewrite publish_async_trace.
  rewrite (EventBusProofs.publish_trace run).
  split; [|split; [|split]].
  - exists (async_subscribers b et). split; [reflexivity|].
    split; [apply async_subscribers_NoDup|]. intros cb. reflexivity.
  - apply NoDup_app. split; [|split].
    + apply NoDup_fmap_2; [intros x y; congruence|].
      apply EventBusProofs.subscribers_NoDup.
    + intros [m cb] H1 H2.
      apply list_elem_of_fmap in H1 as (x & E1 & _).
      apply list_elem_of_fmap in H2 as (y & E2 & _). congruence.
    + apply NoDup_fmap_2; [intros x y; congruence|].
      apply async_subscribers_NoDup.
  - reflexivity.
  - intros cb. rewrite publish_async_trace. apply elem_of_app. right.
    apply list_elem_of_fmap. exists cb. split; [reflexivity|].
    apply async_subscribers_subscribe. left. now split.
Qed.

End Bus.
End EventBusAsyncProofs.

(** * Properties of the pending changes and of failing hooks *)
Module PendingChangesProofs.
Import FileOps PendingChanges FileOpsProofs.

Section Manager.
Context {T : Type}.
Context {FS : Type} `{FileSystem FS}.

Local Abbreviation Manager := (Manager (T := T) (FS := FS)).
Local Abbreviation WriteTurn := (WriteTurn (T := T)).

Lemma find_app_some {A : Type} (f : A -> bool) (l l' : list A) (x : A) :
  List.find f l = Some x -> List.find f (l ++ l') = Some x.
Proof.
  induction l as [|y l IH]; cbn; [discriminate|].
  destruct (f y); [auto|exact IH].
Qed.

Lemma find_app_none {A : Type} (f : A -> bool) (l l' : list A) :
  List.find f l = None -> List.find f (l ++ l') = List.find f l'.
Proof.
  induction l as [|y l IH]; cbn; [reflexivity|].
  destruct (f y); [discriminate|exact IH].
Qed.

Lemma pending_record (m : Manager) (t : WriteTurn) (c c' : FileChange)
    (p : string) :
  _current_turn m = Some t ->
  get_pending_file_change m p = Some c ->
  get_pending_file_change (record_change m t c') p = Some c.
Proof.
  unfold get_pending_file_change. intros -> Hf. cbn.
  now apply find_app_some.
Qed.

(** X8.  the change [get_pending_file_change] returns for a path is the
    first one recorded for it in the turn: once it returns a change,
    whatever is recorded afterwards in the same turn, a second write to
    the same path included, it goes on returning that change. *)
Theorem pending_change_is_first_recorded (m : Manager) (fs : FS)
    (p : string) (c : FileChange) :
  get_pending_file_change m p = Some c ->
  (forall q text md,
      get_pending_file_change (fst (write_file m q text md)) p = Some c)
  /\ (forall q md,
         get_pending_file_change (fst (delete_file m fs q md)) p = Some c)
  /\ (forall q q' md,
         get_pending_file_change (fst (rename_file m fs q q' md)) p = Some c)
  /\ (forall dep md,
         get_pending_file_change (fst (add_dependency m dep md)) p = Some c).
Proof.
  intros Hc.
  assert (exists t, _current_turn m = Some t) as (t & Ht).
  { unfold get_pending_file_change in Hc.
    destruct (_current_turn m); [eauto|discriminate]. }
  repeat split; intros.
  - unfold write_file. rewrite Ht.
    destruct (_is_protected_path q); cbn [fst]; [exact Hc|].
    now apply pending_record.
  - unfold delete_file. rewrite Ht.
    destruct (_is_protected_path q); cbn [fst]; [exact Hc|].
    destruct (fs_exists fs (resolve_path m q)); cbn [negb fst];
      [now apply pending_record|exact Hc].
  - unfold rename_file. rewrite Ht.
    destruct (_is_protected_path q); cbn [fst]; [exact Hc|].
    destruct (_is_protected_path q'); cbn [fst]; [exact Hc|].
    destruct (fs_exists fs (resolve_path m q)); cbn [negb fst];
      [|exact Hc].
    destruct (fs_exists fs (resolve_path m q')); cbn [fst];
      [exact Hc|now apply pending_record].
  - unfold add_dependency. rewrite Ht. cbn [fst].
    now apply pending_record.
Qed.

(** ** Hooks that fail *)

(** X9.  a pre-commit hook that raises does not stop the commit.  When no
    callback of a pre-commit hook raises, every pre-commit hook runs,
    whether the ones before it failed or not, and the changes carried out
    are those that applying the log to the file system carries out. *)
Theorem failing_pre_commit_hook_does_not_stop_commit (m : Manager) (fs : FS)
    (t : WriteTurn) :
  _current_turn m = Some t ->
  (forall h cb ctx,
      In h (_write_hooks m) -> callback h = Some cb -> cb ctx = None) ->
  let r := commit_turn m fs in
  pre_hooks_run (trace r) = map name (_write_hooks m)
  /\ changes_done (trace r)
     = changes_done (fst (fst (apply_changes m fs (changes t)))).
Proof.
  intros Ht Hcb. cbv zeta. unfold commit_turn. rewrite Ht.
  unfold commit_body.
  pose proof (run_hooks_no_raise PreCommit (fun _ => true) _ fs Hcb t) as E1.
  pose proof (run_hooks_summary PreCommit (fun _ => true) (_write_hooks m) fs t)
    as S1.
  destruct (run_hooks PreCommit (fun _ => true) (_write_hooks m) fs t)
    as [[tr1 t1] e1].
  cbn [snd] in E1. subst e1.
  destruct S1 as (C1 & D1 & _ & P1 & _).
  destruct (P1 eq_refl) as (_ & _ & P1').
  specialize (P1' eq_refl).
  assert (Hall : filter (fun _ : Hook (T:=T) (FS:=FS) => true)
                    (_write_hooks m)
                 = _write_hooks m).
  { clear. induction (_write_hooks m) as [|h l IH]; [reflexivity|].
    rewrite filter_cons_True by exact I. f_equal. exact IH. }
  cbv beta in P1'. rewrite Hall in P1'. clear Hall.
  rewrite C1.
  pose proof (apply_changes_summary m (changes t) fs) as S2.
  destruct (changes t) as [|c0 cs] eqn:Ec.
  - cbn. rewrite app_nil_r. cbn [trace]. split; [exact P1'|].
    now rewrite D1.
  - cbn [length Nat.eqb negb].
    destruct (apply_changes m fs (c0 :: cs)) as [[tr2 fs2] e2].
    destruct S2 as (A1 & _ & _ & _ & _). cbn [fst].
    destruct e2 as [x|].
    + cbn [trace]. rewrite pre_hooks_run_app, changes_done_app, P1', A1, D1.
      now rewrite app_nil_r.
    + pose proof (run_hooks_summary PostBlocking blocking
                    (_post_commit_hooks m) fs2 t1) as S3.
      destruct (run_hooks PostBlocking blocking (_post_commit_hooks m) fs2 t1)
        as [[tr3 t3] e3].
      destruct S3 as (_ & D3 & _ & _ & P3).
      destruct (P3 eq_refl) as (P3' & _).
      destruct e3 as [x|]; cbn [trace].
      * rewrite !pre_hooks_run_app, !changes_done_app, P1', A1, D1, P3', D3.
        now rewrite !app_nil_r.
      * pose proof (run_concurrent_hooks_summary
                      (filter (fun h => negb (blocking h))
                         (_post_commit_hooks m)) fs2 t3) as S4.
        cbv zeta in S4. destruct S4 as (P4 & _ & _ & D4 & _).
        rewrite !pre_hooks_run_app, !changes_done_app, P1', A1, D1, P3', D3,
          P4, D4.
        now rewrite !app_nil_r.
Qed.

(** ** Where the changes are *)

Lemma startswith_slash (a : string) :
  PyStr.startswith a "/" = true -> exists r, a = String "/" r.
Proof.
  unfold PyStr.startswith. destruct a as [|c r]; [discriminate|].
  unfold String.prefix. fold String.prefix.
  destruct (ascii_dec "/" c) as [<-|]; [eauto|discriminate].
Qed.

Lemma startswith_slash_cons (r : string) :
  PyStr.startswith (String "/" r) "/" = true.
Proof.
  unfold PyStr.startswith, String.prefix.
  destruct (ascii_dec "/" "/"); [destruct r; reflexivity|congruence].
Qed.

Lemma isabs_join (a b : string) :
  PyPath.isabs a = true -> PyPath.isabs (PyPath.join a b) = true.
Proof.
  unfold PyPath.isabs, PyPath.join. intros Ha.
  destruct (PyStr.startswith b "/") eqn:Eb; [exact Eb|].
  destruct (startswith_slash a Ha) as (r & ->).
  destruct (negb (PyStr.truthy (String "/" r))
            || PyStr.endswith_char (String "/" r) "/");
    rewrite ParserProofs.append_cons; apply startswith_slash_cons.
Qed.

Lemma isabs_normpath (p : string) :
  PyPath.isabs p = true -> PyPath.isabs (PyPath.normpath p) = true.
Proof.
  unfold PyPath.isabs. intros Hp.
  destruct (startswith_slash p Hp) as (r & ->).
  unfold PyPath.normpath. cbn [PyStr.truthy negb]. rewrite Hp.
  destruct (PyStr.startswith (String "/" r) "//"
            && negb (PyStr.startswith (String "/" r) "///")).
  - change ("//" +:+ ?x) with (String "/" ("/" +:+ x)).
    cbn [PyStr.truthy]. apply startswith_slash_cons.
  - change ("/" +:+ ?x) with (String "/" x).
    cbn [PyStr.truthy]. apply startswith_slash_cons.
Qed.

Lemma isabs_resolve_path (m : Manager) (p : string) :
  PyPath.isabs (_cwd m) = true -> PyPath.isabs (resolve_path m p) = true.
Proof.
  intros Hc. unfold resolve_path.
  destruct (PyPath.isabs p) eqn:Ep; [exact Ep|].
  now apply isabs_normpath, isabs_join.
Qed.

Lemma located_record (m : Manager) (t : WriteTurn) (c : FileChange) :
  _current_turn m = Some t ->
  forallb located (get_pending_changes m) = true ->
  located c = true ->
  forallb located (get_pending_changes (record_change m t c)) = true.
Proof.
  unfold get_pending_changes. intros -> Hl Hc. cbn.
  rewrite forallb_app, Hl. cbn. now rewrite Hc.
Qed.

(** X10.  under a manager whose working directory is absolute every
    change recorded on a file has an absolute path, a rename an absolute
    destination too, however the path was given. *)
Theorem recorded_paths_are_absolute (m : Manager) (fs : FS) :
  PyPath.isabs (_cwd m) = true ->
  forallb located (get_pending_changes m) = true ->
  (forall q text md,
      forallb located (get_pending_changes (fst (write_file m q text md)))
      = true)
  /\ (forall q md,
         forallb located (get_pending_changes (fst (delete_file m fs q md)))
         = true)
  /\ (forall q q' md,
         forallb located
           (get_pending_changes (fst (rename_file m fs q q' md)))
         = true)
  /\ (forall dep md,
         forallb located (get_pending_changes (fst (add_dependency m dep md)))
         = true).
Proof.
  intros Hc Hl.
  repeat split; intros.
  - unfold write_file. destruct (_current_turn m) as [t|] eqn:Ht; [|exact Hl].
    destruct (_is_protected_path q); cbn [fst]; [exact Hl|].
    apply located_record; auto. unfold located. cbn.
    now apply isabs_resolve_path.
  - unfold delete_file. destruct (_current_turn m) as [t|] eqn:Ht; [|exact Hl].
    destruct (_is_protected_path q); cbn [fst]; [exact Hl|].
    destruct (fs_exists fs (resolve_path m q)); cbn [negb fst]; [|exact Hl].
    apply located_record; auto. unfold located. cbn.
    now apply isabs_resolve_path.
  - unfold rename_file. destruct (_current_turn m) as [t|] eqn:Ht; [|exact Hl].
    destruct (_is_protected_path q); cbn [fst]; [exact Hl|].
    destruct (_is_protected_path q'); cbn [fst]; [exact Hl|].
    destruct (fs_exists fs (resolve_path m q)); cbn [negb fst]; [|exact Hl].
    destruct (fs_exists fs (resolve_path m q')); cbn [fst]; [exact Hl|].
    apply located_record; auto. unfold located. cbn.
    now rewrite !isabs_resolve_path.
  - unfold add_dependency.
    destruct (_current_turn m) as [t|] eqn:Ht; [|exact Hl]. cbn [fst].
    apply located_record; auto.
Qed.

(** ** Outside a turn *)

Lemma no_turn_after_commit (m : Manager) (fs : FS) :
  _current_turn (manager_after (commit_turn m fs)) = None.
Proof.
  unfold commit_turn. destruct (_current_turn m) as [t|] eqn:E.
  - destruct (commit_body m fs t) as [[tr fs1] e]. reflexivity.
  - exact E.
Qed.

(** X28.  once a turn is committed, whether [commit_turn] returns or
    raises, or discarded, the manager has no turn: every call that
    records a change raises [RuntimeError("No active turn")] and leaves
    the manager as it is, no change is pending, and [begin_turn]
    starts a turn with an empty log. *)
Theorem no_recording_outside_a_turn (m : Manager) (fs : FS) :
  Forall
    (fun m' : Manager =>
       (forall fs' p text md,
           write_file m' p text md
           = (m', Raised (RuntimeError "No active turn"))
           /\ delete_file m' fs' p md
              = (m', Raised (RuntimeError "No active turn"))
           /\ add_dependency m' p md
              = (m', Raised (RuntimeError "No active turn"))
           /\ get_pending_file_change m' p = None)
       /\ (forall fs' source_path destination_path md,
              rename_file m' fs' source_path destination_path md
              = (m', Raised (RuntimeError "No active turn")))
       /\ get_pending_changes m' = []
       /\ (forall id,
              snd (begin_turn m' id) = Returned
              /\ get_pending_changes (fst (begin_turn m' id)) = []
              /\ _current_turn (fst (begin_turn m' id))
                 = Some (mkWriteTurn id (_cwd m) [] ∅)))
    [discard_turn m; manager_after (commit_turn m fs)].
Proof.
  assert (Hcwd : _cwd (manager_after (commit_turn m fs)) = _cwd m).
  { unfold commit_turn. destruct (_current_turn m) as [t|]; [|reflexivity].
    destruct (commit_body m fs t) as [[tr fs1] e]. reflexivity. }
  pose proof (no_turn_after_commit m fs) as Hc.
  assert (Hd : _current_turn (discard_turn m) = None) by reflexivity.
  assert (Hdc : _cwd (discard_turn m) = _cwd m) by reflexivity.
  repeat constructor;
    unfold write_file, delete_file, rename_file, add_dependency,
      get_pending_file_change, get_pending_changes, begin_turn;
    rewrite ?Hc, ?Hd; cbn [fst snd set_current_turn _current_turn changes];
    rewrite ?Hcwd, ?Hdc; reflexivity.
Qed.

End Manager.

Lemma pending_change_is_first_recorded_witness :
  let m := fst (write_file TreeFS.manager "src/a.ts" "A" None) in
  let c := mkFileChange "/w/src/a.ts" WRITE (Some "A") [] in
  get_pending_file_change m "/w/src/a.ts" = Some c
  /\ get_pending_file_change (fst (write_file m "src/a.ts" "B" None))
       "/w/src/a.ts"
     = Some c.
Proof.
  split; [reflexivity|].
  exact (proj1
           (pending_change_is_first_recorded
              (fst (write_file TreeFS.manager "src/a.ts" "A" None))
              TreeFS.project "/w/src/a.ts"
              (mkFileChange "/w/src/a.ts" WRITE (Some "A") []) eq_refl)
           "src/a.ts" "B" None).
Defined.

Lemma failing_pre_commit_hook_does_not_stop_commit_witness :
  (exists t, _current_turn linted_manager = Some t)
  /\ pre_hooks_run (trace (commit_turn linted_manager TreeFS.project))
     = ["lint"; "audit"]
  /\ changes_done (trace (commit_turn linted_manager TreeFS.project))
     = [mkFileChange "/w/src/a.ts" WRITE (Some "A") []].
Proof.
  split; [eexists; reflexivity|].
  exact (failing_pre_commit_hook_does_not_stop_commit linted_manager
           TreeFS.project _ eq_refl
           ltac:(intros h cb ctx [<-|[<-|[]]]; discriminate)).
Defined.

Lemma recorded_paths_are_absolute_witness :
  PyPath.isabs (_cwd TreeFS.manager) = true
  /\ forallb located
       (get_pending_changes
          (fst (write_file TreeFS.manager "./src/../a.ts" "A" None)))
     = true.
Proof.
  split; [reflexivity|].
  exact (proj1
           (recorded_paths_are_absolute TreeFS.manager TreeFS.project
              eq_refl eq_refl)
           "./src/../a.ts" "A" None).
Defined.

End PendingChangesProofs.

(** * Pushes that do not compact *)
Module CompactorQuietProofs.
Import Compactor CompactorExamples.
Local Open Scope Z_scope.

Section Store.
Variable token_counter : list Message -> Z.
Variable T : Z.
Variable R : float.

Lemma lrange_backend_rpush (st : Store) (key : string)
    (values : list Message) :
  lrange (fst (backend_rpush st key values)) key = lrange st key ++ values.
Proof. unfold lrange, backend_rpush; cbn. now rewrite lookup_insert_eq. Qed.

Lemma should_compact_lrange (st : Store) (key : string) (now : Q) :
  lrange (fst (_should_compact token_counter T st key now)) key
  = lrange st key.
Proof.
  unfold _should_compact.
  destruct (match last_compaction_check st !! key with
            | Some last => if Qlt_le_dec (now - last) 1 then true else false
            | None => false
            end); [reflexivity|].
  unfold lrange at 2. cbn [data]. fold (lrange st key).
  destruct (lrange st key) eqn:E; cbn [fst]; exact E.
Qed.

(** X11.  a push that leaves the list below the threshold compacts
    nothing: the list is the old one followed by the values pushed, and
    the length returned is its length. *)
Theorem rpush_below_threshold_keeps_all (st : Store) (key : string)
    (values : list Message) (now : Q) :
  token_counter (lrange st key ++ values) < T ->
  lrange (fst (rpush token_counter T R st key values now)) key
  = lrange st key ++ values
  /\ snd (rpush token_counter T R st key values now)
     = Some (length (lrange st key ++ values)).
Proof.
  intros Hlt. unfold rpush.
  pose proof (lrange_backend_rpush st key values) as Hl.
  assert (Hn : snd (backend_rpush st key values)
               = length (lrange st key ++ values)) by reflexivity.
  destruct (backend_rpush st key values) as [st1 result].
  cbn [fst snd] in Hl, Hn. subst result.
  pose proof (should_compact_lrange st1 key now) as Hs.
  pose proof (CompactorProofs.should_compact_true token_counter T st1 key now)
    as Ht.
  destruct (_should_compact token_counter T st1 key now) as [st2 compact].
  cbn [fst snd] in Hs, Ht.
  destruct compact.
  - destruct (Ht eq_refl) as (_ & _ & Hge). rewrite Hl in Hge. lia.
  - cbn [fst snd]. now rewrite Hs, Hl.
Qed.

(** X12.  within one second of the last check of a key a push does not
    look at the size of the list: nothing is compacted and neither the
    time of the last check nor the recorded token count changes. *)
Theorem rpush_throttled_never_compacts (st : Store) (key : string)
    (values : list Message) (now last : Q) :
  last_compaction_check st !! key = Some last ->
  (now - last < 1)%Q ->
  let st' := fst (rpush token_counter T R st key values now) in
  lrange st' key = lrange st key ++ values
  /\ last_compaction_check st' = last_compaction_check st
  /\ token_counts st' = token_counts st.
Proof.
  intros Hlast Hq. cbv zeta. unfold rpush.
  pose proof (lrange_backend_rpush st key values) as Hl.
  assert (Hc : last_compaction_check (fst (backend_rpush st key values))
               = last_compaction_check st) by reflexivity.
  assert (Ht : token_counts (fst (backend_rpush st key values))
               = token_counts st) by reflexivity.
  destruct (backend_rpush st key values) as [st1 result].
  cbn [fst snd] in Hl, Hc, Ht.
  unfold _should_compact. rewrite Hc, Hlast.
  destruct (Qlt_le_dec (now - last) 1) as [_|Hge].
  - cbn [fst]. auto.
  - exfalso. apply (Qlt_not_le _ _ Hq Hge).
Qed.

End Store.

Lemma rpush_below_threshold_keeps_all_witness :
  ten_each (lrange empty_store "messages" ++ [user_message "hi"]) < 100
  /\ lrange
       (fst (rpush ten_each 100 half empty_store "messages"
               [user_message "hi"] 0))
       "messages"
     = [user_message "hi"].
Proof.
  split; [reflexivity|].
  exact (proj1
           (rpush_below_threshold_keeps_all ten_each 100 half empty_store
              "messages" [user_message "hi"] 0 eq_refl)).
Defined.

Lemma rpush_throttled_never_compacts_witness :
  last_compaction_check checked_store !! "messages" = Some 0%Q
  /\ ((1 # 2) - 0 < 1)%Q
  /\ lrange
       (fst (rpush ten_each 100 half checked_store "messages" hundred
               (1 # 2)))
       "messages"
     = user_message "hi" :: hundred.
Proof.
  split; [reflexivity|]. split; [reflexivity|].
  exact (proj1
           (rpush_throttled_never_compacts ten_each 100 half
              checked_store "messages" hundred (1 # 2) 0 eq_refl eq_refl)).
Defined.

End CompactorQuietProofs.

(** * Properties of the list store *)
Module ListStoreProofs.
Import ListStore.

Section Store.
Context {A : Type} `{EqDecision A}.

Local Abbreviation Data := (gmap string (list A)).

(** The whole list at [key]: [lrange] with its default bounds. *)
Local Abbreviation whole d key := (lrange d key 0 (-1)).

Lemma fold_left_cons (values l : list A) :
  fold_left (fun acc value => value :: acc) values l = rev values ++ l.
Proof.
  revert l. induction values as [|v r IH]; intros l; simpl; [reflexivity|].
  rewrite IH, <- app_assoc. reflexivity.
Qed.

Lemma slice_whole (l : list A) :
  slice l 0 (Z.of_nat (length l) + -1 + 1) = l.
Proof.
  unfold slice, slice_index.
  replace (Z.of_nat (length l) + -1 + 1)%Z with (Z.of_nat (length l)) by lia.
  destruct (Z.ltb_spec (Z.of_nat (length l)) 0); [lia|].
  simpl. rewrite Z.min_id, Z.min_l by lia.
  rewrite Z.sub_0_r, Nat2Z.id. simpl. rewrite drop_0. apply firstn_all.
Qed.

Lemma whole_lookup (d : Data) (key : string) :
  whole d key = default [] (d !! key).
Proof.
  unfold lrange. destruct (d !! key) as [l|]; [|reflexivity].
  unfold redis_bounds. simpl. apply slice_whole.
Qed.

Lemma lpush_whole (d : Data) (key : string) (values : list A) :
  whole (fst (lpush d key values)) key = rev values ++ whole d key.
Proof.
  rewrite !whole_lookup. unfold lpush. cbv zeta. cbn [fst].
  rewrite lookup_insert_eq. cbn [default].
  destruct (d !! key) as [l|]; cbn [default].
  - apply fold_left_cons.
  - now rewrite app_nil_r.
Qed.

(** X13.  [lpush] puts the values before the stored ones, the last argument
    first, whether the key was there or not, and returns the new
    length. *)
Theorem lpush_reverses_at_head (d : Data) (key : string) (values : list A) :
  whole (fst (lpush d key values)) key = rev values ++ whole d key
  /\ snd (lpush d key values) = length values + length (whole d key).
Proof.
  split; [apply lpush_whole|].
  rewrite whole_lookup. unfold lpush. cbv zeta. cbn [snd].
  destruct (d !! key) as [l|]; cbn [default].
  - rewrite fold_left_cons, length_app, length_rev. reflexivity.
  - rewrite length_rev. cbn. lia.
Qed.

(** X14.  a value pushed last at either end is the one popped from that
    end, and the pop leaves what was there before with the other values
    pushed. *)
Theorem push_then_pop (d : Data) (key : string) (values : list A) (v : A) :
  (let d1 := fst (rpush d key (values ++ [v])) in
   snd (rpop d1 key) = Some v
   /\ whole (fst (rpop d1 key)) key = whole d key ++ values)
  /\ (let d1 := fst (lpush d key (values ++ [v])) in
      snd (lpop d1 key) = Some v
      /\ whole (fst (lpop d1 key)) key = rev values ++ whole d key).
Proof.
  split; cbv zeta.
  - unfold rpush, rpop. cbv zeta. cbn [fst snd].
    rewrite lookup_insert_eq, !whole_lookup.
    rewrite app_assoc.
    destruct ((default [] (d !! key) ++ values) ++ [v]) as [|x r] eqn:E.
    + destruct (default [] (d !! key) ++ values); discriminate.
    + cbn [fst snd]. rewrite <- E, last_snoc, removelast_last.
      rewrite lookup_insert_eq. auto.
  - pose proof (lpush_whole d key (values ++ [v])) as Hl.
    rewrite !whole_lookup in Hl. rewrite rev_app_distr in Hl.
    cbn [rev app] in Hl.
    unfold lpop. rewrite !whole_lookup.
    destruct (fst (lpush d key (values ++ [v])) !! key) as [[|x r]|];
      cbn [default] in Hl; try discriminate.
    injection Hl as -> ->. cbn [fst snd]. rewrite lookup_insert_eq.
    auto.
Qed.

(** X15.  popping at either end of a key that is missing or holds the
    empty list returns nothing and leaves the store as it is. *)
Theorem pop_on_empty (d : Data) (key : string) :
  whole d key = [] ->
  lpop d key = (d, None) /\ rpop d key = (d, None).
Proof.
  rewrite whole_lookup. unfold lpop, rpop.
  destruct (d !! key) as [[|x r]|]; simpl; intros E; try discriminate; auto.
Qed.

Lemma slice_nonneg (l : list A) (s e : Z) :
  (0 <= s)%Z ->
  slice l s e
  = take (Z.to_nat (slice_index (Z.of_nat (length l)) e - s))
         (drop (Z.to_nat s) l).
Proof.
  intros Hs. unfold slice, slice_index.
  destruct (Z.ltb_spec s 0); [lia|].
  destruct (Z.le_gt_cases (Z.of_nat (length l)) s) as [Hge|Hlt].
  - rewrite (drop_ge l (Z.to_nat s)) by lia.
    rewrite (drop_ge l (Z.to_nat (Z.min s (Z.of_nat (length l))))) by lia.
    now rewrite !take_nil.
  - now rewrite (Z.min_l s) by lia.
Qed.

(** X16.  with bounds that are not negative [lrange] returns the elements
    from [start] to [end_], both included, cut at the end of the list;
    [lrange key (-k) (-1)] returns the last [k] elements. *)
Theorem lrange_bounds_inclusive (d : Data) (key : string) (l : list A)
    (start end_ k : Z) :
  d !! key = Some l ->
  (0 <= start)%Z -> (0 <= end_)%Z -> (0 < k)%Z ->
  lrange d key start end_
  = take (Z.to_nat (end_ + 1 - start)) (drop (Z.to_nat start) l)
  /\ lrange d key (-k) (-1) = drop (length l - Z.to_nat k) l.
Proof.
  intros Hd Hs He Hk. unfold lrange. rewrite Hd. unfold redis_bounds.
  destruct (Z.ltb_spec start 0); [lia|].
  destruct (Z.ltb_spec end_ 0); [lia|].
  destruct (Z.ltb_spec (-k) 0); [|lia].
  change (-1 <? 0)%Z with true. cbv iota.
  split.
  - rewrite slice_nonneg by lia. unfold slice_index.
    destruct (Z.ltb_spec (end_ + 1) 0); [lia|].
    destruct (Z.le_gt_cases (Z.of_nat (length l)) start) as [Hge|Hlt].
    + rewrite (drop_ge l (Z.to_nat start)) by lia.
      now rewrite !take_nil.
    + destruct (Z.le_gt_cases (end_ + 1) (Z.of_nat (length l))).
      * rewrite Z.min_l by lia. reflexivity.
      * rewrite Z.min_r by lia.
        rewrite !take_ge; auto; rewrite length_drop; lia.
  - rewrite slice_nonneg by lia. unfold slice_index.
    destruct (Z.ltb_spec (Z.of_nat (length l) + -1 + 1) 0); [lia|].
    replace (Z.to_nat (Z.max (Z.of_nat (length l) + - k) 0))
      with (length l - Z.to_nat k) by lia.
    apply take_ge. rewrite length_drop. lia.
Qed.

(** X17.  after [ltrim] the whole list is what [lrange] gave for the same
    bounds before. *)
Theorem ltrim_keeps_lrange (d : Data) (key : string) (start end_ : Z) :
  whole (fst (ltrim d key start end_)) key = lrange d key start end_.
Proof.
  rewrite whole_lookup. unfold ltrim, lrange.
  destruct (d !! key) as [l|] eqn:E.
  - destruct (redis_bounds l start end_) as [s e]. cbn [fst].
    now rewrite lookup_insert_eq.
  - cbn [fst]. now rewrite E.
Qed.

(** ** [lrem] *)

Lemma remove_first_nil (n : nat) (v : A) : remove_first n v [] = [].
Proof. destruct n; reflexivity. Qed.

Lemma remove_first_0 (v : A) (l : list A) : remove_first 0 v l = l.
Proof. destruct l; reflexivity. Qed.

Lemma remove_first_length (n : nat) (v : A) (l : list A) :
  length (remove_first n v l) <= length l.
Proof.
  revert n. induction l as [|x r IH]; intros n.
  - rewrite remove_first_nil. lia.
  - destruct n; simpl; [lia|].
    destruct (decide (x = v)); simpl.
    + specialize (IH n). lia.
    + specialize (IH (S n)). lia.
Qed.

Lemma remove_first_sublist (n : nat) (v : A) (l : list A) :
  sublist (remove_first n v l) l.
Proof.
  revert n. induction l as [|x r IH]; intros n.
  - rewrite remove_first_nil. constructor.
  - destruct n; simpl; [reflexivity|].
    destruct (decide (x = v)).
    + apply sublist_cons, IH.
    + apply sublist_skip, IH.
Qed.

Lemma remove_first_others (n : nat) (v : A) (l : list A) :
  List.filter (fun x => negb (bool_decide (x = v))) (remove_first n v l)
  = List.filter (fun x => negb (bool_decide (x = v))) l.
Proof.
  revert n. induction l as [|x r IH]; intros n.
  - now rewrite remove_first_nil.
  - destruct n; simpl; [reflexivity|].
    destruct (decide (x = v)) as [->|Hne].
    + rewrite bool_decide_eq_true_2 by reflexivity. simpl. apply IH.
    + simpl. rewrite bool_decide_eq_false_2 by assumption. simpl.
      now rewrite IH.
Qed.

Lemma remove_first_count (n : nat) (v : A) (l : list A) :
  length l - length (remove_first n v l) = Nat.min n (occurrences v l).
Proof.
  unfold occurrences. revert n. induction l as [|x r IH]; intros n.
  - rewrite remove_first_nil. simpl. lia.
  - destruct n; [simpl; lia|].
    cbn [remove_first List.filter].
    destruct (decide (x = v)) as [->|Hne].
    + rewrite bool_decide_eq_true_2 by reflexivity. cbn [length].
      specialize (IH n).
      pose proof (remove_first_length n v r). lia.
    + rewrite bool_decide_eq_false_2 by assumption. cbn [length].
      specialize (IH (S n)).
      pose proof (remove_first_length (S n) v r). lia.
Qed.

Lemma filter_count (v : A) (l : list A) :
  length l
  - length (List.filter (fun x => negb (bool_decide (x = v))) l)
  = occurrences v l.
Proof.
  unfold occurrences. induction l as [|x r IH]; simpl; [reflexivity|].
  destruct (bool_decide (x = v)); simpl.
  - pose proof (List.filter_length_le
                  (fun x => negb (bool_decide (x = v))) r). lia.
  - exact IH.
Qed.

Lemma head_loop_spec (v : A) (count fuel : nat) :
  forall (l : list A) (i removed : nat),
    i <= length l -> length l - i <= fuel ->
    lrem_head_loop fuel v l i removed count
    = (take i l ++ remove_first (count - removed) v (drop i l),
       removed
       + (length (drop i l)
          - length (remove_first (count - removed) v (drop i l)))).
Proof.
  induction fuel as [|fuel IH]; intros l i removed Hi Hf.
  - simpl. rewrite drop_ge, remove_first_nil, app_nil_r, take_ge by lia.
    simpl. f_equal. lia.
  - simpl. destruct (Nat.ltb_spec i (length l)) as [Hlt|Hge]; simpl.
    2:{ rewrite drop_ge, remove_first_nil, app_nil_r, take_ge by lia.
        simpl. f_equal. lia. }
    destruct (Nat.ltb_spec removed count) as [Hr|Hr].
    2:{ replace (count - removed) with 0 by lia.
        rewrite remove_first_0, take_drop. f_equal. lia. }
    destruct (lookup_lt_is_Some_2 l i Hlt) as [x Hx].
    rewrite (drop_S l x i Hx).
    replace (count - removed) with (S (count - S removed)) by lia.
    simpl remove_first.
    destruct (decide (l !! i = Some v)) as [Hv|Hv].
    + assert (x = v) by congruence. subst x.
      destruct (decide (v = v)); [|congruence].
      rewrite IH;
        [|rewrite length_delete by eauto; lia
         |rewrite length_delete by eauto; lia].
      rewrite !(delete_take_drop l i).
      rewrite (take_app_length' (take i l)) by (rewrite length_take; lia).
      rewrite (drop_app_length' (take i l)) by (rewrite length_take; lia).
      f_equal. cbn [length].
      pose proof (remove_first_length (count - S removed) v (drop (S i) l)).
      lia.
    + destruct (decide (x = v)) as [->|Hne]; [congruence|].
      rewrite IH by lia.
      rewrite (take_S_r l i x Hx), <- app_assoc. simpl.
      replace (S (count - S removed)) with (count - removed) by lia.
      f_equal.
Qed.

Lemma tail_loop_spec (v : A) (count n : nat) :
  forall (l : list A) (removed : nat),
    n <= length l ->
    lrem_tail_loop n v l removed count
    = (rev (remove_first (count - removed) v (rev (take n l))) ++ drop n l,
       removed
       + (n - length (remove_first (count - removed) v (rev (take n l))))).
Proof.
  induction n as [|i IH]; intros l removed Hn.
  - cbn [lrem_tail_loop take rev]. rewrite remove_first_nil, drop_0.
    cbn [rev app length]. f_equal. lia.
  - cbn [lrem_tail_loop].
    destruct (Nat.ltb_spec removed count) as [Hr|Hr].
    2:{ replace (count - removed) with 0 by lia.
        rewrite remove_first_0, rev_involutive, take_drop, length_rev,
          length_take.
        f_equal. lia. }
    destruct (lookup_lt_is_Some_2 l i ltac:(lia)) as [x Hx].
    rewrite (take_S_r l i x Hx), rev_app_distr. cbn [rev app].
    replace (count - removed) with (S (count - S removed)) by lia.
    cbn [remove_first].
    destruct (decide (l !! i = Some v)) as [Hv|Hv].
    + assert (x = v) by congruence. subst x.
      destruct (decide (v = v)); [|congruence].
      rewrite IH by (rewrite length_delete by eauto; lia).
      rewrite !(delete_take_drop l i).
      rewrite (take_app_length' (take i l)) by (rewrite length_take; lia).
      rewrite (drop_app_length' (take i l)) by (rewrite length_take; lia).
      f_equal.
      pose proof (remove_first_length (count - S removed) v (rev (take i l))).
      rewrite length_rev, length_take in H. lia.
    + destruct (decide (x = v)) as [->|Hne]; [congruence|].
      rewrite IH by lia.
      replace (S (count - S removed)) with (count - removed) by lia.
      cbn [rev length]. rewrite <- app_assoc. cbn [app].
      now rewrite (drop_S l x i Hx).
Qed.

Lemma lrem_list_positive (l : list A) (v : A) (n : positive) :
  lrem_list l v (Z.pos n)
  = (remove_first (Pos.to_nat n) v l,
     length l - length (remove_first (Pos.to_nat n) v l)).
Proof.
  unfold lrem_list. cbn [Z.eqb Z.ltb Z.compare]. cbv iota.
  rewrite head_loop_spec by lia.
  rewrite take_0, drop_0, Nat.sub_0_r. reflexivity.
Qed.

Lemma lrem_list_negative (l : list A) (v : A) (n : positive) :
  lrem_list l v (Z.neg n)
  = (rev (remove_first (Pos.to_nat n) v (rev l)),
     length l - length (remove_first (Pos.to_nat n) v (rev l))).
Proof.
  unfold lrem_list. cbn [Z.eqb Z.ltb Z.compare]. cbv iota.
  rewrite tail_loop_spec by lia.
  rewrite firstn_all, drop_all, app_nil_r, Nat.sub_0_r. f_equal.
Qed.

(** X18.  [lrem] with a positive count takes out the first [count]
    elements equal to the value, and with a negative count it does on
    the list what the positive count does on the list read backwards:
    the last [count] such elements go. *)
Theorem lrem_direction (l : list A) (v : A) (n : positive) :
  fst (lrem_list l v (Z.pos n)) = remove_first (Pos.to_nat n) v l
  /\ fst (lrem_list l v (Z.neg n))
     = rev (fst (lrem_list (rev l) v (Z.pos n)))
  /\ snd (lrem_list l v (Z.neg n)) = snd (lrem_list (rev l) v (Z.pos n)).
Proof.
  rewrite !lrem_list_positive, lrem_list_negative. cbn [fst snd].
  rewrite length_rev. auto.
Qed.

Lemma List_filter_sublist (f : A -> bool) (l : list A) :
  sublist (List.filter f l) l.
Proof.
  induction l as [|x r IH]; [constructor|]. cbn [List.filter].
  destruct (f x); [apply sublist_skip|apply sublist_cons]; exact IH.
Qed.

Lemma List_filter_twice (f : A -> bool) (l : list A) :
  List.filter f (List.filter f l) = List.filter f l.
Proof.
  induction l as [|x r IH]; [reflexivity|]. cbn [List.filter].
  destruct (f x) eqn:E; [|exact IH]. cbn [List.filter]. now rewrite E, IH.
Qed.

Lemma sublist_rev (l1 l2 : list A) :
  sublist l1 l2 -> sublist (rev l1) (rev l2).
Proof.
  induction 1 as [|x l1 l2 _ IH|x l1 l2 _ IH]; cbn [rev].
  - constructor.
  - apply sublist_app; [exact IH|reflexivity].
  - apply sublist_inserts_r, IH.
Qed.

Lemma occurrences_rev (v : A) (l : list A) :
  occurrences v (rev l) = occurrences v l.
Proof.
  unfold occurrences. induction l as [|x r IH]; [reflexivity|].
  cbn [rev]. rewrite List.filter_app, length_app, IH. cbn [List.filter].
  destruct (bool_decide (x = v)); cbn [length]; lia.
Qed.

Lemma filter_rev (f : A -> bool) (l : list A) :
  List.filter f (rev l) = rev (List.filter f l).
Proof.
  induction l as [|x r IH]; [reflexivity|].
  cbn [rev List.filter]. rewrite List.filter_app, IH. cbn [List.filter].
  destruct (f x); cbn [rev]; [reflexivity|apply app_nil_r].
Qed.

(** X19.  whatever the count, [lrem] only takes elements equal to the
    value out of the stored list: what it leaves is a sublist in the
    same order that keeps every other element; it returns the number of
    elements taken out, which is the number of occurrences for a count
    of zero and at most the size of the count otherwise; a missing key
    gives zero. *)
Theorem lrem_removes_only_value (d : Data) (key : string) (v : A)
    (count : Z) :
  let old := whole d key in
  let new := whole (fst (lrem d key v count)) key in
  let removed := snd (lrem d key v count) in
  sublist new old
  /\ List.filter (fun x => negb (bool_decide (x = v))) new
     = List.filter (fun x => negb (bool_decide (x = v))) old
  /\ removed = length old - length new
  /\ removed
     = (if (count =? 0)%Z then occurrences v old
        else Nat.min (Z.abs_nat count) (occurrences v old)).
Proof.
  cbv zeta. rewrite !whole_lookup. unfold lrem.
  destruct (d !! key) as [l|] eqn:E.
  2:{ cbn [fst snd]. rewrite E. cbn [default].
      repeat split; try reflexivity.
      unfold occurrences. simpl. destruct (count =? 0)%Z; lia. }
  destruct (lrem_list l v count) as [l' removed] eqn:El.
  cbn [fst snd default]. rewrite lookup_insert_eq. cbn [default].
  unfold id.
  destruct count as [|n|n].
  - unfold lrem_list in El. cbn [Z.eqb] in El. injection El as <- <-.
    repeat split.
    + apply List_filter_sublist.
    + apply List_filter_twice.
    + cbn [Z.eqb]. apply filter_count.
  - rewrite lrem_list_positive in El. injection El as <- <-.
    repeat split.
    + apply remove_first_sublist.
    + apply remove_first_others.
    + cbn [Z.eqb]. rewrite remove_first_count.
      now rewrite Zabs2Nat.inj_pos.
  - rewrite lrem_list_negative in El. injection El as <- <-.
    repeat split.
    + rewrite <- (rev_involutive l) at 2.
      apply sublist_rev, remove_first_sublist.
    + unfold id.
      now rewrite filter_rev, remove_first_others, filter_rev, rev_involutive.
    + now rewrite length_rev.
    + cbn [Z.eqb]. rewrite <- (length_rev l) at 1.
      rewrite remove_first_count, occurrences_rev.
      now rewrite Zabs2Nat.inj_neg.
Qed.

(** X20.  [lclear] empties the list and keeps the key, [delete] drops the
    key: both leave nothing to read, and only after [lclear] does a
    [delete] still find the key. *)
Theorem lclear_keeps_key (d : Data) (key : string) (l : list A) :
  d !! key = Some l ->
  whole (fst (lclear d key)) key = []
  /\ whole (fst (delete_key d key)) key = []
  /\ snd (delete_key (fst (lclear d key)) key) = true
  /\ snd (delete_key (fst (delete_key d key)) key) = false
  /\ snd (lclear (fst (delete_key d key)) key) = false.
Proof.
  intros E. rewrite !whole_lookup. unfold lclear, delete_key. rewrite E.
  cbn [fst snd]. rewrite lookup_insert_eq, lookup_delete_eq. auto.
Qed.

End Store.

Lemma pop_on_empty_witness :
  lrange (∅ : gmap string (list nat)) "k" 0 (-1) = []
  /\ lpop (∅ : gmap string (list nat)) "k" = (∅, None).
Proof.
  split; [reflexivity|].
  exact (proj1 (pop_on_empty (A := nat) ∅ "k" eq_refl)).
Defined.

Lemma lrange_bounds_inclusive_witness :
  sample !! "k" = Some [1; 2; 3; 2; 1]
  /\ lrange sample "k" 1 2 = [2; 3]
  /\ lrange sample "k" (-2) (-1) = [2; 1].
Proof.
  split; [reflexivity|].
  exact (lrange_bounds_inclusive sample "k" [1; 2; 3; 2; 1] 1 2 2 eq_refl
           ltac:(lia) ltac:(lia) ltac:(lia)).
Defined.

Lemma lclear_keeps_key_witness :
  sample !! "k" = Some [1; 2; 3; 2; 1]
  /\ snd (delete_key (fst (lclear sample "k")) "k") = true
  /\ snd (delete_key (fst (delete_key sample "k")) "k") = false.
Proof.
  split; [reflexivity|].
  destruct (lclear_keeps_key sample "k" [1; 2; 3; 2; 1] eq_refl)
    as (_ & _ & H1 & H2 & _).
  exact (conj H1 H2).
Defined.

End ListStoreProofs.

(** * Properties of the parameter validation *)
Module ToolExecutorProofs.
Import Parser ToolExecutor.

Lemma check_required_none (tool : string) (params : dict)
    (required : list string) :
  check_required tool params required = None
  <-> Forall (fun param =>
                exists value,
                  dict_get params param = Some value /\ value <> "")
        required.
Proof.
  induction required as [|param r IH]; cbn.
  - split; [constructor|reflexivity].
  - destruct (dict_get params param) as [value|] eqn:E.
    + destruct value as [|c v]; cbn.
      * split; [discriminate|]. intros Hf. inversion Hf as [|? ? (x & Hx & Hn)].
        congruence.
      * rewrite IH. split.
        -- intros Hf. constructor; [|exact Hf].
           exists (String c v). split; [exact E|discriminate].
        -- intros Hf. now inversion Hf.
    + split; [discriminate|]. intros Hf.
      inversion Hf as [|? ? (x & Hx & _)]. congruence.
Qed.

Lemma check_paths_none (tool : string) (params : dict)
    (names : list string) :
  check_paths tool params names = None
  <-> Forall (fun param =>
                forall value,
                  dict_get params param = Some value ->
                  PyPath.isabs value = false)
        names.
Proof.
  induction names as [|param r IH]; cbn.
  - split; [constructor|reflexivity].
  - destruct (dict_get params param) as [value|] eqn:E.
    + destruct (PyPath.isabs value) eqn:Ea.
      * split; [discriminate|]. intros Hf. inversion Hf as [|? ? Hx].
        specialize (Hx _ E). congruence.
      * rewrite IH. split.
        -- intros Hf. constructor; [|exact Hf]. intros v Hv. congruence.
        -- intros Hf. now inversion Hf.
    + rewrite IH. split.
      * intros Hf. constructor; [|exact Hf]. intros v Hv. congruence.
      * intros Hf. now inversion Hf.
Qed.

Lemma check_required_tool (tool : string) (params : dict)
    (required : list string) (e : ToolError) :
  check_required tool params required = Some e ->
  tool_name e = tool
  /\ (error_code e = "MISSING_PARAM" \/ error_code e = "INVALID_PARAM").
Proof.
  induction required as [|param r IH]; cbn; [discriminate|].
  destruct (dict_get params param) as [value|].
  - destruct (negb (PyStr.truthy value)); [|exact IH].
    intros [= <-]. cbn. auto.
  - intros [= <-]. cbn. auto.
Qed.

Lemma check_paths_tool (tool : string) (params : dict)
    (names : list string) (e : ToolError) :
  check_paths tool params names = Some e ->
  tool_name e = tool /\ error_code e = "INVALID_PATH".
Proof.
  induction names as [|param r IH]; cbn; [discriminate|].
  destruct (dict_get params param) as [value|]; [|exact IH].
  destruct (PyPath.isabs value); [|exact IH].
  intros [= <-]. cbn. auto.
Qed.

(** X21.  the parameters of a tool pass validation exactly when the tool
    is in the table, every parameter the table requires for it is there
    and not empty, and none of [path], [source], [destination] is an
    absolute path.  The error raised otherwise names the tool;
    its code is [UNKNOWN_TOOL] exactly when the tool is not in the table,
    and an absolute path is only reported when nothing required is
    missing or empty. *)
Theorem validate_tool_params_accepts (tool : string) (params : dict) :
  (validate_tool_params tool params = None
   <-> exists required,
         required_for required_params tool = Some required
         /\ Forall (fun param =>
                      exists value,
                        dict_get params param = Some value /\ value <> "")
              required
         /\ Forall (fun param =>
                      forall value,
                        dict_get params param = Some value ->
                        PyPath.isabs value = false)
              path_params)
  /\ (forall e,
         validate_tool_params tool params = Some e ->
         tool_name e = tool
         /\ (error_code e = "UNKNOWN_TOOL"
             <-> required_for required_params tool = None)
         /\ (error_code e = "INVALID_PATH" ->
             exists required,
               required_for required_params tool = Some required
               /\ check_required tool params required = None)).
Proof.
  unfold validate_tool_params. split.
  - destruct (required_for required_params tool) as [required|].
    + destruct (check_required tool params required) eqn:Er.
      * split; [discriminate|]. intros (r & [= <-] & Hr & _).
        apply (proj2 (check_required_none tool params required)) in Hr.
        congruence.
      * rewrite check_paths_none. split.
        -- intros Hp. exists required. split; [reflexivity|].
           split; [|exact Hp].
           exact (proj1 (check_required_none tool params required) Er).
        -- now intros (r & _ & _ & Hp).
    + split; [discriminate|]. now intros (r & Hr & _).
  - intros e. destruct (required_for required_params tool) as [required|].
    + destruct (check_required tool params required) as [e'|] eqn:Er.
      * intros [= <-]. destruct (check_required_tool _ _ _ _ Er) as (Ht & Hc).
        split; [exact Ht|]. split.
        -- split; [|discriminate]. destruct Hc as [-> | ->]; discriminate.
        -- destruct Hc as [-> | ->]; discriminate.
      * intros Hp. destruct (check_paths_tool _ _ _ _ Hp) as (Ht & Hc).
        split; [exact Ht|]. split.
        -- rewrite Hc. split; discriminate.
        -- intros _. eauto.
    + intros [= <-]. cbn. split; [reflexivity|]. split.
      * tauto.
      * discriminate.
Qed.

(** Membership in a list given in full. *)
Ltac in_list := cbn; repeat (first [left; reflexivity | right]).

(** A property of every entry of a list given in full. *)
Ltac each_entry tac :=
  repeat (apply List.Forall_cons; [tac|]); apply List.Forall_nil.

(** X22.  the validation table and the parser agree on the names they
    use: every tool of the table is a tool the parser recognises, and
    every parameter the table requires is a parameter the parser reads;
    the one tool the parser recognises that is not in the table,
    [kb-search], is refused as [UNKNOWN_TOOL] whatever its parameters. *)
Theorem validation_table_matches_parser :
  Forall (fun entry =>
            In (fst entry) ToolUseName
            /\ Forall (fun param => In param ToolParamName) (snd entry))
    required_params
  /\ Forall (fun tool =>
               tool = "kb-search"
               \/ required_for required_params tool <> None)
       ToolUseName
  /\ forall params,
       option_map error_code (validate_tool_params "kb-search" params)
       = Some "UNKNOWN_TOOL".
Proof.
  split; [|split].
  - unfold required_params.
    each_entry ltac:(split; [in_list | each_entry in_list]).
  - unfold ToolUseName.
    each_entry ltac:(first [left; reflexivity | right; discriminate]).
  - reflexivity.
Qed.

End ToolExecutorProofs.

(** * Further properties of the processing loop *)
Module TurnProtocolProofs.
Import Parser Orchestrator OrchestratorProofs TurnProtocol.

Section WithUuid.
Variable uuid4 : nat -> ascii * string.

Lemma on_code_check_complete_calls (ctx : CheckContext) (s : State) :
  turn_calls (_on_code_check_complete ctx s) = turn_calls s.
Proof.
  unfold _on_code_check_complete.
  destruct (negb (hook_succeeded ctx)); [reflexivity|].
  destruct (check_result ctx) as [[passed results]|]; [|reflexivity].
  destruct (negb passed), results; reflexivity.
Qed.

(** X23.  whatever the model and the tools do, the calls the loop makes
    to the file operation manager come in rounds: every step first
    discards what may be left of a turn and begins a new one, and a
    turn is committed at most once, right after it was begun and before
    the next one is. *)
Theorem turn_calls_in_rounds (fuel : nat) (env : nat -> Step) (depth : nat)
    (s : State) :
  exists calls,
    turn_calls (snd (_recursively_process_messages uuid4 fuel env depth s))
    = turn_calls s ++ calls
    /\ in_rounds calls = true.
Proof.
  revert depth s. induction fuel as [|fuel IH]; intros depth s.
  { exists []. now rewrite app_nil_r. }
  cbn [_recursively_process_messages].
  set (s0 := turn_call begin_turn (turn_call discard_turn s)).
  assert (H0 : turn_calls s0 = turn_calls s ++ [discard_turn; begin_turn]).
  { unfold s0. cbn. now rewrite <- app_assoc. }
  destruct (Nat.leb 4 (consecutive_tool_failures s0)
            || Nat.leb 4 (consecutive_code_failures s0)).
  { exists [discard_turn; begin_turn]. split; [exact H0|reflexivity]. }
  destruct (negb (prompt_ok (env depth))).
  { exists [discard_turn; begin_turn]. split; [exact H0|reflexivity]. }
  destruct (api (env depth));
    try (exists [discard_turn; begin_turn]; split; [exact H0|reflexivity]).
  pose proof (stream_and_tools_calls uuid4 (env depth) s0) as (Hc & _).
  destruct (stream_and_tools uuid4 (env depth) s0) as [evs s1].
  cbn [snd] in Hc.
  set (s2 := if PyStr.truthy (current_message s1)
             then remember (add_assistant_message (current_message s1)) s1
             else s1).
  assert (H2 : turn_calls s2 = turn_calls s ++ [discard_turn; begin_turn]).
  { unfold s2. destruct (PyStr.truthy (current_message s1)); cbn;
      now rewrite Hc, H0. }
  destruct (tool_results s2) as [|r0 rs] eqn:Er.
  { exists [discard_turn; begin_turn]. split; [exact H2|reflexivity]. }
  destruct (followup_question (r0 :: rs)).
  { exists [discard_turn; begin_turn]. split; [exact H2|reflexivity]. }
  set (s4 := turn_call commit_turn _).
  set (s5 := match code_check (env depth) with
             | Some ctx => _on_code_check_complete ctx s4
             | None => s4
             end).
  assert (H5 : turn_calls s5
               = turn_calls s ++ [discard_turn; begin_turn; commit_turn]).
  { unfold s5. destruct (code_check (env depth));
      rewrite ?on_code_check_complete_calls; unfold s4; cbn;
      rewrite H2, <- app_assoc; reflexivity. }
  destruct (IH (S depth) (clear_results s5)) as (calls & Hcalls & Hr).
  destruct (_recursively_process_messages uuid4 fuel env (S depth)
              (clear_results s5)) as [rec_evs s7].
  cbn [snd] in *.
  exists ([discard_turn; begin_turn; commit_turn] ++ calls). split.
  - replace (turn_calls match tool_results s7 with
                        | [] => set_status st_completed s7
                        | _ :: _ => s7
                        end) with (turn_calls s7)
      by (destruct (tool_results s7); reflexivity).
    rewrite Hcalls. cbn [clear_results turn_calls]. rewrite H5.
    now rewrite <- app_assoc.
  - exact Hr.
Qed.

Lemma tool_consumer_nil (step : Step) (s : State) :
  _tool_consumer step [] s = s.
Proof. reflexivity. Qed.

(** X24.  a reply in which no tool call runs to its closing tag ends the
    task in that step: the events are those of the stream and nothing
    else, the task is completed, the reply is stored as the assistant's
    message when it is not empty, and no turn is committed. *)
Theorem reply_without_tools_completes (fuel : nat) (env : nat -> Step)
    (depth : nat) (s : State) :
  consecutive_tool_failures s < 4 ->
  consecutive_code_failures s < 4 ->
  prompt_ok (env depth) = true ->
  api (env depth) = ApiOk ->
  tool_results s = [] ->
  let s0 := turn_call begin_turn (turn_call discard_turn s) in
  let evs := fst (stream_and_tools uuid4 (env depth) s0) in
  requests_of evs = [] ->
  let r := _recursively_process_messages uuid4 (S fuel) env depth s in
  let reply := join (chunks (env depth)) in
  fst r = evs
  /\ status (snd r) = st_completed
  /\ tool_results (snd r) = []
  /\ turn_calls (snd r) = turn_calls s ++ [discard_turn; begin_turn]
  /\ memory (snd r)
     = memory s
       ++ (if PyStr.truthy reply then [add_assistant_message reply] else []).
Proof.
  intros Ht Hc Hp Ha Hres s0 evs Hreq r reply.
  unfold r. cbn [_recursively_process_messages].
  fold s0.
  change (consecutive_tool_failures s0) with (consecutive_tool_failures s).
  change (consecutive_code_failures s0) with (consecutive_code_failures s).
  apply Nat.leb_gt in Ht, Hc. rewrite Ht, Hc, Hp, Ha. cbn [orb negb].
  unfold evs in *. clear evs.
  unfold stream_and_tools in *.
  destruct (Parser.calls uuid4 (reset_state (uuid_calls s0))
              (map Some (chunks (env depth)) ++ [None])) as [evs ps].
  cbn [fst] in Hreq. rewrite Hreq. rewrite tool_consumer_nil.
  fold reply.
  set (s1 := set_current_message reply
               (set_uuid_calls (Parser.uuid_calls ps) s0)).
  change (current_message s1) with reply.
  destruct (PyStr.truthy reply); cbn [tool_results remember s1
    set_current_message set_uuid_calls s0 turn_call];
    rewrite Hres; cbn; rewrite <- ?app_assoc, ?app_nil_r, ?Hres;
    repeat split; reflexivity.
Qed.

End WithUuid.

Lemma reply_without_tools_completes_witness :
  let s := reset_for_new_task new_state in
  let r := _recursively_process_messages uuid_example 1
             (fun _ => plain_reply) 0 s in
  tool_results s = []
  /\ fst r = [TextEvent "All "; TextEvent "done."]
  /\ status (snd r) = st_completed
  /\ turn_calls (snd r) = [discard_turn; begin_turn]
  /\ memory (snd r) = [add_assistant_message "All done."].
Proof.
  split; [reflexivity|].
  destruct (reply_without_tools_completes uuid_example 0
              (fun _ => plain_reply) 0 (reset_for_new_task new_state)
              ltac:(cbn; lia) ltac:(cbn; lia) eq_refl eq_refl eq_refl
              eq_refl)
    as (H1 & H2 & _ & H4 & H5).
  exact (conj H1 (conj H2 (conj H4 H5))).
Defined.

End TurnProtocolProofs.

(** * Properties of the cache checkpoints *)
Module MessageManagerProofs.
Import MessageManager.

Lemma add_assistant_messages_spec (texts : list string) : forall m,
  let k := if enable_prompt_cache m
           then max_checkpoints m - checkpoint_count m else 0 in
  add_assistant_messages m texts
  = (mkManager (enable_prompt_cache m)
       (checkpoint_count m + Nat.min k (length texts)) (max_checkpoints m),
     map marked (take k texts) ++ map plain (drop k texts)).
Proof.
  induction texts as [|text r IH]; intros [e c mx]; cbv zeta;
    cbn [enable_prompt_cache checkpoint_count max_checkpoints].
  - cbn. now rewrite Nat.min_0_r, Nat.add_0_r, take_nil, drop_nil.
  - cbn [add_assistant_messages]. unfold add_assistant_message.
    cbn [enable_prompt_cache checkpoint_count max_checkpoints].
    destruct e; cbn [andb].
    + destruct (Nat.ltb_spec c mx).
      * rewrite IH.
        cbn [enable_prompt_cache checkpoint_count max_checkpoints].
        replace (mx - c) with (S (mx - S c)) by lia.
        cbn [take drop map app length]. f_equal. f_equal. lia.
      * rewrite IH.
        cbn [enable_prompt_cache checkpoint_count max_checkpoints].
        replace (mx - c) with 0 by lia.
        cbn. rewrite drop_0. reflexivity.
    + rewrite IH.
      cbn [enable_prompt_cache checkpoint_count max_checkpoints].
      cbn. rewrite drop_0. reflexivity.
Qed.

(** X25.  of the assistant messages added one after the other only the
    first ones carry a cache checkpoint, as many as the manager has
    checkpoints left (none when prompt caching is off); the others are
    stored as plain text; and the count of checkpoints never goes past
    the maximum. *)
Theorem checkpoints_are_bounded (m : Manager) (texts : list string) :
  checkpoint_count m <= max_checkpoints m ->
  let k := if enable_prompt_cache m
           then max_checkpoints m - checkpoint_count m else 0 in
  let r := add_assistant_messages m texts in
  snd r = map marked (take k texts) ++ map plain (drop k texts)
  /\ length (List.filter is_checkpoint (snd r)) = Nat.min k (length texts)
  /\ checkpoint_count (fst r) <= max_checkpoints m
  /\ checkpoint_count (reset_checkpoints (fst r)) = 0.
Proof.
  intros Hle k r. unfold r. rewrite add_assistant_messages_spec. fold k.
  cbn [fst snd checkpoint_count].
  split; [reflexivity|]. split; [|split; [|reflexivity]].
  - rewrite List.filter_app, length_app.
    assert (Hm : forall l, List.filter is_checkpoint (map marked l)
                           = map marked l).
    { induction l as [|x l IHl]; [reflexivity|]. cbn. now rewrite IHl. }
    assert (Hp : forall l, List.filter is_checkpoint (map plain l) = []).
    { induction l as [|x l IHl]; [reflexivity|]. cbn. exact IHl. }
    rewrite Hm, Hp, length_map, length_take. cbn. lia.
  - unfold k. destruct (enable_prompt_cache m); lia.
Qed.


Lemma checkpoints_are_bounded_witness :
  checkpoint_count (mkManager true 0 4) <= max_checkpoints (mkManager true 0 4)
  /\ snd (add_assistant_messages (mkManager true 0 4)
            ["a"; "b"; "c"; "d"; "e"])
     = [marked "a"; marked "b"; marked "c"; marked "d"; plain "e"].
Proof.
  split; [cbn; lia|].
  exact (proj1
           (checkpoints_are_bounded (mkManager true 0 4)
              ["a"; "b"; "c"; "d"; "e"] ltac:(cbn; lia))).
Defined.

End MessageManagerProofs.

(** * Properties of the whole message parser *)
Module MessageParserProofs.
Import Parser MessageParser.

Lemma lstrip_head (s : string) :
  match lstrip s with
  | "" => True
  | String c _ => is_space c = false
  end.
Proof.
  induction s as [|c r IH]; cbn; [exact I|].
  destruct (is_space c) eqn:E; [exact IH|exact E].
Qed.

Lemma lstrip_fixed (s : string) :
  match s with "" => True | String c _ => is_space c = false end ->
  lstrip s = s.
Proof. destruct s as [|c r]; cbn; [auto|]. now intros ->. Qed.

Lemma rstrip_head (c : ascii) (r : string) :
  is_space c = false ->
  exists r', rstrip (String c r) = String c r'.
Proof.
  intros E. cbn. destruct (rstrip r); [|eauto]. rewrite E. eauto.
Qed.

Lemma rstrip_twice (s : string) : rstrip (rstrip s) = rstrip s.
Proof.
  induction s as [|c r IH]; [reflexivity|]. cbn [rstrip].
  destruct (rstrip r) as [|c' r'] eqn:E.
  - destruct (is_space c) eqn:Ec; [reflexivity|]. cbn. now rewrite Ec.
  - change (rstrip (String c (String c' r')))
      with (match rstrip (String c' r') with
            | "" => if is_space c then "" else String c ""
            | r0 => String c r0
            end).
    now rewrite IH.
Qed.

Lemma strip_trimmed (s : string) : trimmed (strip s).
Proof.
  unfold trimmed, strip.
  assert (H : lstrip (rstrip (lstrip s)) = rstrip (lstrip s)).
  { apply lstrip_fixed. pose proof (lstrip_head s) as Hh.
    destruct (lstrip s) as [|c r]; [exact I|].
    destruct (rstrip_head c r Hh) as (r' & ->). exact Hh. }
  rewrite H. apply rstrip_twice.
Qed.

Lemma dict_set_trimmed (d : dict) (k v : string) :
  Forall (fun kv => trimmed (snd kv)) d -> trimmed v ->
  Forall (fun kv => trimmed (snd kv)) (dict_set d k v).
Proof.
  intros Hd Hv. induction d as [|[k' v'] d IH]; cbn.
  - constructor; [exact Hv|constructor].
  - inversion Hd as [|? ? H1 H2]; subst.
    destruct (String.eqb k' k); constructor; auto.
Qed.

(** Closes the goals left once the branch a step takes is known. *)
Ltac trimmed_goal :=
  first
    [ apply strip_trimmed
    | apply dict_set_trimmed; [assumption|apply strip_trimmed]
    | apply Forall_app; split; [assumption|];
      constructor; [|constructor];
      first [assumption | apply strip_trimmed]
    | constructor
    | assumption ].

Ltac after_step :=
  intros [= <-]; repeat split; cbn;
  try discriminate;
  try (intros ? ? [= <- <-]); try (intros ? [= <-]);
  auto; try trimmed_goal.

Lemma content_between_trimmed (tool_content value : string) :
  content_between tool_content = Some (Some value) -> trimmed value.
Proof.
  unfold content_between.
  destruct (rindex _ _); [|discriminate].
  destruct (_ && _); [|discriminate].
  intros [= <-]. apply strip_trimmed.
Qed.

Lemma step_trimmed (l l' : Locals) (i : nat) (char : ascii) :
  all_trimmed l -> step l i char = Some l' -> all_trimmed l'.
Proof.
  intros (Hb & Ht & Hu). unfold step.
  destruct (current_tool_use l) as [[name params]|] eqn:Eu.
  - specialize (Hu _ _ eq_refl).
    destruct (current_param_name l) as [pname|].
    + destruct (endswith _ _); after_step.
    + destruct (endswith _ _); [after_step|].
      destruct (first_tag ToolParamName "<" _);
        (destruct (String.eqb name "write-to-file" && endswith _ _);
         [|after_step]);
        (destruct (content_between _) as [[value|]|] eqn:Ec;
         [apply content_between_trimmed in Ec| |discriminate]);
        after_step; apply dict_set_trimmed; assumption.
  - destruct (first_tag ToolUseName "<" _) as [tool_name|].
    + destruct (current_text_content l) as [content|]; after_step.
    + after_step.
Qed.

Lemma loop_trimmed (chars : list ascii) : forall l l' i,
  all_trimmed l -> loop l i chars = Some l' -> all_trimmed l'.
Proof.
  induction chars as [|c chars IH]; intros l l' i Hl; cbn.
  - now intros [= <-].
  - destruct (step l i c) as [l1|] eqn:E; [|discriminate].
    apply IH. eapply step_trimmed; eauto.
Qed.

(** ** Messages with no tag *)

Lemma substring_all (s : string) : String.substring 0 (String.length s) s = s.
Proof. induction s as [|c r IH]; cbn; [reflexivity|now rewrite IH]. Qed.

Lemma from_0 (s : string) : from 0 s = s.
Proof. unfold from. rewrite Nat.sub_0_r. apply substring_all. Qed.

Lemma from_split (s : string) : forall k,
  k <= String.length s ->
  s = String.substring 0 k s +:+ from k s.
Proof.
  unfold from. induction s as [|c r IH]; intros k Hk.
  - cbn in Hk. replace k with 0 by lia. reflexivity.
  - destruct k as [|k]; cbn [String.length String.substring].
    + rewrite Nat.sub_0_r, ParserProofs.append_nil_l.
      now rewrite substring_all.
    + cbn in Hk. rewrite ParserProofs.append_cons.
      f_equal. apply IH. lia.
Qed.

Lemma endswith_split (s t : string) :
  endswith s t = true -> exists p, s = p +:+ t.
Proof.
  unfold endswith. intros H. apply andb_prop in H as (Hl & He).
  apply Nat.leb_le in Hl. apply String.eqb_eq in He.
  exists (String.substring 0 (String.length s - String.length t) s).
  rewrite (from_split s (String.length s - String.length t)) at 1 by lia.
  now rewrite He.
Qed.

Lemma chars_snoc (a : string) (c : ascii) :
  PyStr.chars (PyStr.snoc a c) = PyStr.chars a ++ [c].
Proof. unfold PyStr.snoc. now rewrite ParserProofs.chars_app. Qed.

Lemma endswith_last (a t : string) (c : ascii) :
  endswith (PyStr.snoc a c) (t +:+ ">") = true -> c = ">"%char.
Proof.
  intros H. destruct (endswith_split _ _ H) as (p & E).
  apply (f_equal PyStr.chars) in E.
  rewrite chars_snoc, <- ParserProofs.append_assoc,
    ParserProofs.chars_app in E.
  change (PyStr.chars ">") with [">"%char] in E.
  now apply app_inj_tail in E as (_ & ->).
Qed.

Lemma first_tag_none (names : list string) (lead a : string) (c : ascii) :
  c <> ">"%char -> first_tag names lead (PyStr.snoc a c) = None.
Proof.
  intros Hc. induction names as [|n names IH]; [reflexivity|].
  cbn [first_tag].
  destruct (endswith (PyStr.snoc a c) (lead +:+ n +:+ ">")) eqn:E;
    [|exact IH].
  rewrite <- ParserProofs.append_assoc in E.
  now apply endswith_last in E.
Qed.

(** The locals while a message with no tag is read: one text, begun
    at index 0. *)
Local Abbreviation reading acc :=
  (mkLocals [] (Some (strip acc)) 0 None 0 None 0 acc).

Lemma loop_plain (text : string) : forall acc i,
  ParserEvents.no_gt text = true ->
  loop (reading acc) i (PyStr.chars text) = Some (reading (acc +:+ text)).
Proof.
  induction text as [|c text IH]; intros acc i Hn.
  - cbn. now rewrite ParserProofs.append_nil_r.
  - unfold ParserEvents.no_gt in Hn.
    cbn [PyStr.chars list_ascii_of_string forallb] in Hn.
    apply andb_prop in Hn as (Hc & Hn). apply negb_true_iff in Hc.
    apply Ascii.eqb_neq in Hc.
    cbn [PyStr.chars list_ascii_of_string loop].
    unfold step.
    cbn [current_tool_use accumulator current_text_content
         current_text_content_start_index].
    rewrite (first_tag_none _ _ _ _ Hc), from_0.
    cbn [content_blocks current_tool_use_start_index current_param_name
         current_param_value_start_index].
    change (list_ascii_of_string text) with (PyStr.chars text).
    rewrite (IH _ _ Hn).
    now rewrite ParserEventsProofs.snoc_append.
Qed.

(** X27.  a message with no [>] in it holds no tag, and it comes back as
    one partial text block with the message stripped of the white space
    at its ends; the empty message gives no block. *)
Theorem message_without_tags_is_one_text (assistant_message : string) :
  ParserEvents.no_gt assistant_message = true ->
  parse_assistant_message assistant_message
  = Some (if PyStr.truthy assistant_message
          then [TextContent (strip assistant_message) true]
          else []).
Proof.
  intros Hn. unfold parse_assistant_message.
  destruct assistant_message as [|c text]; [reflexivity|].
  unfold ParserEvents.no_gt in Hn.
  cbn [PyStr.chars list_ascii_of_string forallb] in Hn.
  apply andb_prop in Hn as (Hc & Hn). apply negb_true_iff in Hc.
  apply Ascii.eqb_neq in Hc.
  cbn [PyStr.chars list_ascii_of_string loop PyStr.truthy].
  unfold step at 1.
  cbn [current_tool_use accumulator current_text_content initial
       current_text_content_start_index].
  rewrite (first_tag_none _ _ _ _ Hc), from_0.
  cbn [content_blocks current_tool_use_start_index current_param_name
       current_param_value_start_index].
  change (list_ascii_of_string text) with (PyStr.chars text).
  rewrite (loop_plain text _ _ Hn). reflexivity.
Qed.

Lemma message_without_tags_is_one_text_witness :
  ParserEvents.no_gt "  plain  " = true
  /\ parse_assistant_message "  plain  " = Some [TextContent "plain" true].
Proof.
  split; [reflexivity|].
  exact (message_without_tags_is_one_text "  plain  " eq_refl).
Defined.

(** ** The parser returns *)

Lemma length_append (a b : string) :
  String.length (a +:+ b) = String.length a + String.length b.
Proof.
  induction a as [|c a IH]; [now rewrite ParserProofs.append_nil_l|].
  rewrite ParserProofs.append_cons. cbn. now rewrite IH.
Qed.

Lemma from_append (p q : string) : from (String.length p) (p +:+ q) = q.
Proof.
  unfold from. rewrite length_append.
  replace (String.length p + String.length q - String.length p)
    with (String.length q) by lia.
  induction p as [|c p IH]; cbn; [apply substring_all|exact IH].
Qed.

Lemma prefix_refl (s : string) : String.prefix s s = true.
Proof.
  induction s as [|c s IH]; [reflexivity|]. cbn.
  destruct (ascii_dec c c); [exact IH|congruence].
Qed.

Lemma prefix_append (s t : string) : String.prefix s (s +:+ t) = true.
Proof.
  induction s as [|c s IH]; [now destruct t|].
  rewrite ParserProofs.append_cons. cbn.
  destruct (ascii_dec c c); [exact IH|congruence].
Qed.

Lemma rindex_prefix (s sub : string) :
  String.prefix sub s = true -> rindex s sub <> None.
Proof.
  destruct s as [|c r]; cbn [rindex]; intros H.
  - now rewrite H.
  - destruct (rindex r sub); [discriminate|]. now rewrite H.
Qed.

Lemma rindex_suffix (r sub : string) : rindex (r +:+ sub) sub <> None.
Proof.
  induction r as [|c r IH].
  - apply rindex_prefix. rewrite ParserProofs.append_nil_l.
    apply prefix_refl.
  - rewrite ParserProofs.append_cons. cbn [rindex].
    destruct (rindex (r +:+ sub) sub); [discriminate|contradiction].
Qed.

Lemma snoc_assoc (a b : string) (c : ascii) :
  PyStr.snoc (a +:+ b) c = a +:+ PyStr.snoc b c.
Proof. unfold PyStr.snoc. apply ParserProofs.append_assoc. Qed.

Lemma chars_length (s : string) : length (PyStr.chars s) = String.length s.
Proof.
  unfold PyStr.chars.
  induction s as [|c s IH]; cbn; [reflexivity|now rewrite IH].
Qed.

Lemma chars_inj (a b : string) : PyStr.chars a = PyStr.chars b -> a = b.
Proof.
  unfold PyStr.chars.
  revert b. induction a as [|c a IH]; intros [|d b]; cbn; try discriminate;
    [reflexivity|].
  intros [= -> E]. f_equal. now apply IH.
Qed.

(** Two ways of cutting one list: the longer tail ends with the
    shorter one. *)
Lemma app_tails {A : Type} (x y x' y' : list A) :
  x ++ y = x' ++ y' -> length y' <= length y ->
  exists r, y = r ++ y'.
Proof.
  revert x'. induction x as [|a x IH]; intros x' E Hl.
  - cbn in E. now exists x'.
  - destruct x' as [|a' x'].
    + cbn in E. subst y'. cbn in Hl. rewrite length_app in Hl. lia.
    + injection E as -> E. now apply (IH x').
Qed.

(** The closing tag of the content cannot reach into the opening tag
    of the tool. *)
Lemma content_tag_after_opening (p q p' : string) :
  p +:+ "<write-to-file>" +:+ q = p' +:+ "</content>" ->
  exists r, q = r +:+ "</content>".
Proof.
  intros E. apply (f_equal PyStr.chars) in E.
  rewrite !ParserProofs.chars_app in E.
  destruct (Nat.le_gt_cases (String.length "</content>") (String.length q))
    as [Hl|Hl].
  - rewrite app_assoc in E.
    destruct (app_tails _ _ _ _ E) as (r & Hr).
    { now rewrite !chars_length. }
    exists (string_of_list_ascii r). apply chars_inj.
    rewrite ParserProofs.chars_app. unfold PyStr.chars at 2.
    now rewrite list_ascii_of_string_of_list_ascii.
  - exfalso. apply (f_equal (@rev ascii)) in E.
    rewrite !rev_app_distr in E.
    rewrite <- chars_length, <- length_rev in Hl.
    remember (rev (PyStr.chars q)) as rq eqn:Erq. clear Erq.
    cbn in E, Hl.
    do 10 (destruct rq as [|? rq]; [cbn in E; congruence|]).
    cbn in Hl. lia.
Qed.

Lemma content_between_returns (acc p q : string) :
  acc = p +:+ ("<" +:+ "write-to-file" +:+ ">") +:+ q ->
  endswith acc "</content>" = true ->
  content_between
    (from (String.length (p +:+ ("<" +:+ "write-to-file" +:+ ">"))) acc)
  <> None.
Proof.
  intros Ea Ee. destruct (endswith_split _ _ Ee) as (p' & Ep').
  rewrite Ea in Ep'.
  destruct (content_tag_after_opening _ _ _ Ep') as (r & ->).
  rewrite Ea.
  rewrite <- (ParserProofs.append_assoc p _ (r +:+ "</content>")).
  rewrite from_append.
  unfold content_between.
  pose proof (rindex_suffix r "</content>") as Hx.
  destruct (rindex (r +:+ "</content>") "</content>"); [|contradiction].
  destruct (_ && _); discriminate.
Qed.

Lemma step_returns (l : Locals) (i : nat) (char : ascii) :
  tool_opened l ->
  exists l', step l i char = Some l' /\ tool_opened l'.
Proof.
  intros Ho. unfold step.
  destruct (current_tool_use l) as [[name params]|] eqn:Eu.
  - destruct (Ho _ _ Eu) as (p & q & Ea & Es).
    assert (Ea' : PyStr.snoc (accumulator l) char
                  = p +:+ ("<" +:+ name +:+ ">") +:+ PyStr.snoc q char)
      by now rewrite Ea, !snoc_assoc.
    assert (Hnext : forall params' pn ps blocks txt ts,
               tool_opened
                 (mkLocals blocks txt ts (Some (name, params'))
                    (current_tool_use_start_index l) pn ps
                    (PyStr.snoc (accumulator l) char))).
    { intros params' pn ps blocks txt ts n pr [= <- <-].
      exists p, (PyStr.snoc q char). cbn. split; [exact Ea'|exact Es]. }
    assert (Hnone : forall pn ps blocks txt ts ts' acc,
               tool_opened (mkLocals blocks txt ts None ts' pn ps acc)).
    { intros pn ps blocks txt ts ts' acc n pr. discriminate. }
    destruct (current_param_name l) as [pname|].
    + destruct (endswith _ _); eexists; split; try reflexivity; auto.
    + destruct (endswith _ _); [eexists; split; [reflexivity|auto]|].
      destruct (String.eqb name "write-to-file" && endswith _ _) eqn:Ew.
      * apply andb_prop in Ew as (En & Ee).
        apply String.eqb_eq in En. subst name.
        pose proof (content_between_returns _ _ _ Ea' Ee) as Hc.
        rewrite <- Es in Hc.
        destruct (content_between _) as [[value|]|]; [| |contradiction];
          destruct (first_tag ToolParamName "<" _);
          eexists; (split; [reflexivity|apply Hnext]).
      * destruct (first_tag ToolParamName "<" _);
          eexists; (split; [reflexivity|apply Hnext]).
  - destruct (first_tag ToolUseName "<" _) as [tool_name|] eqn:Ef.
    + assert (Hend : endswith (PyStr.snoc (accumulator l) char)
                       ("<" +:+ tool_name +:+ ">") = true).
      { clear -Ef. induction ToolUseName as [|n names IH];
          [discriminate|]. cbn [first_tag] in Ef.
        destruct (endswith _ ("<" +:+ n +:+ ">")) eqn:E.
        - now injection Ef as <-.
        - exact (IH Ef). }
      destruct (endswith_split _ _ Hend) as (p & Ep).
      assert (Ht : forall blocks txt ts pn ps,
                 tool_opened
                   (mkLocals blocks txt ts (Some (tool_name, []))
                      (String.length (PyStr.snoc (accumulator l) char))
                      pn ps (PyStr.snoc (accumulator l) char))).
      { intros blocks txt ts pn ps n pr [= <- <-].
        exists p, "". cbn [accumulator current_tool_use_start_index].
        rewrite ParserProofs.append_nil_r, <- Ep. auto. }
      destruct (current_text_content l); eexists; split;
        try reflexivity; apply Ht.
    + eexists. split; [reflexivity|]. intros n pr. discriminate.
Qed.

Lemma loop_returns (chars : list ascii) : forall l i,
  tool_opened l -> exists l', loop l i chars = Some l'.
Proof.
  induction chars as [|c chars IH]; intros l i Ho; cbn; [eauto|].
  destruct (step_returns l i c Ho) as (l1 & -> & H1). now apply IH.
Qed.

(** X26.  [parse_assistant_message] never raises, and every text it
    returns is stripped: the content of every text block and the value
    of every parameter of every tool use has no white space at either
    end. *)
Theorem parsed_texts_are_trimmed (assistant_message : string) :
  exists blocks,
    parse_assistant_message assistant_message = Some blocks
    /\ Forall block_trimmed blocks.
Proof.
  unfold parse_assistant_message.
  assert (Ho : tool_opened initial) by (intros n p; discriminate).
  destruct (loop_returns (PyStr.chars assistant_message) initial 0 Ho)
    as (l & E).
  rewrite E. eexists. split; [reflexivity|].
  assert (Hi : all_trimmed initial).
  { repeat split; cbn; [constructor|discriminate|discriminate]. }
  destruct (loop_trimmed _ _ _ _ Hi E) as (Hb & Ht & Hu).
  unfold finish.
  destruct (current_tool_use l) as [[name params]|].
  - specialize (Hu _ _ eq_refl).
    apply Forall_app. split; [exact Hb|]. constructor; [|constructor].
    cbn. destruct (current_param_name l); [|exact Hu].
    apply dict_set_trimmed; [exact Hu|apply strip_trimmed].
  - destruct (current_text_content l) as [content|]; [|exact Hb].
    apply Forall_app. split; [exact Hb|]. constructor; [|constructor].
    cbn. auto.
Qed.

End MessageParserProofs.
